(** * IMAP METADATA (RFC 5464) annotations of the mox mail server

    A shallow embedding of [cmdGetmetadata] and [cmdSetmetadata] of package
    [imapserver], and the properties of the hierarchical matcher, the
    option parser, the entry-name checks, the quota scan and the change
    records that the specification states about them; and of the code
    beside them: [TXTStrings], and the readers of mbox files and maildirs
    with the flags, the dovecot keywords and the line endings of the
    messages they import.

    Layout: Part I holds the definitions (Go string helpers, the error
    monad, the annotation table, the two commands); Part II holds the
    lemmas and theorems. *)

From Stdlib Require Import ZArith String Ascii List Lia Bool.
From Stdlib.Strings Require Import Byte.
From stdpp Require Import base gmap sets list strings pretty.
Import ListNotations.

Local Open Scope Z_scope.

(* ===================================================================== *)
(** * Part I: definitions                                                 *)
(* ===================================================================== *)

(** ** Errors *)

(** Modelled from the spec: the handlers abort a command by panicking with
    a typed error that the connection turns into the response: a syntax
    (protocol) error of the request, a user error with an optional
    response code, or a server error.  A slice expression out of range is
    Go's run-time panic. *)
Inductive error : Type :=
| SyntaxError (msg : string)
| UserError (code : string) (msg : string)
| ServerError (msg : string)
| RuntimePanic (msg : string).

Inductive result (A : Type) : Type :=
| Ok (a : A)
| Err (e : error).
Arguments Ok {A} a.
Arguments Err {A} e.

#[global] Instance result_bind : MBind result :=
  λ A B (k : A → result B) (r : result A),
    match r with
    | Ok a => k a
    | Err e => Err e
    end.

#[global] Instance result_ret : MRet result := λ A (a : A), Ok a.

(** Modelled from the spec: the helpers that raise these errors, which are
    [p.xerrorf] (syntax error), [xuserErrorf] and [xusercodeErrorf] (user
    error, the second with a response code) and [xcheckf] on an error that
    is not nil (server error). *)
Definition xerrorf {A : Type} (msg : string) : result A := Err (SyntaxError msg).
Definition xuserErrorf {A : Type} (msg : string) : result A := Err (UserError "" msg).
Definition xusercodeErrorf {A : Type} (code msg : string) : result A :=
  Err (UserError code msg).
Definition xcheckf {A : Type} (msg : string) : result A := Err (ServerError msg).

Definition isOk {A : Type} (r : result A) : bool :=
  match r with Ok _ => true | Err _ => false end.

Definition isSyntaxError {A : Type} (r : result A) : bool :=
  match r with Err (SyntaxError _) => true | _ => false end.

(** ** Go strings

    A Go string is a sequence of bytes; [string] of the standard library is
    a sequence of 8-bit characters.  [len], [strings.HasPrefix], the slice
    expression [s[n:]], [strings.Index] and [strings.SplitN] follow package
    [strings]. *)

Definition len (s : string) : nat := String.length s.

Fixpoint HasPrefix (s prefix : string) {struct prefix} : bool :=
  match prefix with
  | EmptyString => true
  | String c prefix' =>
      match s with
      | EmptyString => false
      | String d s' => bool_decide (d = c) && HasPrefix s' prefix'
      end
  end.

Fixpoint strDrop (n : nat) (s : string) : string :=
  match n, s with
  | O, _ => s
  | S n', String _ s' => strDrop n' s'
  | S _, EmptyString => EmptyString
  end.

Fixpoint strTake (n : nat) (s : string) : string :=
  match n, s with
  | O, _ => EmptyString
  | S n', String c s' => String c (strTake n' s')
  | S _, EmptyString => EmptyString
  end.

(** [s[n:]]: panics when [n] is past the end of [s]. *)
Definition sliceFrom (s : string) (n : nat) : result string :=
  if (n <=? len s)%nat then Ok (strDrop n s)
  else Err (RuntimePanic "slice bounds out of range").

(** [strings.Index]: offset of the first occurrence of [sep] in [s]. *)
Fixpoint Index (s sep : string) : option nat :=
  if HasPrefix s sep then Some O
  else match s with
       | EmptyString => None
       | String _ s' => S <$> Index s' sep
       end.

(** The loop of [strings.SplitN] for a non-empty separator: cut at most
    [n] times, the last piece is the unsplit remainder. *)
Fixpoint splitLoop (n : nat) (s sep : string) : list string :=
  match n with
  | O => [s]
  | S n' =>
      match Index s sep with
      | None => [s]
      | Some m => strTake m s :: splitLoop n' (strDrop (m + len sep) s) sep
      end
  end.

(** [strings.SplitN(s, sep, n)] for a non-empty [sep]: [n = 0] gives no
    piece, [n < 0] all pieces, [n > 0] at most [n] pieces. *)
Definition SplitN (s sep : string) (n : Z) : list string :=
  if n =? 0 then []
  else if n <? 0 then splitLoop (len s) s sep
  else splitLoop (Z.to_nat n - 1) s sep.

#[global] Instance byte_eq_decision : EqDecision byte := byte_eq_dec.

(** [bytes.Equal]: a nil slice and an empty slice are equal. *)
Definition bytesEqual (a b : list byte) : bool := bool_decide (a = b).

(** ** The annotation table *)

(** Modelled from the spec: type [store.Annotation] is declared in package
    [store].  An annotation has a primary key [ID], the scope [MailboxID]
    (0 for the account-wide scope), the entry name [Key], the flag
    [IsString] (the spec's IsText) and the bytes [Value]; a Go byte slice
    is either nil ([None]) or a sequence of bytes. *)
Record Annotation : Type := mkAnnotation {
  ID : Z;
  MailboxID : Z;
  Key : string;
  IsString : bool;
  Value : option (list byte)
}.

Definition lenValue (v : option (list byte)) : nat :=
  match v with
  | None => O
  | Some b => length b
  end.

Definition valueBytes (v : option (list byte)) : list byte :=
  match v with
  | None => []
  | Some b => b
  end.

Definition isNil (v : option (list byte)) : bool :=
  match v with
  | None => true
  | Some _ => false
  end.

(** ** GETMETADATA: the hierarchical matcher and the scan

    The options of the command after parsing: [optMaxSize] is -1 when no
    MAXSIZE was given, [optDepth] is the empty string when no DEPTH was
    given. *)
Record getOptions : Type := mkGetOptions {
  optMaxSize : Z;
  optDepth : string
}.

Definition noOptions : getOptions := {| optMaxSize := -1; optDepth := "" |}.

(** The prefix under which the descendants of entry [s] live. *)
Definition entryPrefix (s : string) : string :=
  if bool_decide (s = "/"%string) then s else (s +:+ "/")%string.

(** The loop [for s := range entryNames] of the depth "1"/"INFINITY" case
    ([cmdGetmetadata], lines 117-135), over the names in the order the map
    yields them; [true] is
    [match = true; break], a name that does not fit is [continue]. *)
Fixpoint entryLoop (depth key : string) (names : list string) : result bool :=
  match names with
  | [] => Ok false
  | s :: rest =>
      let prefix := entryPrefix s in
      if negb (HasPrefix key prefix) then entryLoop depth key rest
      else if bool_decide (depth = "INFINITY"%string) then Ok true
      else
        suffix ← sliceFrom key (len prefix);
        let t := SplitN suffix "/" 2 in
        if bool_decide (length t = 1%nat) then Ok true
        else entryLoop depth key rest
  end.

(** The [switch optDepth] of the callback (lines 106-141): does the stored
    key match the requested entry names?  A Go map is iterated in an unspecified order;
    [elements] fixes one. *)
Definition depthMatch (depth : string) (entryNames : gset string)
    (key : string) : result bool :=
  if bool_decide (depth = ""%string) || bool_decide (depth = "0"%string) then
    Ok (bool_decide (key ∈ entryNames))
  else if bool_decide (depth = "1"%string)
          || bool_decide (depth = "INFINITY"%string) then
    if bool_decide (key ∈ entryNames) then Ok true
    else entryLoop depth key (elements entryNames)
  else xcheckf "missing case for depth".

(** What the scan has gathered so far: the annotations to return and the
    size of the largest value skipped because of MAXSIZE (-1: none). *)
Record gathered : Type := mkGathered {
  annotations : list Annotation;
  longentries : Z
}.

(** The callback handed to [q.ForEach] (lines 104-149). *)
Definition getEach (o : getOptions) (entryNames : gset string)
    (g : gathered) (a : Annotation) : result gathered :=
  m ← depthMatch (optDepth o) entryNames (Key a);
  if negb m then Ok g
  else if (0 <=? optMaxSize o) && (optMaxSize o <? Z.of_nat (lenValue (Value a)))
  then Ok {| annotations := annotations g;
             longentries := Z.max (longentries g) (Z.of_nat (lenValue (Value a))) |}
  else Ok {| annotations := annotations g ++ [a];
             longentries := longentries g |}.

(** [q.ForEach]: the callback on every row the query yields, in order,
    stopping at the first error. *)
Fixpoint ForEach {S : Type} (fn : S → Annotation → result S)
    (rows : list Annotation) (st : S) : result S :=
  match rows with
  | [] => Ok st
  | a :: rest => st' ← fn st a; ForEach fn rest st'
  end.

(** The final status line of GETMETADATA and the response as a whole
    (lines 156-178): at most one untagged METADATA line (the mailbox name and the annotations
    it lists), then the tagged OK, plain or with a response code. *)
Inductive okStatus : Type :=
| OKPlain
| OKCode (code : string).

Record getResponse : Type := mkGetResponse {
  untagged : option (string * list Annotation);
  status : okStatus
}.

Definition respond (mailboxName : string) (g : gathered) : getResponse :=
  {| untagged := match annotations g with
                 | [] => None
                 | _ :: _ => Some (mailboxName, annotations g)
                 end;
     status := if 0 <=? longentries g
               then OKCode ("METADATA LONGENTRIES " +:+ pretty (longentries g))
               else OKPlain |}.

(** The rows of the table selected by an equality filter on [MailboxID]. *)
Definition filterMailbox (mailboxID : Z) (rows : list Annotation) : list Annotation :=
  List.filter (λ a, bool_decide (MailboxID a = mailboxID)) rows.

(** ** The transaction *)

(** Modelled from the spec: the transactional object store (package
    [bstore]) is an external collaborator that offers an open transaction,
    a scoped query with equality filters, get, insert, update, delete and
    an "absent" signal.  A transaction sees the table of annotations in
    primary-key order and the sequence that numbers new rows; the pair
    (MailboxID, Key) is unique in the table. *)
Record Tx : Type := mkTx {
  rows : list Annotation;
  sequence : Z
}.

(** Modelled from the spec: a query with the equality filters
    [FilterNonzero(Annotation{Key: key})] and
    [FilterEqual("MailboxID", mailboxID)] selects the rows of that scope
    with that entry name. *)
Definition queryKey (mailboxID : Z) (key : string) (a : Annotation) : bool :=
  bool_decide (Key a = key) && bool_decide (MailboxID a = mailboxID).

(** Modelled from the spec: the outcomes of [q.Get], which are the one
    selected row, [bstore.ErrAbsent] when there is none, and another error
    when there are several. *)
Inductive getResult : Type :=
| GetOne (oa : Annotation)
| ErrAbsent
| ErrMultiple.

(** Modelled from the spec: [q.Get] on the rows that the query selects. *)
Definition qGet (sel : Annotation → bool) (tx : Tx) : getResult :=
  match List.filter sel (rows tx) with
  | [] => ErrAbsent
  | [oa] => GetOne oa
  | _ :: _ :: _ => ErrMultiple
  end.

(** Modelled from the spec: [q.Gather(&deleted)] with [q.Delete]; the
    selected rows leave the table and are handed to the caller. *)
Definition qDelete (sel : Annotation → bool) (tx : Tx) : Tx * list Annotation :=
  ({| rows := List.filter (λ a, negb (sel a)) (rows tx); sequence := sequence tx |},
   List.filter sel (rows tx)).

(** Modelled from the spec: [tx.Insert]; the new row gets the next number
    of the sequence as its [ID], and a second row for the same
    (MailboxID, Key) is refused. *)
Definition txInsert (a : Annotation) (tx : Tx) : result (Tx * Annotation) :=
  if existsb (queryKey (MailboxID a) (Key a)) (rows tx)
  then Err (ServerError "not unique")
  else
    let a' := {| ID := sequence tx + 1; MailboxID := MailboxID a; Key := Key a;
                 IsString := IsString a; Value := Value a |} in
    Ok ({| rows := rows tx ++ [a']; sequence := sequence tx + 1 |}, a').

(** Modelled from the spec: [tx.Update]; the row with the [ID] of [oa] is
    replaced by [oa]. *)
Definition txUpdate (oa : Annotation) (tx : Tx) : result Tx :=
  if existsb (λ r, bool_decide (ID r = ID oa)) (rows tx)
  then Ok {| rows := List.map (λ r, if bool_decide (ID r = ID oa) then oa else r) (rows tx);
             sequence := sequence tx |}
  else Err (ServerError "absent").

(** Modelled from the spec: a change record of package [store] names the
    annotation that was created, deleted or modified, scoped by the
    mailbox name (empty for the account-wide scope). *)
Record Change : Type := mkChange {
  changeMailboxID : Z;
  changeMailboxName : string;
  changeKey : string
}.

(** Modelled from the spec: [a.Change(mailboxName)], the change record for
    the annotation [a]. *)
Definition annotationChange (a : Annotation) (mailboxName : string) : Change :=
  {| changeMailboxID := MailboxID a; changeMailboxName := mailboxName;
     changeKey := Key a |}.

(** The state of an account as one session sees it: the committed table,
    the number of write transactions opened so far, and the change
    records published to the other sessions. *)
Record account : Type := mkAccount {
  db : Tx;
  opened : nat;
  published : list Change
}.

(** Modelled from the spec: [c.xdbwrite] runs [fn] in a write transaction
    of the account's store; when [fn] aborts, every mutation staged in the
    transaction is rolled back, otherwise the transaction commits. *)
Definition xdbwrite {A : Type} (fn : Tx → result (Tx * A)) (acc : account)
    : account * result A :=
  match fn (db acc) with
  | Ok (tx', x) =>
      ({| db := tx'; opened := S (opened acc); published := published acc |}, Ok x)
  | Err e =>
      ({| db := db acc; opened := S (opened acc); published := published acc |}, Err e)
  end.

(** Modelled from the spec: [c.broadcast] hands the change records to the
    broadcast channel of the account, from where the other sessions get
    them. *)
Definition broadcast (changes : list Change) (acc : account) : account :=
  {| db := db acc; opened := opened acc; published := published acc ++ changes |}.

(** ** GETMETADATA after parsing *)

(** [cmdGetmetadata] from the read transaction on (lines 91-178), for the
    parsed options, mailbox name and set of entry names.  [xmailbox] is
    the mailbox lookup of the connection, [c.xmailbox(tx, mailboxName,
    "TRYCREATE")]: the ID of the mailbox or an error.  The rows of the
    scope are taken in the order of the table. *)
Definition cmdGetmetadata (xmailbox : string → result Z) (o : getOptions)
    (mailboxName : string) (entryNames : gset string) (tx : Tx)
    : result getResponse :=
  mailboxID ← (if bool_decide (mailboxName = ""%string) then Ok 0
               else xmailbox mailboxName);
  g ← ForEach (getEach o entryNames) (filterMailbox mailboxID (rows tx))
        {| annotations := []; longentries := -1 |};
  Ok (respond mailboxName g).

(** ** SETMETADATA after parsing *)

(** The two limits, package variables that the tests change. *)
Record limits : Type := mkLimits {
  metadataMaxKeys : Z;
  metadataMaxSize : Z
}.

Definition defaultLimits : limits :=
  {| metadataMaxKeys := 1000; metadataMaxSize := 1000 * 1000 |}.

(** Go's [int] on a 64-bit platform: addition wraps around. *)
Definition maxInt : Z := 2 ^ 63 - 1.

Definition wrapInt (x : Z) : Z := (x + 2 ^ 63) mod 2 ^ 64 - 2 ^ 63.

Definition intAdd (x y : Z) : Z := wrapInt (x + y).

(** The additional checks on one entry name ([cmdSetmetadata], lines
    216-228). *)
Definition checkEntryName (key : string) : result unit :=
  _ ← (if negb (HasPrefix key "/private/")
       then xuserErrorf "only /private/* entry names allowed"
       else Ok ());
  if bool_decide (key = "/private/vendor"%string) || HasPrefix key "/private/vendor/"
  then
    rest ← sliceFrom key 1;
    let t := SplitN rest "/" 4 in
    if (length t <? 4)%nat
    then xuserErrorf "entry names starting with /private/vendor must have at least 4 components"
    else Ok ()
  else Ok ().

Fixpoint checkEntryNames (l : list Annotation) : result unit :=
  match l with
  | [] => Ok ()
  | a :: rest => _ ← checkEntryName (Key a); checkEntryNames rest
  end.

(** Has the value of a stored annotation [oa] been changed by [a]? *)
Definition differs (oa a : Annotation) : bool :=
  negb (Bool.eqb (IsString oa) (IsString a))
  || negb (Bool.eqb (isNil (Value oa)) (isNil (Value a)))
  || negb (bytesEqual (valueBytes (Value oa)) (valueBytes (Value a))).

(** The body of the loop over the pairs of the command (lines 242-273):
    remove, insert or update one annotation and note the change. *)
Definition setEach (mailboxID : Z) (mailboxName : string)
    (st : Tx * list Change) (a : Annotation) : result (Tx * list Change) :=
  let '(tx, changes) := st in
  let q := queryKey mailboxID (Key a) in
  if isNil (Value a) then
    let '(tx', deleted) := qDelete q tx in
    Ok (tx', changes ++ List.map (λ oa, annotationChange oa mailboxName) deleted)
  else
    let a := {| ID := ID a; MailboxID := mailboxID; Key := Key a;
                IsString := IsString a; Value := Value a |} in
    match qGet q tx with
    | ErrAbsent =>
        match txInsert a tx with
        | Err _ => xcheckf "inserting annotation"
        | Ok (tx', a') => Ok (tx', changes ++ [annotationChange a' mailboxName])
        end
    | ErrMultiple => xcheckf "looking up existing annotation for entry name"
    | GetOne oa =>
        let changes' :=
          if differs oa a then changes ++ [annotationChange a mailboxName]
          else changes in
        let oa' := {| ID := ID oa; MailboxID := MailboxID oa; Key := Key oa;
                      IsString := IsString oa; Value := Value a |} in
        match txUpdate oa' tx with
        | Err _ => xcheckf "updating metadata annotation"
        | Ok tx' => Ok (tx', changes')
        end
    end.

Fixpoint setAll (mailboxID : Z) (mailboxName : string)
    (l : list Annotation) (st : Tx * list Change) : result (Tx * list Change) :=
  match l with
  | [] => Ok st
  | a :: rest =>
      st' ← setEach mailboxID mailboxName st a;
      setAll mailboxID mailboxName rest st'
  end.

(** The callback of the scan that checks the total size (lines 280-293):
    [n] counts the rows, [size] adds up the lengths of keys and values. *)
Definition quotaEach (lim : limits) (st : Z * Z) (a : Annotation) : result (Z * Z) :=
  let '(n, size) := st in
  let n := intAdd n 1 in
  if metadataMaxKeys lim <? n
  then xusercodeErrorf "METADATA TOOMANY"
         "too many metadata entries, 1000 allowed in total"
  else
    let size := intAdd size (intAdd (Z.of_nat (len (Key a)))
                                    (Z.of_nat (lenValue (Value a)))) in
    if metadataMaxSize lim <? size
    then xusercodeErrorf ("METADATA MAXSIZE " +:+ pretty (metadataMaxSize lim))
           "metadata entry values too large, total maximum size is 1MB"
    else Ok (n, size).

(** The scan itself: a query without any filter, over every row of the
    table. *)
Definition quotaCheck (lim : limits) (tx : Tx) : result (Z * Z) :=
  ForEach (quotaEach lim) (rows tx) (0, 0).

(** What runs inside the write transaction (lines 235-295): the mailbox
    lookup, the pairs, the quota check. *)
Definition setInTx (lim : limits) (xmailbox : string → result Z)
    (mailboxName : string) (l : list Annotation) (tx : Tx)
    : result (Tx * list Change) :=
  mailboxID ← (if bool_decide (mailboxName = ""%string) then Ok 0
               else xmailbox mailboxName);
  '(tx', changes) ← setAll mailboxID mailboxName l (tx, []);
  _ ← quotaCheck lim tx';
  Ok (tx', changes).

(** [cmdSetmetadata] after parsing (lines 211-300), on the mailbox name
    and the list of pairs [l]: the checks on the names, then the write
    transaction under the write lock, then the broadcast and the tagged
    OK. *)
Definition cmdSetmetadata (lim : limits) (xmailbox : string → result Z)
    (mailboxName : string) (l : list Annotation) (acc : account)
    : account * result unit :=
  match checkEntryNames l with
  | Err e => (acc, Err e)
  | Ok _ =>
      match xdbwrite (setInTx lim xmailbox mailboxName l) acc with
      | (acc', Err e) => (acc', Err e)
      | (acc', Ok changes) => (broadcast changes acc', Ok ())
      end
  end.

(** ** The options of GETMETADATA *)

(** Modelled from the spec: the parser of the line-oriented protocol
    reader, an external collaborator; it holds the rest of the command
    line. *)
Definition parser : Type := string.

(** Modelled from the spec: keywords are matched without regard to case;
    the parser compares against the line with the letters a-z in upper
    case. *)
Definition upperChar (c : ascii) : ascii :=
  let n := nat_of_ascii c in
  if ((97 <=? n) && (n <=? 122))%nat then ascii_of_nat (n - 32) else c.

Fixpoint toUpper (s : string) : string :=
  match s with
  | EmptyString => EmptyString
  | String c s' => String (upperChar c) (toUpper s')
  end.

(** Modelled from the spec: [p.take(s)] consumes the keyword [s] when the
    rest of the line starts with it and says whether it did. *)
Definition take (s : string) (p : parser) : option parser :=
  if HasPrefix (toUpper p) s then Some (strDrop (len s) p) else None.

(** Modelled from the spec: [p.xtake(s)] is [take] that fails with a
    syntax error instead of returning false. *)
Definition xtake (s : string) (p : parser) : result parser :=
  match take s p with
  | Some p' => Ok p'
  | None => xerrorf ("expected " +:+ s)
  end.

(** Modelled from the spec: [p.xspace()] wants a single space. *)
Definition xspace (p : parser) : result parser := xtake " " p.

(** Modelled from the spec: the run of decimal digits at the start of the
    rest of the line, and its value. *)
Definition isDigit (c : ascii) : bool :=
  let n := nat_of_ascii c in ((48 <=? n) && (n <=? 57))%nat.

Fixpoint digits (p : parser) : string * parser :=
  match p with
  | String c p' =>
      if isDigit c then let '(d, r) := digits p' in (String c d, r)
      else (EmptyString, p)
  | EmptyString => (EmptyString, p)
  end.

Fixpoint parseUint (acc : Z) (s : string) : Z :=
  match s with
  | EmptyString => acc
  | String c s' => parseUint (10 * acc + Z.of_nat (nat_of_ascii c - 48)) s'
  end.

(** Modelled from the spec: [p.xnumber()] reads a non-empty run of decimal
    digits as an unsigned 32-bit number. *)
Definition xnumber (p : parser) : result (Z * parser) :=
  let '(d, p') := digits p in
  if bool_decide (d = ""%string) then xerrorf "expected number"
  else
    let v := parseUint 0 d in
    if 2 ^ 32 <=? v then xerrorf "parsing number" else Ok (v, p').

(** Modelled from the spec: [p.xtakelist(l...)] consumes the first of its
    words that fits and returns it; when none fits it fails with a syntax
    error. *)
Fixpoint xtakelist (l : list string) (p : parser) : result (string * parser) :=
  match l with
  | [] => xerrorf "expected one of the words"
  | s :: rest =>
      match take s p with
      | Some p' => Ok (s, p')
      | None => xtakelist rest p
      end
  end.

(** One option of the list ([cmdGetmetadata], lines 41-60): the body of
    the loop up to the test for the closing parenthesis. *)
Definition getOption (o : getOptions) (p : parser) : result (getOptions * parser) :=
  match take "MAXSIZE" p with
  | Some p =>
      p ← xspace p;
      '(v, p) ← xnumber p;
      if 0 <=? optMaxSize o
      then xerrorf "only a single maxsize option accepted"
      else Ok ({| optMaxSize := v; optDepth := optDepth o |}, p)
  | None =>
      match take "DEPTH" p with
      | Some p =>
          p ← xspace p;
          '(s, p) ← xtakelist ["0"; "1"; "INFINITY"]%string p;
          if negb (bool_decide (optDepth o = ""%string))
          then xerrorf "only single depth option accepted"
          else Ok ({| optMaxSize := optMaxSize o; optDepth := s |}, p)
      | None =>
          xerrorf "unknown option for getmetadata, expected maxsize or depth"
      end
  end.

(** The loop over the options (lines 40-66); every round consumes input, so the length
    of the input bounds the number of rounds ([None]: out of fuel). *)
Fixpoint optionLoop (fuel : nat) (o : getOptions) (p : parser)
    : option (result (getOptions * parser)) :=
  match fuel with
  | O => None
  | S fuel' =>
      match getOption o p with
      | Err e => Some (Err e)
      | Ok (o', p') =>
          match take ")" p' with
          | Some p'' => Some (Ok (o', p''))
          | None =>
              match xspace p' with
              | Err e => Some (Err e)
              | Ok p'' => optionLoop fuel' o' p''
              end
          end
      end
  end.

(** The start of [cmdGetmetadata] (lines 36-68): the space after the
    command name and the optional list of options with the space that
    follows it. *)
Definition xgetmetadataOptions (p : parser) : result (getOptions * parser) :=
  p ← xspace p;
  match take "(" p with
  | Some p =>
      match optionLoop (S (len p)) noOptions p with
      | None => Err (RuntimePanic "out of fuel")
      | Some r => '(o, p) ← r; p ← xspace p; Ok (o, p)
      end
  | None => Ok (noOptions, p)
  end.

(** The keyword that the loop finds at [p]. *)
Inductive keyword : Type := KMaxsize | KDepth.

Definition keywordAt (p : parser) : option keyword :=
  match take "MAXSIZE" p with
  | Some _ => Some KMaxsize
  | None => match take "DEPTH" p with
            | Some _ => Some KDepth
            | None => None
            end
  end.

(** A round of the loop that does not end it: one option accepted, no
    closing parenthesis, a space; the result is the keyword of the option
    and the state in which the next round starts. *)
Definition oneRound (o : getOptions) (p : parser)
    : option (keyword * getOptions * parser) :=
  match keywordAt p, getOption o p with
  | Some k, Ok (o', p1) =>
      match take ")" p1 with
      | Some _ => None
      | None => match xspace p1 with
                | Ok p' => Some (k, o', p')
                | Err _ => None
                end
      end
  | _, _ => None
  end.

(** The first [n] rounds of the loop from [(o, p)]: the keywords they
    accepted and the state before round [n + 1]. *)
Fixpoint roundsOf (n : nat) (o : getOptions) (p : parser)
    : option (list keyword * getOptions * parser) :=
  match n with
  | O => Some ([], o, p)
  | S n' =>
      match oneRound o p with
      | Some (k, o1, p1) =>
          match roundsOf n' o1 p1 with
          | Some (ks, o2, p2) => Some (k :: ks, o2, p2)
          | None => None
          end
      | None => None
      end
  end.

(** ** Notions used to state the properties *)

(** The number of occurrences of the character [c] in [s]. *)
Fixpoint countChar (c : ascii) (s : string) : nat :=
  match s with
  | EmptyString => O
  | String d s' => (if bool_decide (d = c) then 1 else 0)%nat + countChar c s'
  end.

Definition slash : ascii := "/"%char.

(** The depth values that the parser lets through. *)
Definition validDepth (depth : string) : bool :=
  bool_decide (depth = ""%string) || bool_decide (depth = "0"%string)
  || bool_decide (depth = "1"%string) || bool_decide (depth = "INFINITY"%string).

(** The verdict of the matcher on a stored annotation, with an aborted
    scan counted as no match. *)
Definition matched (depth : string) (entryNames : gset string) (a : Annotation) : bool :=
  match depthMatch depth entryNames (Key a) with
  | Ok b => b
  | Err _ => false
  end.

(** Is the value of [a] longer than MAXSIZE allows? *)
Definition tooLong (maxSize : Z) (a : Annotation) : bool :=
  maxSize <? Z.of_nat (lenValue (Value a)).

(** The bytes that one annotation and a whole table count for. *)
Definition rowSize (a : Annotation) : Z :=
  Z.of_nat (len (Key a)) + Z.of_nat (lenValue (Value a)).

Fixpoint totalSize (l : list Annotation) : Z :=
  match l with
  | [] => 0
  | a :: rest => rowSize a + totalSize rest
  end.

(** Limits that make sense: neither is negative. *)
Definition saneLimits (lim : limits) : bool :=
  (0 <=? metadataMaxKeys lim) && (0 <=? metadataMaxSize lim).

(** The counters of the scan stay within Go's [int] on this table. *)
Definition fitsInt (l : list Annotation) : bool :=
  (Z.of_nat (length l) <=? maxInt) && (totalSize l <=? maxInt).

(** A table exceeds the quota when it has more rows than
    [metadataMaxKeys] or more bytes than [metadataMaxSize]. *)
Definition overQuota (lim : limits) (l : list Annotation) : bool :=
  (metadataMaxKeys lim <? Z.of_nat (length l)) || (metadataMaxSize lim <? totalSize l).

(** The two quota errors of the scan. *)
Definition tooMany : result (Z * Z) :=
  xusercodeErrorf "METADATA TOOMANY" "too many metadata entries, 1000 allowed in total".

Definition tooLarge (lim : limits) : result (Z * Z) :=
  xusercodeErrorf ("METADATA MAXSIZE " +:+ pretty (metadataMaxSize lim))
    "metadata entry values too large, total maximum size is 1MB".

(** The stored row for a scope and an entry name, if any. *)
Definition lookupRow (mailboxID : Z) (key : string) (tx : Tx) : option Annotation :=
  List.find (queryKey mailboxID key) (rows tx).

(** The invariants of the table: primary keys are unique and were handed
    out by the sequence, and no two rows share (MailboxID, Key). *)
Fixpoint pairwiseDistinct (same : Annotation → Annotation → bool)
    (l : list Annotation) : bool :=
  match l with
  | [] => true
  | a :: rest => negb (existsb (same a) rest) && pairwiseDistinct same rest
  end.

Definition sameID (a r : Annotation) : bool := bool_decide (ID r = ID a).

Definition sameKey (a r : Annotation) : bool := queryKey (MailboxID a) (Key a) r.

Definition wfTx (tx : Tx) : bool :=
  pairwiseDistinct sameID (rows tx) && pairwiseDistinct sameKey (rows tx)
  && forallb (λ a, ID a <=? sequence tx) (rows tx).

(** The annotation that the loop inserts for the pair [a]: the pair with
    the mailbox set and a fresh [ID]. *)
Definition inserted (mailboxID : Z) (tx : Tx) (a : Annotation) : Annotation :=
  {| ID := sequence tx + 1; MailboxID := mailboxID; Key := Key a;
     IsString := IsString a; Value := Value a |}.

(** The stored row [oa] with the value of the pair [a]. *)
Definition updated (oa a : Annotation) : Annotation :=
  {| ID := ID oa; MailboxID := MailboxID oa; Key := Key oa;
     IsString := IsString oa; Value := Value a |}.

(** The mailbox ID that the name of a command stands for. *)
Definition resolve (xmailbox : string → result Z) (mailboxName : string) : result Z :=
  if bool_decide (mailboxName = ""%string) then Ok 0 else xmailbox mailboxName.

(** The argument of an option as the client wrote it: the characters up to
    the next space or closing parenthesis. *)
Definition isDelimiter (c : ascii) : bool :=
  bool_decide (c = " "%char) || bool_decide (c = ")"%char).

Fixpoint argToken (p : parser) : string :=
  match p with
  | EmptyString => EmptyString
  | String c p' => if isDelimiter c then EmptyString else String c (argToken p')
  end.

(** The argument of the DEPTH option that stands at [p], if the keyword
    and the space are there. *)
Definition depthArgument (p : parser) : option string :=
  match take "DEPTH" p with
  | Some p1 => match take " " p1 with
               | Some p2 => Some (toUpper (argToken p2))
               | None => None
               end
  | None => None
  end.

(** Every entry name of the table passes the checks on entry names. *)
Definition namesChecked (l : list Annotation) : bool :=
  forallb (λ a, isOk (checkEntryName (Key a))) l.


(** ** DNS TXT record values *)

(** The double quote. *)
Definition dquote : string := String "034"%char EmptyString.

(** The loop of [TXTStrings]: while [s] is not empty, its first 255 bytes
    (or all of it) go to the result [r] in quotes, after a space unless
    they are the first; every round takes at least one byte off [s], so
    that the length of [s] bounds the number of rounds. *)
Fixpoint txtLoop (fuel : nat) (s r : string) : string :=
  match fuel with
  | O => r
  | S fuel' =>
      if (0 <? len s)%nat then
        let n := len s in
        let n := if (255 <? n)%nat then 255%nat else n in
        let r := if negb (bool_decide (r = ""%string)) then (r +:+ " ")%string else r in
        let r := (r +:+ dquote +:+ strTake n s +:+ dquote)%string in
        txtLoop fuel' (strDrop n s) r
      else r
  end.

(** [TXTStrings] returns a TXT record value as one or more quoted strings
    of at most 255 bytes. *)
Definition TXTStrings (s : string) : string := txtLoop (len s) s "".

(** The pieces of at most [n] bytes that a string is cut into, in order. *)
Fixpoint pieces (fuel n : nat) (s : string) : list string :=
  match fuel with
  | O => []
  | S fuel' =>
      match s with
      | EmptyString => []
      | String _ _ => strTake n s :: pieces fuel' n (strDrop n s)
      end
  end.

(** A piece in quotes. *)
Definition quoted (c : string) : string := (dquote +:+ c +:+ dquote)%string.

(** ** Importing messages: flags

    The readers of file [store/import.go] set the flags of an imported
    message from the keywords of an mbox header, or from the name of a
    maildir file and the dovecot keywords of the maildir. *)

(** Modelled from the spec: type [Flags] of package [store] is declared in
    another file of the package; these are the fields that the readers
    assign, all false in the zero value. *)
Record Flags : Type := mkFlags {
  Seen : bool;
  Answered : bool;
  Flagged : bool;
  Forwarded : bool;
  Junk : bool;
  Notjunk : bool;
  Deleted : bool;
  Draft : bool;
  Phishing : bool;
  MDNSent : bool
}.

(** [Flags{}] *)
Definition noFlags : Flags :=
  mkFlags false false false false false false false false false false.

(** The assignments [flags.X = true]. *)
Definition setSeen (f : Flags) : Flags :=
  mkFlags true (Answered f) (Flagged f) (Forwarded f) (Junk f) (Notjunk f)
          (Deleted f) (Draft f) (Phishing f) (MDNSent f).
Definition setAnswered (f : Flags) : Flags :=
  mkFlags (Seen f) true (Flagged f) (Forwarded f) (Junk f) (Notjunk f)
          (Deleted f) (Draft f) (Phishing f) (MDNSent f).
Definition setFlagged (f : Flags) : Flags :=
  mkFlags (Seen f) (Answered f) true (Forwarded f) (Junk f) (Notjunk f)
          (Deleted f) (Draft f) (Phishing f) (MDNSent f).
Definition setForwarded (f : Flags) : Flags :=
  mkFlags (Seen f) (Answered f) (Flagged f) true (Junk f) (Notjunk f)
          (Deleted f) (Draft f) (Phishing f) (MDNSent f).
Definition setJunk (f : Flags) : Flags :=
  mkFlags (Seen f) (Answered f) (Flagged f) (Forwarded f) true (Notjunk f)
          (Deleted f) (Draft f) (Phishing f) (MDNSent f).
Definition setNotjunk (f : Flags) : Flags :=
  mkFlags (Seen f) (Answered f) (Flagged f) (Forwarded f) (Junk f) true
          (Deleted f) (Draft f) (Phishing f) (MDNSent f).
Definition setDeleted (f : Flags) : Flags :=
  mkFlags (Seen f) (Answered f) (Flagged f) (Forwarded f) (Junk f) (Notjunk f)
          true (Draft f) (Phishing f) (MDNSent f).
Definition setDraft (f : Flags) : Flags :=
  mkFlags (Seen f) (Answered f) (Flagged f) (Forwarded f) (Junk f) (Notjunk f)
          (Deleted f) true (Phishing f) (MDNSent f).
Definition setPhishing (f : Flags) : Flags :=
  mkFlags (Seen f) (Answered f) (Flagged f) (Forwarded f) (Junk f) (Notjunk f)
          (Deleted f) (Draft f) true (MDNSent f).
Definition setMDNSent (f : Flags) : Flags :=
  mkFlags (Seen f) (Answered f) (Flagged f) (Forwarded f) (Junk f) (Notjunk f)
          (Deleted f) (Draft f) (Phishing f) true.

(** A [case] of a switch on a string: the word is one of the listed. *)
Definition oneOf (word : string) (l : list string) : bool :=
  existsb (λ w, bool_decide (word = w)) l.

(** [flagSet]: the flag that a keyword of the [X-Keywords] header of an
    mbox message stands for is set; any other word changes nothing. *)
Definition flagSet (flags : Flags) (word : string) : Flags :=
  if oneOf word ["forwarded"; "$forwarded"] then setForwarded flags
  else if oneOf word ["junk"; "$junk"] then setJunk flags
  else if oneOf word ["notjunk"; "$notjunk"; "nonjunk"; "$nonjunk"] then setNotjunk flags
  else if oneOf word ["phishing"; "$phishing"] then setPhishing flags
  else if oneOf word ["mdnsent"; "$mdnsent"] then setMDNSent flags
  else flags.

(** ** The dovecot keywords of a maildir *)

(** All characters are decimal digits. *)
Fixpoint allDigits (s : string) : bool :=
  match s with
  | EmptyString => true
  | String c s' => isDigit c && allDigits s'
  end.

(** [strconv.ParseInt(s, 10, bitSize)]: an optional sign and a run of
    decimal digits that is not empty; [None] is any error, among them a
    value that does not fit a signed integer of [bitSize] bits. *)
Definition ParseInt (s : string) (bitSize : Z) : option Z :=
  match s with
  | EmptyString => None
  | String c s' =>
      let neg := bool_decide (c = "-"%char) in
      let d := if bool_decide (c = "+"%char) || neg then s' else s in
      if bool_decide (d = ""%string) || negb (allDigits d) then None
      else
        let un := parseUint 0 d in
        let cutoff := 2 ^ (bitSize - 1) in
        if negb neg && (cutoff <=? un) then None
        else if neg && (cutoff <? un) then None
        else Some (if neg then - un else un)
  end.

(** The complaints about a dovecot keywords file, each with the line it is
    about; the last one is about reading the file. *)
Inductive keywordError : Type :=
  | UnexpectedLine (s : string)
  | UnexpectedIndex (s : string)
  | IndexTooBig (s : string)
  | DuplicateKeyword (s : string)
  | ReadingFile (e : string).

(** The state of the loop of [ParseDovecotKeywords]: the 26 slots, the
    end of the part in use, and the complaints so far. *)
Record keywordState : Type := mkKeywordState {
  keywords : list string;
  kwEnd : nat;
  errs : list keywordError
}.

Definition complain (st : keywordState) (e : keywordError) : keywordState :=
  mkKeywordState (keywords st) (kwEnd st) (errs st ++ [e]).

(** One round of the loop, for the line [s] that the scanner returns. *)
Definition keywordLine (st : keywordState) (s : string) : keywordState :=
  let t := SplitN s " " 2 in
  if negb (length t =? 2)%nat then complain st (UnexpectedLine s)
  else
    match ParseInt (nth 0 t ""%string) 32 with
    | None => complain st (UnexpectedIndex s)
    | Some v =>
        if (v <? 0) || (Z.of_nat (length (keywords st)) <=? v) then
          complain st (IndexTooBig s)
        else
          let index := Z.to_nat v in
          if negb (bool_decide (nth index (keywords st) ""%string = ""%string)) then
            complain st (DuplicateKeyword s)
          else
            mkKeywordState (<[index := nth 1 t ""%string]> (keywords st))
                           (if (kwEnd st <=? index)%nat then (index + 1)%nat else kwEnd st)
                           (errs st)
    end.

(** [ParseDovecotKeywords] on the lines of the file, as the scanner returns
    them, and the error of the scanner if it has one: the keywords up to
    the last index in use, and the complaints if there are any. *)
Definition ParseDovecotKeywords (lines : list string) (scanErr : option string)
  : list string * option (list keywordError) :=
  let st := fold_left keywordLine lines (mkKeywordState (replicate 26 ""%string) 0 []) in
  let all :=
    match scanErr with
    | Some e => errs st ++ [ReadingFile e]
    | None => errs st
    end in
  (firstn (kwEnd st) (keywords st),
   if (0 <? length all)%nat then Some all else None).

(** ** The flags in the name of a maildir file *)

Definition isLower (c : ascii) : bool :=
  let n := nat_of_ascii c in ((97 <=? n) && (n <=? 122))%nat.

(** The switch on a dovecot keyword. *)
Definition keywordSwitch (flags : Flags) (kw : string) : Flags :=
  if oneOf kw ["$Forwarded"; "Forwarded"] then setForwarded flags
  else if oneOf kw ["$Junk"; "Junk"] then setJunk flags
  else if oneOf kw ["$NotJunk"; "NotJunk"; "NonJunk"] then setNotjunk flags
  else if oneOf kw ["$MDNSent"] then setMDNSent flags
  else if oneOf kw ["$Phishing"; "Phishing"] then setPhishing flags
  else flags.

(** The switch on a character of the flags part of the name.  The loop of
    the source goes through the runes of the string; a rune that takes more
    than one byte is none of the cases, and so is each of its bytes. *)
Definition maildirFlag (dovecotKeywords : list string) (flags : Flags) (c : ascii) : Flags :=
  if bool_decide (c = "P"%char) then flags
  else if bool_decide (c = "R"%char) then setAnswered flags
  else if bool_decide (c = "S"%char) then setSeen flags
  else if bool_decide (c = "T"%char) then setDeleted flags
  else if bool_decide (c = "D"%char) then setDraft flags
  else if bool_decide (c = "F"%char) then setFlagged flags
  else if isLower c then
    let index := (nat_of_ascii c - 97)%nat in
    if (length dovecotKeywords <=? index)%nat then flags
    else keywordSwitch flags (nth index dovecotKeywords ""%string)
  else flags.

(** The flags of a message of a maildir, from the base name of its file. *)
Definition maildirFlags (dovecotKeywords : list string) (name : string) : Flags :=
  let t := SplitN name ":2," 2 in
  if (length t =? 2)%nat then
    fold_left (maildirFlag dovecotKeywords) (list_ascii_of_string (nth 1 t ""%string)) noFlags
  else noFlags.

(** ** Line endings of an imported message

    [MaildirReader.Next] copies the file of a message to a temporary file
    and ends every line with CR LF on the way; [MboxReader.Next] does the
    same to the lines of its messages.  The model is the run in which the
    file is read and the temporary file is written without error. *)

Definition CR : ascii := "013"%char.
Definition LF : ascii := "010"%char.
Definition crlf : string := String CR (String LF EmptyString).

(** [bytes.HasSuffix] *)
Definition HasSuffix (s suffix : string) : bool :=
  (len suffix <=? len s)%nat && bool_decide (strDrop (len s - len suffix) s = suffix).

(** [r.ReadBytes('\n')] on what is left of the file: the line up to and
    with the newline, and what is left after it; at the end of the file,
    what there is (possibly nothing) and [io.EOF]. *)
Fixpoint ReadBytes (s : string) : string * string * bool :=
  match s with
  | EmptyString => (EmptyString, EmptyString, true)
  | String c s' =>
      if bool_decide (c = LF) then (String c EmptyString, s', false)
      else let '(line, rest, eof) := ReadBytes s' in (String c line, rest, eof)
  end.

(** A line that does not end in CR LF gets its last byte replaced by CR LF. *)
Definition fixLine (line : string) : string :=
  if negb (HasSuffix line crlf) then (strTake (len line - 1) line +:+ crlf)%string
  else line.

(** The loop that copies the message of a maildir file to the temporary
    file: what is written, and its size, an [int64]. *)
Fixpoint copyLoop (fuel : nat) (s : string) (out : string) (size : Z) : string * Z :=
  match fuel with
  | O => (out, size)
  | S fuel' =>
      let '(line, rest, eof) := ReadBytes s in
      let '(out, size) :=
        if (0 <? len line)%nat then
          let line := fixLine line in
          ((out +:+ line)%string, intAdd size (Z.of_nat (len line)))
        else (out, size) in
      if eof then (out, size) else copyLoop fuel' rest out size
  end.

(** A file of [n] bytes is read in at most [n + 1] rounds. *)
Definition copyMessage (s : string) : string * Z := copyLoop (S (len s)) s "" 0.

(** The dovecot keyword that a character of the flags part stands for: the
    letters a to z index the keywords; the empty string when there is
    none. *)
Definition dovecotKeyword (dovecotKeywords : list string) (c : ascii) : string :=
  if isLower c then nth (nat_of_ascii c - 97) dovecotKeywords ""%string else ""%string.

(** Some character of the string is [c]. *)
Definition hasChar (c : ascii) (s : string) : bool :=
  existsb (λ d, bool_decide (d = c)) (list_ascii_of_string s).

(** Some character of the string stands for a dovecot keyword among [l]. *)
Definition hasKeyword (dovecotKeywords : list string) (l : list string) (s : string) : bool :=
  existsb (λ d, oneOf (dovecotKeyword dovecotKeywords d) l) (list_ascii_of_string s).

(** What a line of the keywords file says: the index, when it is one of the
    26, and the keyword. *)
Definition lineEntry (s : string) : option (nat * string) :=
  match SplitN s " " 2 with
  | [n; kw] =>
      match ParseInt n 32 with
      | Some v => if (0 <=? v) && (v <? 26) then Some (Z.to_nat v, kw) else None
      | None => None
      end
  | _ => None
  end.

(** The line gives a keyword, not the empty one, for index [i]. *)
Definition namesSlot (i : nat) (s : string) : bool :=
  match lineEntry s with
  | Some (j, kw) => bool_decide (j = i) && negb (bool_decide (kw = ""%string))
  | None => false
  end.

(** The state of the loop that the scan of the file starts from: 26 empty
    slots, none in use, no complaint. *)
Definition kwInit : keywordState := mkKeywordState (replicate 26 ""%string) 0 [].

(** The loop keeps 26 slots, and all slots from the end of the part in use
    on are empty. *)
Definition kwInv (st : keywordState) : Prop :=
  length (keywords st) = 26%nat
  ∧ (kwEnd st <= 26)%nat
  ∧ ∀ i, (kwEnd st <= i)%nat → nth i (keywords st) ""%string = ""%string.

(** A newline, as a string. *)
Definition lf : string := String LF EmptyString.

(** The text of a line without its CR, if it ends in one. *)
Definition trimCR (b : string) : string :=
  if HasSuffix b (String CR EmptyString) then strTake (len b - 1) b else b.

(** The lines [bs], each ended by [e]. *)
Definition joinLines (e : string) (bs : list string) : string :=
  String.concat "" (List.map (λ b, b +:+ e)%string bs).


(** ** Reading an mbox file

    [MboxReader.Next] of file [store/import.go] returns the next message
    of an mbox file: the lines up to the next line that starts with
    "From " after an empty line.  The model is the run in which the file
    system works: the temporary file is made and written without error,
    and reading the mbox file ends in nothing but its end. *)

(** The layouts of package [time] that [Next] tries on the "From " line. *)
Definition ANSIC : string := "Mon Jan _2 15:04:05 2006".
Definition UnixDate : string := "Mon Jan _2 15:04:05 MST 2006".
Definition RubyDate : string := "Mon Jan 02 15:04:05 -0700 2006".

(** [bytes.TrimLeft(s, cutset)] for a cutset of ASCII characters. *)
Fixpoint TrimLeft (s cutset : string) : string :=
  match s with
  | EmptyString => EmptyString
  | String c s' => if hasChar c cutset then TrimLeft s' cutset else s
  end.

(** The state of the reader; the functions to make the temporary file and
    to log are left out. *)
Record MboxReader : Type := mkMboxReader {
  path : string;
  line : Z;
  r : string;
  prevempty : bool;
  nonfirst : bool;
  eof : bool;
  fromLine : string;
  header : bool
}.

(** [NewMboxReader] on the name and the content of the file. *)
Definition NewMboxReader (filename : string) (content : string) : MboxReader :=
  mkMboxReader filename 1 content false false false "" false.

(** The assignments to the fields of the reader. *)
Definition setLine (mr : MboxReader) (n : Z) : MboxReader :=
  mkMboxReader (path mr) n (r mr) (prevempty mr) (nonfirst mr) (eof mr)
               (fromLine mr) (header mr).
Definition setR (mr : MboxReader) (s : string) : MboxReader :=
  mkMboxReader (path mr) (line mr) s (prevempty mr) (nonfirst mr) (eof mr)
               (fromLine mr) (header mr).
Definition setPrevempty (mr : MboxReader) (b : bool) : MboxReader :=
  mkMboxReader (path mr) (line mr) (r mr) b (nonfirst mr) (eof mr)
               (fromLine mr) (header mr).
Definition setNonfirst (mr : MboxReader) (b : bool) : MboxReader :=
  mkMboxReader (path mr) (line mr) (r mr) (prevempty mr) b (eof mr)
               (fromLine mr) (header mr).
Definition setEof (mr : MboxReader) (b : bool) : MboxReader :=
  mkMboxReader (path mr) (line mr) (r mr) (prevempty mr) (nonfirst mr) b
               (fromLine mr) (header mr).
Definition setFromLine (mr : MboxReader) (s : string) : MboxReader :=
  mkMboxReader (path mr) (line mr) (r mr) (prevempty mr) (nonfirst mr) (eof mr)
               s (header mr).
Definition setHeader (mr : MboxReader) (b : bool) : MboxReader :=
  mkMboxReader (path mr) (line mr) (r mr) (prevempty mr) (nonfirst mr) (eof mr)
               (fromLine mr) b.

(** [mr.Position()]: the name of the file and the number of the line. *)
Definition Position (mr : MboxReader) : string :=
  (path mr +:+ ":" +:+ pretty (line mr))%string.

(** Modelled from the spec: type [Message] of package [store] is declared
    in another file of the package; these are the fields that the readers
    set, the time of receipt in seconds when there is one. *)
Record Message : Type := mkMessage {
  Received : option Z;
  MsgFlags : Flags;
  Size : Z
}.

(** What [Next] returns: [io.EOF], another error with the position, or a
    message with the content of its temporary file and the position. *)
Inductive nextResult : Type :=
  | NextEOF
  | NextError (position msg : string)
  | NextMessage (m : Message) (content position : string).

(** The letters of a [Status] header. *)
Definition statusFlags (flags : Flags) (s : string) : Flags :=
  fold_left (λ f c, if bool_decide (c = "R"%char) then setSeen f else f)
            (list_ascii_of_string s) flags.

(** The letters of an [X-Status] header. *)
Definition xstatusFlags (flags : Flags) (s : string) : Flags :=
  fold_left (λ f c,
               if bool_decide (c = "A"%char) then setAnswered f
               else if bool_decide (c = "F"%char) then setFlagged f
               else if bool_decide (c = "T"%char) then setDraft f
               else if bool_decide (c = "D"%char) then setDeleted f
               else f)
            (list_ascii_of_string s) flags.

Section mbox.

(** [strings.TrimSpace] and [strings.ToLower] go by the tables of Unicode
    and [time.Parse] by the layouts of package [time]; the reader is
    modelled for any functions in their place. *)
Variable TrimSpace : string → string.
Variable ToLower : string → string.
Variable timeParse : string → string → option Z.

(** The words of an [X-Keywords] header. *)
Definition keywordsFlags (flags : Flags) (s : string) : Flags :=
  fold_left (λ f t, flagSet f (ToLower (TrimSpace t))) (SplitN s "," (-1)) flags.

(** The flags of a line of the header. *)
Definition headerFlags (flags : Flags) (line : string) : Flags :=
  if HasPrefix line "Status:" then
    statusFlags flags (TrimSpace (nth 1 (SplitN line ":" 2) ""%string))
  else if HasPrefix line "X-Status:" then
    xstatusFlags flags (TrimSpace (nth 1 (SplitN line ":" 2) ""%string))
  else if HasPrefix line "X-Keywords:" then
    keywordsFlags flags (TrimSpace (nth 1 (SplitN line ":" 2) ""%string))
  else flags.

(** The loop of [Next] over the lines of the message, with the flags, the
    size and the content of the temporary file so far; [ln] is the line
    read, which the source calls [line] as it does the counter of the
    reader. *)
Fixpoint nextLoop (fuel : nat) (mr : MboxReader) (flags : Flags) (size : Z) (out : string)
  : MboxReader * Flags * Z * string :=
  match fuel with
  | O => (mr, flags, size, out)
  | S fuel' =>
      let '(ln, rest, err) := ReadBytes (r mr) in
      let mr := setR mr rest in
      if (0 <? len ln)%nat then
        let mr := setLine mr (intAdd (line mr) 1) in
        let ln := fixLine ln in
        let flags := if header mr then headerFlags flags ln else flags in
        let mr := if bool_decide (ln = crlf) then setHeader mr false else mr in
        if prevempty mr && HasPrefix ln "From " then
          (setHeader (setFromLine mr (TrimSpace ln)) true, flags, size, out)
        else
          let ln :=
            if HasPrefix ln ">" && HasPrefix (TrimLeft ln ">") "From "
            then strDrop 1 ln else ln in
          let out := (out +:+ ln)%string in
          let size := intAdd size (Z.of_nat (len ln)) in
          let mr := setPrevempty mr (bool_decide (ln = crlf)) in
          if err then (setEof mr true, flags, size, out)
          else nextLoop fuel' mr flags size out
      else
        if err then (setEof mr true, flags, size, out)
        else nextLoop fuel' mr flags size out
  end.

(** The time in the "From " line, by the first layout that fits. *)
Definition receivedTime (fromLine : string) : option Z :=
  let t := SplitN fromLine " " 3 in
  if (length t =? 3)%nat then
    match timeParse ANSIC (nth 2 t ""%string) with
    | Some v => Some v
    | None =>
        match timeParse UnixDate (nth 2 t ""%string) with
        | Some v => Some v
        | None => timeParse RubyDate (nth 2 t ""%string)
        end
    end
  else None.

(** [Next] *)
Definition Next (mr : MboxReader) : MboxReader * nextResult :=
  if eof mr then (mr, NextEOF)
  else
    let first : MboxReader + MboxReader * nextResult :=
      if negb (nonfirst mr) then
        let mr := setHeader mr true in
        let '(ln, rest, err) := ReadBytes (r mr) in
        let mr := setR mr rest in
        if err then inr (mr, NextEOF)
        else
          let mr := setLine mr (intAdd (line mr) 1) in
          if negb (HasPrefix ln "From ") then
            inr (mr, NextError (Position mr)
                       ("first line does not start with " +:+ dquote +:+ "From " +:+ dquote))
          else inl (setFromLine (setNonfirst mr true) (TrimSpace ln))
      else inl mr in
    match first with
    | inr x => x
    | inl mr =>
        let fromLine := fromLine mr in
        let '(mr, flags, size, out) := nextLoop (S (len (r mr))) mr noFlags 0 "" in
        (mr, NextMessage (mkMessage (receivedTime fromLine) flags size) out (Position mr))
    end.

End mbox.

(** A line of an mbox file without the ">" that it got in front of its
    "From ". *)
Definition unquoteFrom (b : string) : string :=
  if HasPrefix b ">" && HasPrefix (TrimLeft b ">") "From " then strDrop 1 b else b.

(** The line is empty, but for its line ending. *)
Definition blankLine (l : string) : bool := bool_decide (trimCR l = ""%string).

(** After the lines [ls] of a message: whether the last line was empty,
    whether the header goes on, and the flags that the lines of the header
    have set. *)
Definition prevemptyAfter (p : bool) (ls : list string) : bool :=
  fold_left (λ _ l, blankLine l) ls p.

Definition headerAfter (h : bool) (ls : list string) : bool :=
  fold_left (λ h l, h && negb (blankLine l)) ls h.

Fixpoint flagsAfter (TrimSpace ToLower : string → string) (h : bool) (flags : Flags)
    (ls : list string) : Flags :=
  match ls with
  | [] => flags
  | l :: ls' =>
      flagsAfter TrimSpace ToLower (h && negb (blankLine l))
        (if h then headerFlags TrimSpace ToLower flags (trimCR l +:+ crlf) else flags) ls'
  end.

(** The lines of the header of a message: those before the first empty
    line. *)
Fixpoint headerLines (ls : list string) : list string :=
  match ls with
  | [] => []
  | l :: ls' => if blankLine l then [] else l :: headerLines ls'
  end.


(** ** The messages of a maildir

    [MaildirReader.Next] of file [store/import.go] returns the next
    message of a maildir: the files of the directory [new], then those of
    the directory [cur].  The model is the run in which the directories
    are read and the temporary file is made and written without error; a
    message file that cannot be opened is part of the model. *)

(** An open directory: its name and the entries that have not been read
    from it. *)
Record dirFile : Type := mkDirFile {
  Name : string;
  unread : list string
}.

(** [d.ReadDir(n)] for a positive [n]: at most [n] of the entries that have
    not been read, which are read by this. *)
Definition ReadDir (n : nat) (d : dirFile) : list string * dirFile :=
  (firstn n (unread d), mkDirFile (Name d) (skipn n (unread d))).

(** Which of the two directories of the reader [mr.f] is: the reader holds
    [newf] and [curf], and [f] is one of the two. *)
Inductive whichFile : Type := NewFile | CurFile.

(** The state of the reader; the functions to make the temporary file and
    to log are left out. *)
Record MaildirReader : Type := mkMaildirReader {
  newf : dirFile;
  curf : dirFile;
  f : whichFile;
  dir : string;
  entries : list string;
  dovecotKeywords : list string
}.

(** What [Next] returns: [io.EOF], the error of a file that cannot be
    opened with the path of the file, or a message with the content of its
    temporary file and the path of its file. *)
Inductive maildirResult : Type :=
  | MaildirEOF
  | MaildirError (p : string)
  | MaildirMessage (m : Message) (content p : string).

(** The directory that [mr.f] is. *)
Definition currentFile (mr : MaildirReader) : dirFile :=
  match f mr with NewFile => newf mr | CurFile => curf mr end.

(** The assignments to the fields of the reader, and a read from the
    directory that [mr.f] is. *)
Definition setDir (mr : MaildirReader) (s : string) : MaildirReader :=
  mkMaildirReader (newf mr) (curf mr) (f mr) s (entries mr) (dovecotKeywords mr).
Definition setEntries (mr : MaildirReader) (l : list string) : MaildirReader :=
  mkMaildirReader (newf mr) (curf mr) (f mr) (dir mr) l (dovecotKeywords mr).
Definition setF (mr : MaildirReader) (w : whichFile) : MaildirReader :=
  mkMaildirReader (newf mr) (curf mr) w (dir mr) (entries mr) (dovecotKeywords mr).
Definition setCurrentFile (mr : MaildirReader) (d : dirFile) : MaildirReader :=
  match f mr with
  | NewFile => mkMaildirReader d (curf mr) (f mr) (dir mr) (entries mr) (dovecotKeywords mr)
  | CurFile => mkMaildirReader (newf mr) d (f mr) (dir mr) (entries mr) (dovecotKeywords mr)
  end.

Section maildir.

(** [filepath.Join] and [filepath.Base] go by the rules of the operating
    system for paths, and [os.Open] by its files: the reader is modelled
    for any functions in their place; [open] gives the content of the file
    at a path, or nothing when the file cannot be opened. *)
Variable Join : string → string → string.
Variable Base : string → string.
Variable open : string → option string.

(** The second part of [Next]: the message of the first of the entries. *)
Definition nextEntry (mr : MaildirReader) : MaildirReader * maildirResult :=
  let p := Join (dir mr) (nth 0 (entries mr) ""%string) in
  let mr := setEntries mr (skipn 1 (entries mr)) in
  match open p with
  | None => (mr, MaildirError p)
  | Some content =>
      let '(out, size) := copyMessage content in
      let received := ParseInt (nth 0 (SplitN (Base p) "." 2) ""%string) 64 in
      let flags := maildirFlags (dovecotKeywords mr) (Base p) in
      (mr, MaildirMessage (mkMessage received flags size) out p)
  end.

(** [Next]; it calls itself once the directory [new] has no more entries,
    to go on with [cur]. *)
Fixpoint maildirNext (fuel : nat) (mr : MaildirReader) : MaildirReader * maildirResult :=
  match fuel with
  | O => (mr, MaildirEOF)
  | S fuel' =>
      let mr := if bool_decide (dir mr = ""%string) then setDir mr (Name (currentFile mr))
                else mr in
      if (length (entries mr) =? 0)%nat then
        let '(es, d) := ReadDir 100 (currentFile mr) in
        let mr := setEntries (setCurrentFile mr d) es in
        if (length (entries mr) =? 0)%nat then
          match f mr with
          | CurFile => (mr, MaildirEOF)
          | NewFile => maildirNext fuel' (setDir (setF mr CurFile) "")
          end
        else nextEntry mr
      else nextEntry mr
  end.

(** The second call of [Next] by itself is in [cur] and makes no third. *)
Definition MaildirNext (mr : MaildirReader) : MaildirReader * maildirResult :=
  maildirNext 2 mr.

(** The results of [n] calls of [Next], one after the other. *)
Fixpoint maildirNexts (n : nat) (mr : MaildirReader) : list maildirResult :=
  match n with
  | O => []
  | S n' => let '(mr', res) := MaildirNext mr in res :: maildirNexts n' mr'
  end.

(** What [Next] returns for the file [name] of the directory [d]. *)
Definition fileResult (kws : list string) (d name : string) : maildirResult :=
  let p := Join d name in
  match open p with
  | None => MaildirError p
  | Some content =>
      MaildirMessage
        (mkMessage (ParseInt (nth 0 (SplitN (Base p) "." 2) ""%string) 64)
                   (maildirFlags kws (Base p)) (copyMessage content).2)
        (copyMessage content).1 p
  end.

End maildir.

(** [NewMaildirReader] on the two directories and, when the maildir has a
    file [dovecot-keywords] that can be opened, on what the scanner makes
    of it: its keywords are used whether or not the parse has complaints. *)
Definition NewMaildirReader (newf curf : dirFile)
    (kf : option (list string * option string)) : MaildirReader :=
  mkMaildirReader newf curf NewFile "" []
    (match kf with
     | Some (lines, scanErr) => (ParseDovecotKeywords lines scanErr).1
     | None => []
     end).

(** The files that the reader has still to return, each with the name of
    its directory. *)
Definition pending (mr : MaildirReader) : list (string * string) :=
  match f mr with
  | NewFile =>
      List.map (pair (Name (newf mr))) (entries mr ++ unread (newf mr))
      ++ List.map (pair (Name (curf mr))) (unread (curf mr))
  | CurFile => List.map (pair (Name (curf mr))) (entries mr ++ unread (curf mr))
  end.

(** The directory of the entries at hand is the one that [mr.f] is. *)
Definition dirOK (mr : MaildirReader) : Prop :=
  dir mr = ""%string ∨ dir mr = Name (currentFile mr).

(* ===================================================================== *)
(** * Part II: lemmas and theorems                                        *)
(* ===================================================================== *)

(** One step of the error monad past a call that went well. *)
Ltac ok_bind := change (Ok ?b ≫= ?k) with (k b); cbv beta iota.

(** ** Go strings *)

Lemma HasPrefix_app (s prefix : string) :
  HasPrefix s prefix = true ↔ ∃ rest, s = (prefix +:+ rest)%string.
Proof.
  revert s. induction prefix as [|c prefix IH]; intros s; simpl.
  - split; [intros _; by exists s | done].
  - destruct s as [|d s].
    + split; [done | intros [rest H]; discriminate].
    + rewrite andb_true_iff, bool_decide_eq_true, IH.
      split.
      * intros [-> [rest ->]]. by exists rest.
      * intros [rest H]. injection H as -> ->. eauto.
Qed.

Lemma strDrop_app (a b : string) : strDrop (len a) (a +:+ b) = b.
Proof. induction a as [|c a IH]; simpl; auto. Qed.

Lemma len_app (a b : string) : len (a +:+ b) = (len a + len b)%nat.
Proof. induction a as [|c a IH]; simpl; auto. Qed.

Lemma len_strDrop (n : nat) (s : string) : len (strDrop n s) = (len s - n)%nat.
Proof.
  revert s; induction n as [|n IH]; intros [|c s]; simpl; auto.
Qed.

Lemma HasPrefix_drop (s prefix : string) :
  HasPrefix s prefix = true → s = (prefix +:+ strDrop (len prefix) s)%string.
Proof.
  intros [rest ->]%HasPrefix_app. by rewrite strDrop_app.
Qed.

Lemma HasPrefix_len (s prefix : string) :
  HasPrefix s prefix = true → (len prefix <= len s)%nat.
Proof.
  intros [rest ->]%HasPrefix_app. rewrite len_app. lia.
Qed.

Lemma sliceFrom_prefix (s prefix : string) :
  HasPrefix s prefix = true → sliceFrom s (len prefix) = Ok (strDrop (len prefix) s).
Proof.
  intros H%HasPrefix_len. unfold sliceFrom.
  destruct (Nat.leb_spec (len prefix) (len s)); [done | lia].
Qed.

Lemma countChar_app (c : ascii) (a b : string) :
  countChar c (a +:+ b) = (countChar c a + countChar c b)%nat.
Proof. induction a as [|d a IH]; simpl; auto. rewrite IH. lia. Qed.

(** [strings.Index] with the separator "/" finds the first slash. *)
Lemma Index_slash (s : string) :
  match Index s "/" with
  | None => countChar slash s = O
  | Some m => countChar slash s = S (countChar slash (strDrop (m + 1) s))
  end.
Proof.
  unfold slash. induction s as [|c s IH]; simpl; [done|].
  rewrite andb_true_r.
  destruct (bool_decide (c = "/"%char)); simpl; [done|].
  destruct (Index s "/") as [m|]; simpl; exact IH.
Qed.

Lemma splitLoop_length (n : nat) (s : string) :
  length (splitLoop n s "/") = S (Nat.min n (countChar slash s)).
Proof.
  revert s; induction n as [|n IH]; intros s; simpl; [done|].
  pose proof (Index_slash s) as H.
  destruct (Index s "/") as [m|]; simpl.
  - rewrite IH, H. simpl. done.
  - rewrite H. simpl. done.
Qed.

(** [strings.SplitN(s, "/", n)] for a positive [n] gives one piece more
    than there are slashes, but at most [n] pieces. *)
Lemma SplitN_length (s : string) (n : Z) :
  0 < n →
  length (SplitN s "/" n) = Nat.min (Z.to_nat n) (S (countChar slash s)).
Proof.
  intros Hn. unfold SplitN.
  destruct (Z.eqb_spec n 0); [lia|].
  destruct (Z.ltb_spec n 0); [lia|].
  rewrite splitLoop_length. lia.
Qed.

(** ** The hierarchical matcher *)

Lemma entryLoop_infinity (key : string) (names : list string) :
  entryLoop "INFINITY" key names
  = Ok (existsb (λ s, HasPrefix key (entryPrefix s)) names).
Proof.
  induction names as [|s names IH]; simpl; [done|].
  destruct (HasPrefix key (entryPrefix s)); simpl; [done | exact IH].
Qed.

Lemma entryLoop_one (key : string) (names : list string) :
  entryLoop "1" key names
  = Ok (existsb (λ s, HasPrefix key (entryPrefix s)
                      && bool_decide (countChar slash (strDrop (len (entryPrefix s)) key) = O))
          names).
Proof.
  induction names as [|s names IH]; simpl; [done|].
  destruct (HasPrefix key (entryPrefix s)) eqn:Hp; simpl; [|exact IH].
  rewrite (sliceFrom_prefix _ _ Hp). simpl.
  rewrite SplitN_length by lia.
  destruct (countChar slash (strDrop (len (entryPrefix s)) key)) as [|n]; simpl; [done|].
  exact IH.
Qed.

(** The order in which the map of entry names is walked does not matter. *)
Lemma entryLoop_order (depth key : string) (names names' : list string) :
  validDepth depth = true →
  (∀ s, s ∈ names ↔ s ∈ names') →
  entryLoop depth key names = entryLoop depth key names'.
Proof.
  intros Hd Hs.
  assert (∀ f, existsb f names = existsb f names') as Hex.
  { intros f. apply eq_true_iff_eq. rewrite !existsb_exists.
    split; intros (s & Hin & Hf); exists s; split; auto;
      apply list_elem_of_In, Hs, list_elem_of_In, Hin. }
  unfold validDepth in Hd.
  destruct (decide (depth = "INFINITY"%string)) as [->|Hinf].
  { by rewrite !entryLoop_infinity, Hex. }
  assert (∀ l, entryLoop depth key l = entryLoop "1" key l) as H1.
  { induction l as [|s l IH]; simpl; [done|].
    rewrite (bool_decide_eq_false_2 _ Hinf), IH. done. }
  by rewrite (H1 names), (H1 names'), !entryLoop_one, Hex.
Qed.

(** C1: the verdict of the matcher for each depth.  Without DEPTH or with
    depth 0 a stored key matches exactly when it is one of the requested
    entry names; with depth INFINITY also when it starts with the prefix of
    a requested name (the name and a slash, or just the slash for the name
    "/"); with depth 1 also when what follows such a prefix has no further
    slash. *)
Theorem depthMatch_spec (entryNames : gset string) (key : string) :
  depthMatch "" entryNames key = Ok (bool_decide (key ∈ entryNames))
  ∧ depthMatch "0" entryNames key = Ok (bool_decide (key ∈ entryNames))
  ∧ (∃ b, depthMatch "INFINITY" entryNames key = Ok b
          ∧ (b = true ↔
             key ∈ entryNames
             ∨ ∃ e rest, e ∈ entryNames
                 ∧ key = ((if bool_decide (e = "/"%string) then "/" else e +:+ "/") +:+ rest)%string))
  ∧ (∃ b, depthMatch "1" entryNames key = Ok b
          ∧ (b = true ↔
             key ∈ entryNames
             ∨ ∃ e rest, e ∈ entryNames
                 ∧ key = ((if bool_decide (e = "/"%string) then "/" else e +:+ "/") +:+ rest)%string
                 ∧ countChar "/" rest = O)).
Proof.
  assert (∀ e : string, (if bool_decide (e = "/"%string) then "/" else e +:+ "/")%string
                        = entryPrefix e) as Hpre.
  { intros e. unfold entryPrefix. by case_bool_decide; subst. }
  split; [done|]. split; [done|]. split.
  - unfold depthMatch. simpl.
    destruct (decide (key ∈ entryNames)) as [Hin|Hin].
    + rewrite (bool_decide_eq_true_2 _ Hin). exists true. split; [done|]. tauto.
    + rewrite (bool_decide_eq_false_2 _ Hin), entryLoop_infinity.
      eexists; split; [done|].
      rewrite existsb_exists. split.
      * intros (e & He & Hp). right. exists e.
        apply HasPrefix_app in Hp as [rest ->]. exists rest.
        rewrite Hpre. split; [|done].
        by apply elem_of_elements, list_elem_of_In.
      * intros [?|(e & rest & He & ->)]; [done|]. exists e. split.
        -- by apply list_elem_of_In, elem_of_elements.
        -- rewrite Hpre. apply HasPrefix_app. by exists rest.
  - unfold depthMatch. simpl.
    destruct (decide (key ∈ entryNames)) as [Hin|Hin].
    + rewrite (bool_decide_eq_true_2 _ Hin). exists true. split; [done|]. tauto.
    + rewrite (bool_decide_eq_false_2 _ Hin), entryLoop_one.
      eexists; split; [done|].
      rewrite existsb_exists. split.
      * intros (e & He & Hp). right. exists e.
        apply andb_true_iff in Hp as [Hp Hc]. apply bool_decide_eq_true in Hc.
        exists (strDrop (len (entryPrefix e)) key). rewrite Hpre.
        split; [by apply elem_of_elements, list_elem_of_In|].
        split; [by apply HasPrefix_drop | done].
      * intros [?|(e & rest & He & -> & Hc)]; [done|]. exists e. split.
        -- by apply list_elem_of_In, elem_of_elements.
        -- rewrite Hpre. apply andb_true_iff. split.
           ++ apply HasPrefix_app. by exists rest.
           ++ rewrite strDrop_app. by apply bool_decide_eq_true.
Qed.
(** ** GETMETADATA with MAXSIZE *)

Lemma depthMatch_valid (depth : string) (entryNames : gset string) (a : Annotation) :
  validDepth depth = true →
  depthMatch depth entryNames (Key a) = Ok (matched depth entryNames a).
Proof.
  intros Hd. unfold matched.
  destruct (depthMatch depth entryNames (Key a)) as [b|e] eqn:Hm; [done|].
  exfalso. unfold depthMatch, validDepth in *.
  destruct (bool_decide (depth = ""%string) || bool_decide (depth = "0"%string));
    [done|].
  simpl in Hd. rewrite Hd in Hm.
  destruct (bool_decide (Key a ∈ entryNames)); [done|].
  apply orb_true_iff in Hd as [->%bool_decide_eq_true| ->%bool_decide_eq_true].
  - by rewrite entryLoop_one in Hm.
  - by rewrite entryLoop_infinity in Hm.
Qed.

(** The largest of [x] and the numbers of [l] is [x] or one of them, and
    none is larger. *)
Lemma fold_max_cases (l : list Z) (x : Z) :
  (fold_left Z.max l x = x ∨ In (fold_left Z.max l x) l)
  ∧ x ≤ fold_left Z.max l x
  ∧ ∀ y, In y l → y ≤ fold_left Z.max l x.
Proof.
  revert x; induction l as [|z l IH]; intros x; simpl.
  - split; [by left|]. split; [lia | tauto].
  - destruct (IH (Z.max x z)) as (Hc & Hle & Hall).
    split; [|split].
    + destruct Hc as [Hc|Hc]; [|by right; right].
      rewrite Hc. destruct (Z.max_spec x z) as [[_ ->]|[_ ->]]; [right; by left | by left].
    + lia.
    + intros y [<-|Hy]; [lia | by apply Hall].
Qed.

Lemma getEach_valid (o : getOptions) (entryNames : gset string)
    (g : gathered) (a : Annotation) :
  0 ≤ optMaxSize o →
  validDepth (optDepth o) = true →
  getEach o entryNames g a
  = Ok (if matched (optDepth o) entryNames a
        then if tooLong (optMaxSize o) a
             then {| annotations := annotations g;
                     longentries := Z.max (longentries g) (Z.of_nat (lenValue (Value a))) |}
             else {| annotations := annotations g ++ [a]; longentries := longentries g |}
        else g).
Proof.
  intros Hm Hd. unfold getEach. rewrite (depthMatch_valid _ _ _ Hd).
  ok_bind.
  destruct (matched (optDepth o) entryNames a); simpl; [|done].
  destruct (Z.leb_spec 0 (optMaxSize o)); [|lia]. simpl.
  unfold tooLong. by destruct (optMaxSize o <? Z.of_nat (lenValue (Value a))).
Qed.

(** The scan keeps the matching annotations whose value fits and
    remembers the longest value among the others. *)
Lemma getEach_scan (o : getOptions) (entryNames : gset string)
    (l : list Annotation) (g : gathered) :
  0 ≤ optMaxSize o →
  validDepth (optDepth o) = true →
  ForEach (getEach o entryNames) l g
  = Ok {| annotations :=
            annotations g
            ++ List.filter (λ a, matched (optDepth o) entryNames a
                                && negb (tooLong (optMaxSize o) a)) l;
          longentries :=
            fold_left Z.max
              (List.map (λ a, Z.of_nat (lenValue (Value a)))
                 (List.filter (λ a, matched (optDepth o) entryNames a
                                   && tooLong (optMaxSize o) a) l))
              (longentries g) |}.
Proof.
  intros Hm Hd. revert g; induction l as [|a l IH]; intros g.
  - simpl. rewrite app_nil_r. by destruct g.
  - cbn [ForEach List.filter]. rewrite (getEach_valid _ _ _ _ Hm Hd).
    ok_bind. rewrite IH.
    destruct (matched (optDepth o) entryNames a); simpl; [|done].
    destruct (tooLong (optMaxSize o) a); simpl; [done|].
    by rewrite <- app_assoc.
Qed.

(** C4: a GET with MAXSIZE returns the matching annotations of the scope
    whose value is not longer than MAXSIZE; when some annotation was left
    out, the tagged OK carries METADATA LONGENTRIES with the length of the
    longest value left out, and when none was, a plain OK. *)
Theorem getmetadata_maxsize (xmailbox : string → result Z) (o : getOptions)
    (mailboxName : string) (entryNames : gset string) (tx : Tx) (mailboxID : Z) :
  0 ≤ optMaxSize o →
  validDepth (optDepth o) = true →
  resolve xmailbox mailboxName = Ok mailboxID →
  let scope := filterMailbox mailboxID (rows tx) in
  let kept := List.filter (λ a, matched (optDepth o) entryNames a
                               && negb (tooLong (optMaxSize o) a)) scope in
  let excluded := List.filter (λ a, matched (optDepth o) entryNames a
                                   && tooLong (optMaxSize o) a) scope in
  ∃ resp,
    cmdGetmetadata xmailbox o mailboxName entryNames tx = Ok resp
    ∧ untagged resp = match kept with
                      | [] => None
                      | _ :: _ => Some (mailboxName, kept)
                      end
    ∧ (excluded = [] → status resp = OKPlain)
    ∧ (excluded ≠ [] →
       ∃ a, In a excluded
            ∧ (∀ b, In b excluded → (lenValue (Value b) <= lenValue (Value a))%nat)
            ∧ status resp
              = OKCode ("METADATA LONGENTRIES " +:+ pretty (Z.of_nat (lenValue (Value a))))).
Proof.
  intros Hm Hd Hres scope kept excluded.
  unfold cmdGetmetadata. unfold resolve in Hres. rewrite Hres. simpl.
  rewrite (getEach_scan _ _ _ _ Hm Hd). simpl.
  fold scope. fold kept. fold excluded.
  eexists. split; [done|]. unfold respond; simpl. split; [done|]. split.
  - intros ->. done.
  - intros Hne.
    destruct (fold_max_cases (List.map (λ a, Z.of_nat (lenValue (Value a))) excluded) (-1))
      as (Hc & Hle & Hall).
    set (n := fold_left Z.max (List.map (λ a, Z.of_nat (lenValue (Value a))) excluded) (-1)) in *.
    assert (In n (List.map (λ a, Z.of_nat (lenValue (Value a))) excluded)) as Hin.
    { destruct Hc as [Hc|Hc]; [|done].
      destruct excluded as [|b excluded']; [done|].
      specialize (Hall (Z.of_nat (lenValue (Value b))) (or_introl eq_refl)). lia. }
    apply in_map_iff in Hin as (a & Ha & Hain).
    exists a. split; [done|]. split.
    + intros b Hb.
      specialize (Hall (Z.of_nat (lenValue (Value b)))
                    (in_map (λ a, Z.of_nat (lenValue (Value a))) _ _ Hb)). lia.
    + rewrite Ha. destruct (Z.leb_spec 0 n); [done | lia].
Qed.

Lemma getmetadata_maxsize_witness :
  let tx := {| rows := [ {| ID := 1; MailboxID := 0; Key := "/private/a"; IsString := true;
                            Value := Some (repeat "x"%byte 50) |};
                         {| ID := 2; MailboxID := 0; Key := "/private/b"; IsString := true;
                            Value := Some (repeat "y"%byte 5) |} ];
               sequence := 2 |} in
  let o := {| optMaxSize := 10; optDepth := "" |} in
  ∃ resp,
    cmdGetmetadata (λ _, Ok 1) o "" {[ "/private/a"%string; "/private/b"%string ]} tx = Ok resp
    ∧ untagged resp
      = Some (""%string,
              [ {| ID := 2; MailboxID := 0; Key := "/private/b"; IsString := true;
                   Value := Some (repeat "y"%byte 5) |} ])
    ∧ status resp = OKCode "METADATA LONGENTRIES 50".
Proof.
  intros tx o.
  destruct (getmetadata_maxsize (λ _, Ok 1) o "" {[ "/private/a"%string; "/private/b"%string ]}
              tx 0) as (resp & Hcmd & Hun & _ & _).
  - simpl; lia.
  - reflexivity.
  - reflexivity.
  - exists resp. split; [exact Hcmd|]. split; [exact Hun|].
    vm_compute in Hcmd. injection Hcmd as <-. reflexivity.
Defined.

(** ** The checks on entry names *)

(** The vendor rule, for a key that is known to start with "/private/":
    the key without its leading slash is cut into at most four pieces. *)
Lemma checkEntryName_private (key : string) :
  HasPrefix key "/private/" = true →
  checkEntryName key
  = if bool_decide (key = "/private/vendor"%string) || HasPrefix key "/private/vendor/"
    then if (length (SplitN (strDrop 1 key) "/" 4) <? 4)%nat
         then xuserErrorf "entry names starting with /private/vendor must have at least 4 components"
         else Ok ()
    else Ok ().
Proof.
  intros Hp. unfold checkEntryName. rewrite Hp. simpl negb. cbv iota.
  ok_bind.
  destruct (bool_decide (key = "/private/vendor"%string) || HasPrefix key "/private/vendor/");
    [|done].
  apply HasPrefix_app in Hp as [rest ->]. done.
Qed.

Lemma checkEntryName_not_private (key : string) :
  HasPrefix key "/private/" = false →
  checkEntryName key = xuserErrorf "only /private/* entry names allowed".
Proof. intros Hp. unfold checkEntryName. by rewrite Hp. Qed.

(** A name is accepted or refused with a user error without a code. *)
Lemma checkEntryName_cases (key : string) :
  checkEntryName key = Ok () ∨ ∃ msg, checkEntryName key = Err (UserError "" msg).
Proof.
  destruct (HasPrefix key "/private/") eqn:Hp.
  - rewrite (checkEntryName_private _ Hp).
    destruct (_ || _); [|by left].
    destruct (_ <? _)%nat; [right; by eexists | by left].
  - right. rewrite (checkEntryName_not_private _ Hp). by eexists.
Qed.

Lemma checkEntryNames_refused (l : list Annotation) (a : Annotation) :
  In a l →
  isOk (checkEntryName (Key a)) = false →
  ∃ msg, checkEntryNames l = Err (UserError "" msg).
Proof.
  induction l as [|b l IH]; intros Hin Hbad; [done|]. simpl.
  destruct (checkEntryName_cases (Key b)) as [Hb|[msg Hb]]; rewrite Hb.
  - destruct Hin as [->|Hin]; [by rewrite Hb in Hbad|]. by apply IH.
  - by exists msg.
Qed.

(** When the checks refuse a name, the command ends there: the account is
    as it was, no transaction was opened, nothing was published. *)
Lemma cmdSetmetadata_refused (lim : limits) (xmailbox : string → result Z)
    (mailboxName : string) (l : list Annotation) (acc : account) (e : error) :
  checkEntryNames l = Err e →
  cmdSetmetadata lim xmailbox mailboxName l acc = (acc, Err e).
Proof. intros H. unfold cmdSetmetadata. by rewrite H. Qed.

(** C5: a SET command with an entry name that does not start with
    "/private/" fails with a user error; the account comes back unchanged:
    the same table, no transaction opened, nothing published. *)
Theorem setmetadata_private_only (lim : limits) (xmailbox : string → result Z)
    (mailboxName : string) (l : list Annotation) (acc : account) (a : Annotation) :
  In a l →
  HasPrefix (Key a) "/private/" = false →
  ∃ msg acc',
    cmdSetmetadata lim xmailbox mailboxName l acc = (acc', Err (UserError "" msg))
    ∧ acc' = acc
    ∧ opened acc' = opened acc
    ∧ rows (db acc') = rows (db acc).
Proof.
  intros Hin Hp.
  destruct (checkEntryNames_refused l a Hin) as [msg Hmsg].
  { by rewrite (checkEntryName_not_private _ Hp). }
  exists msg, acc. by rewrite (cmdSetmetadata_refused _ _ _ _ _ _ Hmsg).
Qed.

Lemma setmetadata_private_only_witness :
  let acc := {| db := {| rows := []; sequence := 0 |}; opened := 0; published := [] |} in
  let a := {| ID := 0; MailboxID := 0; Key := "/private/comment"; IsString := true;
              Value := Some [] |} in
  let b := {| ID := 0; MailboxID := 0; Key := "/shared/comment"; IsString := true;
              Value := Some [] |} in
  ∃ msg acc',
    cmdSetmetadata defaultLimits (λ _, Ok 1) "" [a; b] acc = (acc', Err (UserError "" msg))
    ∧ acc' = acc
    ∧ opened acc' = opened acc
    ∧ rows (db acc') = rows (db acc).
Proof.
  intros acc a b.
  apply (setmetadata_private_only defaultLimits (λ _, Ok 1) "" [a; b] acc b).
  - simpl. right. left. reflexivity.
  - reflexivity.
Defined.

(** C6: for a key that is "/private/vendor" or starts with
    "/private/vendor/", the check fails exactly when the key without its
    leading slash splits into fewer than four pieces, which is when fewer
    than two slashes follow "/private/vendor"; a key that yields four
    pieces passes, and a command with a failing key is refused. *)
Theorem vendor_components (key : string) :
  key = "/private/vendor"%string ∨ HasPrefix key "/private/vendor/" = true →
  ∃ rest tail,
    sliceFrom key 1 = Ok rest
    ∧ key = ("/private/vendor" +:+ tail)%string
    ∧ (checkEntryName key
       = xuserErrorf "entry names starting with /private/vendor must have at least 4 components"
       ↔ (length (SplitN rest "/" 4) < 4)%nat)
    ∧ (checkEntryName key = Ok () ↔ length (SplitN rest "/" 4) = 4%nat)
    ∧ ((length (SplitN rest "/" 4) < 4)%nat ↔ (countChar "/" tail < 2)%nat)
    ∧ ((length (SplitN rest "/" 4) < 4)%nat →
       ∀ lim xmailbox mailboxName l acc a,
         In a l → Key a = key →
         ∃ msg, cmdSetmetadata lim xmailbox mailboxName l acc = (acc, Err (UserError "" msg))).
Proof.
  intros Hv.
  assert (∃ tail, key = ("/private/vendor" +:+ tail)%string) as [tail ->].
  { destruct Hv as [->|Hv]; [by exists ""%string|].
    apply HasPrefix_app in Hv as [t ->]. by exists ("/" +:+ t)%string. }
  exists ("private/vendor" +:+ tail)%string, tail.
  assert (length (SplitN ("private/vendor" +:+ tail) "/" 4)
          = Nat.min 4 (2 + countChar slash tail)) as Hlen.
  { rewrite SplitN_length by lia. rewrite countChar_app. done. }
  assert (checkEntryName ("/private/vendor" +:+ tail)
          = if (length (SplitN ("private/vendor" +:+ tail) "/" 4) <? 4)%nat
            then xuserErrorf "entry names starting with /private/vendor must have at least 4 components"
            else Ok ()) as Hchk.
  { rewrite checkEntryName_private by done.
    destruct Hv as [Hv|Hv].
    - by rewrite (bool_decide_eq_true_2 _ Hv).
    - rewrite Hv. by rewrite orb_true_r. }
  split; [done|]. split; [done|].
  unfold slash in *. rewrite Hchk, Hlen.
  destruct (Nat.ltb_spec (Nat.min 4 (2 + countChar "/" tail)) 4) as [Hlt|Hge].
  - split; [tauto|]. split; [split; [done | lia]|]. split; [lia|].
    intros _ lim xmailbox mailboxName l acc a Hin Hk.
    destruct (checkEntryNames_refused l a Hin) as [msg Hmsg].
    { rewrite Hk, Hchk, Hlen.
      by destruct (Nat.ltb_spec (Nat.min 4 (2 + countChar "/" tail)) 4); [|lia]. }
    exists msg. by apply cmdSetmetadata_refused.
  - split; [split; [done | lia]|]. split; [split; [lia | done]|]. split; lia.
Qed.

Lemma vendor_components_witness :
  ∃ rest tail,
    sliceFrom "/private/vendor/acme" 1 = Ok rest
    ∧ "/private/vendor/acme"%string = ("/private/vendor" +:+ tail)%string
    ∧ (checkEntryName "/private/vendor/acme"
       = xuserErrorf "entry names starting with /private/vendor must have at least 4 components"
       ↔ (length (SplitN rest "/" 4) < 4)%nat)
    ∧ (checkEntryName "/private/vendor/acme" = Ok () ↔ length (SplitN rest "/" 4) = 4%nat)
    ∧ ((length (SplitN rest "/" 4) < 4)%nat ↔ (countChar "/" tail < 2)%nat)
    ∧ ((length (SplitN rest "/" 4) < 4)%nat →
       ∀ lim xmailbox mailboxName l acc a,
         In a l → Key a = "/private/vendor/acme"%string →
         ∃ msg, cmdSetmetadata lim xmailbox mailboxName l acc = (acc, Err (UserError "" msg))).
Proof.
  apply (vendor_components "/private/vendor/acme").
  right. reflexivity.
Defined.

(** ** The table and its invariants *)

Section pairwise.
Variable same : Annotation → Annotation → bool.

Lemma existsb_false_filter (f : Annotation → bool) (l : list Annotation) :
  existsb f l = false → List.filter f l = [].
Proof.
  induction l as [|a l IH]; simpl; [done|].
  intros [Ha Hl]%orb_false_iff. rewrite Ha. by apply IH.
Qed.

Lemma existsb_filter_false (f g : Annotation → bool) (l : list Annotation) :
  existsb f l = false → existsb f (List.filter g l) = false.
Proof.
  induction l as [|a l IH]; simpl; [done|].
  intros [Ha Hl]%orb_false_iff.
  destruct (g a); simpl; [rewrite Ha|]; by apply IH.
Qed.

Lemma pairwiseDistinct_filter (f : Annotation → bool) (l : list Annotation) :
  pairwiseDistinct same l = true → pairwiseDistinct same (List.filter f l) = true.
Proof.
  induction l as [|a l IH]; simpl; [done|].
  intros [Ha Hl]%andb_true_iff. apply negb_true_iff in Ha.
  destruct (f a); simpl; [|by apply IH].
  rewrite existsb_filter_false by done. by apply IH.
Qed.

Lemma pairwiseDistinct_snoc (l : list Annotation) (x : Annotation) :
  pairwiseDistinct same l = true →
  (∀ r, In r l → same r x = false) →
  pairwiseDistinct same (l ++ [x]) = true.
Proof.
  induction l as [|a l IH]; simpl; [done|].
  intros [Ha Hl]%andb_true_iff Hx. apply negb_true_iff in Ha.
  rewrite existsb_app, Ha. simpl. rewrite (Hx a) by by left. simpl.
  apply IH; [done|]. intros r Hr. apply Hx. by right.
Qed.

(** A selection whose rows are all the same to each other finds at most
    one row of a table of distinct rows. *)
Lemma filter_find (sel : Annotation → bool) (l : list Annotation) :
  pairwiseDistinct same l = true →
  (∀ a b, sel a = true → sel b = true → same a b = true) →
  List.filter sel l = match List.find sel l with
                      | Some oa => [oa]
                      | None => []
                      end.
Proof.
  intros Hl Hsel. induction l as [|a l IH]; simpl; [done|].
  simpl in Hl. apply andb_true_iff in Hl as [Ha Hl]. apply negb_true_iff in Ha.
  destruct (sel a) eqn:Hsa; [|by apply IH].
  f_equal. apply existsb_false_filter.
  apply not_true_iff_false. intros (b & Hb & Hsb)%existsb_exists.
  assert (existsb (same a) l = true) as Hex; [|congruence].
  apply existsb_exists. exists b. split; [done|]. by apply Hsel.
Qed.
End pairwise.

Lemma queryKey_spec (mailboxID : Z) (key : string) (a : Annotation) :
  queryKey mailboxID key a = true ↔ Key a = key ∧ MailboxID a = mailboxID.
Proof.
  unfold queryKey. by rewrite andb_true_iff, !bool_decide_eq_true.
Qed.

Lemma wfTx_spec (tx : Tx) :
  wfTx tx = true ↔
  pairwiseDistinct sameID (rows tx) = true
  ∧ pairwiseDistinct sameKey (rows tx) = true
  ∧ ∀ a, In a (rows tx) → ID a ≤ sequence tx.
Proof.
  unfold wfTx. rewrite !andb_true_iff, forallb_forall.
  split.
  - intros [[H1 H2] H3]. split; [done|]. split; [done|].
    intros a Ha. specialize (H3 a Ha). lia.
  - intros (H1 & H2 & H3). split; [done|]. intros a Ha. specialize (H3 a Ha). lia.
Qed.

(** The rows that a point query selects: the stored row, if there is one. *)
Lemma query_rows (mailboxID : Z) (key : string) (tx : Tx) :
  wfTx tx = true →
  List.filter (queryKey mailboxID key) (rows tx)
  = match lookupRow mailboxID key tx with
    | Some oa => [oa]
    | None => []
    end.
Proof.
  intros (_ & Hk & _)%wfTx_spec. unfold lookupRow.
  apply (filter_find sameKey); [done|].
  intros a b [Ha1 Ha2]%queryKey_spec [Hb1 Hb2]%queryKey_spec.
  unfold sameKey. apply queryKey_spec. split; congruence.
Qed.

Lemma find_none_existsb (f : Annotation → bool) (l : list Annotation) :
  List.find f l = None → existsb f l = false.
Proof.
  induction l as [|a l IH]; simpl; [done|].
  destruct (f a); [done | exact IH].
Qed.

Lemma filter_none_id (f : Annotation → bool) (l : list Annotation) :
  existsb f l = false → List.filter (λ a, negb (f a)) l = l.
Proof.
  induction l as [|a l IH]; simpl; [done|].
  intros [Ha Hl]%orb_false_iff. rewrite Ha. simpl. by rewrite IH.
Qed.

Lemma find_filter_negb (f : Annotation → bool) (l : list Annotation) :
  List.find f (List.filter (λ a, negb (f a)) l) = None.
Proof.
  induction l as [|a l IH]; simpl; [done|].
  destruct (f a) eqn:Ha; simpl; [done|]. by rewrite Ha.
Qed.

Lemma find_snoc_none (f : Annotation → bool) (l : list Annotation) (x : Annotation) :
  List.find f l = None → List.find f (l ++ [x]) = if f x then Some x else None.
Proof.
  induction l as [|a l IH]; simpl; [done|].
  destruct (f a); [done | exact IH].
Qed.

(** Two rows of a well-formed table with the same [ID] are the same row. *)
Lemma sameID_eq (l : list Annotation) (a b : Annotation) :
  pairwiseDistinct sameID l = true → In a l → In b l → ID a = ID b → a = b.
Proof.
  induction l as [|c l IH]; simpl; [done|].
  intros [Hc Hl]%andb_true_iff Ha Hb Hid. apply negb_true_iff in Hc.
  assert (∀ r, In r l → ID r ≠ ID c) as Hne.
  { intros r Hr Heq. apply not_true_iff_false in Hc. apply Hc.
    apply existsb_exists. exists r. split; [done|]. by apply bool_decide_eq_true. }
  destruct Ha as [<-|Ha], Hb as [<-|Hb]; [done| | |by apply IH].
  - exfalso. by apply (Hne b Hb).
  - exfalso. by apply (Hne a Ha).
Qed.

(** Replacing the value of the stored row [oa] touches that row only. *)
Lemma update_find (sel : Annotation → bool) (oa oa' : Annotation) (l : list Annotation) :
  pairwiseDistinct sameID l = true →
  List.find sel l = Some oa →
  sel oa' = true →
  List.find sel (List.map (λ r, if bool_decide (ID r = ID oa) then oa' else r) l)
  = Some oa'.
Proof.
  intros Hl Hf Hs.
  assert (∀ r, In r l → ID r = ID oa → r = oa) as Huniq.
  { intros r Hr Hid. apply (sameID_eq l); [done..| |done].
    by apply find_some in Hf as [? _]. }
  clear Hl. induction l as [|c l IH]; simpl in *; [done|].
  destruct (sel c) eqn:Hc.
  - injection Hf as ->. rewrite bool_decide_eq_true_2 by done. by rewrite Hs.
  - case_bool_decide as Hid.
    + rewrite (Huniq c (or_introl eq_refl) Hid) in Hc.
      apply find_some in Hf as [_ Hf]. congruence.
    + rewrite Hc. apply IH; [done|]. intros r Hr. apply Huniq. by right.
Qed.

(** ** One pair of SETMETADATA *)

(** The four ways through the body of the loop, on a well-formed table. *)
Lemma setEach_cases (mailboxID : Z) (mailboxName : string) (tx : Tx)
    (changes : list Change) (a : Annotation) :
  wfTx tx = true →
  setEach mailboxID mailboxName (tx, changes) a
  = match Value a, lookupRow mailboxID (Key a) tx with
    | None, None => Ok (tx, changes)
    | None, Some oa =>
        Ok ({| rows := List.filter (λ r, negb (queryKey mailboxID (Key a) r)) (rows tx);
               sequence := sequence tx |},
            changes ++ [annotationChange oa mailboxName])
    | Some _, None =>
        Ok ({| rows := rows tx ++ [inserted mailboxID tx a];
               sequence := sequence tx + 1 |},
            changes ++ [annotationChange (inserted mailboxID tx a) mailboxName])
    | Some _, Some oa =>
        Ok ({| rows := List.map (λ r, if bool_decide (ID r = ID oa) then updated oa a else r)
                         (rows tx);
               sequence := sequence tx |},
            if differs oa a
            then changes ++ [{| changeMailboxID := mailboxID;
                                changeMailboxName := mailboxName;
                                changeKey := Key a |}]
            else changes)
    end.
Proof.
  intros Hwf. unfold setEach.
  destruct (Value a) as [v|] eqn:Hv; simpl isNil; cbv iota.
  - unfold qGet. rewrite (query_rows _ _ _ Hwf).
    destruct (lookupRow mailboxID (Key a) tx) as [oa|] eqn:Hl.
    + unfold txUpdate. simpl ID.
      assert (existsb (λ r, bool_decide (ID r = ID oa)) (rows tx) = true) as ->.
      { apply existsb_exists. exists oa. split; [|by apply bool_decide_eq_true].
        unfold lookupRow in Hl. by apply find_some in Hl as [? _]. }
      unfold updated, differs, annotationChange. simpl. rewrite Hv. done.
    + unfold txInsert. simpl MailboxID. simpl Key.
      rewrite (find_none_existsb _ _ Hl). unfold inserted. rewrite Hv. done.
  - unfold qDelete. rewrite (query_rows _ _ _ Hwf).
    destruct (lookupRow mailboxID (Key a) tx) as [oa|] eqn:Hl; [done|].
    simpl. rewrite app_nil_r. rewrite filter_none_id by by apply find_none_existsb.
    by destruct tx.
Qed.

(** The body of the loop keeps the table well-formed. *)
Lemma setEach_wf (mailboxID : Z) (mailboxName : string) (tx tx' : Tx)
    (changes changes' : list Change) (a : Annotation) :
  wfTx tx = true →
  setEach mailboxID mailboxName (tx, changes) a = Ok (tx', changes') →
  wfTx tx' = true.
Proof.
  intros Hwf. rewrite (setEach_cases _ _ _ _ _ Hwf).
  pose proof Hwf as (Hid & Hkey & Hseq)%wfTx_spec.
  destruct (Value a) as [v|], (lookupRow mailboxID (Key a) tx) as [oa|] eqn:Hl;
    intros [= <- <-]; [| | |done]; apply wfTx_spec; simpl.
  - (* update *)
    unfold lookupRow in Hl. pose proof (find_some _ _ Hl) as [Hin Hq].
    assert (∀ r, In r (rows tx) → ID r = ID oa → r = oa) as Huniq.
    { intros r Hr Hr'. by apply (sameID_eq (rows tx)). }
    set (g := λ r, if bool_decide (ID r = ID oa) then updated oa a else r).
    assert (∀ r, In r (rows tx) →
                 ID (g r) = ID r ∧ MailboxID (g r) = MailboxID r ∧ Key (g r) = Key r) as Hg.
    { intros r Hr. unfold g. case_bool_decide as Hc; [|done].
      by rewrite (Huniq r Hr Hc). }
    assert (∀ same, (∀ x y, In x (rows tx) → In y (rows tx) → same (g x) (g y) = same x y) →
              pairwiseDistinct same (List.map g (rows tx))
              = pairwiseDistinct same (rows tx)) as Hmap.
    { intros same. generalize (rows tx). intros l Hs.
      induction l as [|x l IH]; simpl; [done|].
      rewrite IH by (intros; apply Hs; by right). f_equal. f_equal.
      assert (∀ y, In y l → same (g x) (g y) = same x y) as Hx
        by (intros; apply Hs; [by left | by right]).
      clear IH Hs. induction l as [|y l IH]; simpl; [done|].
      rewrite Hx by by left. rewrite IH; [done|]. intros; apply Hx; by right. }
    split; [|split].
    + rewrite Hmap; [done|]. intros x y Hx Hy. unfold sameID.
      destruct (Hg x Hx) as (-> & _), (Hg y Hy) as (-> & _). done.
    + rewrite Hmap; [done|]. intros x y Hx Hy. unfold sameKey, queryKey.
      destruct (Hg x Hx) as (_ & -> & ->), (Hg y Hy) as (_ & -> & ->). done.
    + intros r (x & <- & Hx)%in_map_iff. destruct (Hg x Hx) as (-> & _). by apply Hseq.
  - (* insert *)
    split; [|split].
    + apply pairwiseDistinct_snoc; [done|]. intros r Hr. unfold sameID. simpl.
      apply bool_decide_eq_false. specialize (Hseq r Hr). lia.
    + apply pairwiseDistinct_snoc; [done|]. intros r Hr. unfold sameKey.
      apply not_true_iff_false. intros [Hk Hm]%queryKey_spec. simpl in *.
      unfold lookupRow in Hl. apply find_none_existsb in Hl.
      apply not_true_iff_false in Hl. apply Hl. apply existsb_exists.
      exists r. split; [done|]. apply queryKey_spec. done.
    + intros r [Hr|[<-|[]]]%in_app_or; simpl; [|lia]. specialize (Hseq r Hr). lia.
  - (* delete *)
    split; [|split].
    + by apply pairwiseDistinct_filter.
    + by apply pairwiseDistinct_filter.
    + intros r [Hr _]%filter_In. by apply Hseq.
Qed.

(** For a pair with a value: the stored row differs unless it has the same
    flag and, byte for byte, the same value. *)
Lemma differs_false (oa a : Annotation) (v : list byte) :
  Value a = Some v →
  differs oa a = false ↔ IsString oa = IsString a ∧ Value oa = Some v.
Proof.
  intros Hv. unfold differs, bytesEqual. rewrite Hv.
  rewrite !orb_false_iff, !negb_false_iff, !eqb_true_iff, bool_decide_eq_true.
  destruct (Value oa) as [x|]; simpl.
  - split; [intros [[? _] ->]; done | intros [? [= ->]]; done].
  - split; [intros [[_ ?] _]; done | intros [_ ?]; done].
Qed.

(** In the words of the source: the flag, the nilness or the bytes differ. *)
Lemma differs_true (oa a : Annotation) :
  differs oa a = true ↔
  IsString oa ≠ IsString a
  ∨ isNil (Value oa) ≠ isNil (Value a)
  ∨ valueBytes (Value oa) ≠ valueBytes (Value a).
Proof.
  unfold differs, bytesEqual.
  rewrite !orb_true_iff, !negb_true_iff, !eqb_false_iff, bool_decide_eq_false.
  tauto.
Qed.

(** C7: on a well-formed table every pair of a SET goes through, the table
    stays well-formed, and the pair adds one change record when it deletes
    a stored row, inserts a new one, or meets a stored row whose flag,
    nilness or bytes differ from the new ones; it adds none when it
    deletes an absent key (which leaves the table as it was) or meets a
    stored row with the same flag and the same value. *)
Theorem set_change_records (mailboxID : Z) (mailboxName : string) (tx : Tx)
    (changes : list Change) (a : Annotation) :
  wfTx tx = true →
  ∃ tx' delta,
    setEach mailboxID mailboxName (tx, changes) a = Ok (tx', changes ++ delta)
    ∧ wfTx tx' = true
    ∧ (length delta <= 1)%nat
    ∧ match lookupRow mailboxID (Key a) tx with
      | Some oa =>
          (Value a = None →
           delta = [annotationChange oa mailboxName]
           ∧ lookupRow mailboxID (Key a) tx' = None)
          ∧ (Value a ≠ None →
             (length delta = 1%nat ↔
              IsString oa ≠ IsString a
              ∨ isNil (Value oa) ≠ isNil (Value a)
              ∨ valueBytes (Value oa) ≠ valueBytes (Value a))
             ∧ (delta = [] ↔ IsString oa = IsString a ∧ Value oa = Value a))
      | None =>
          (Value a = None → delta = [] ∧ tx' = tx)
          ∧ (Value a ≠ None →
             length delta = 1%nat
             ∧ lookupRow mailboxID (Key a) tx' = Some (inserted mailboxID tx a))
      end.
Proof.
  intros Hwf.
  pose proof (setEach_cases mailboxID mailboxName tx changes a Hwf) as Hc.
  destruct (Value a) as [v|] eqn:Hv,
           (lookupRow mailboxID (Key a) tx) as [oa|] eqn:Hl.
  - (* update *)
    rewrite <- Hv.
    destruct (differs oa a) eqn:Hd.
    + eexists _, [_]. split; [exact Hc|].
      split; [by eapply setEach_wf|]. split; [simpl; lia|].
      split; [intros ?; congruence|]. intros _. split.
      * split; [intros _; by apply differs_true | done].
      * split; [done|]. intros [Hf Ho].
        assert (differs oa a = false) as Hd'; [|congruence].
        apply (differs_false oa a v Hv). split; congruence.
    + eexists _, []. rewrite app_nil_r. split; [exact Hc|].
      split; [by eapply setEach_wf|]. split; [simpl; lia|].
      split; [intros ?; congruence|]. intros _. split.
      * split; [done|]. intros Hd'%differs_true. congruence.
      * split; [|done]. intros _.
        apply (differs_false oa a v Hv) in Hd as [? ?]. split; congruence.
  - (* insert *)
    eexists _, [_]. split; [exact Hc|].
    split; [by eapply setEach_wf|]. split; [simpl; lia|].
    split; [done|]. intros _. split; [done|].
    unfold lookupRow in *. simpl. rewrite (find_snoc_none _ _ _ Hl).
    unfold inserted, queryKey. simpl. by rewrite !bool_decide_eq_true_2.
  - (* delete a stored row *)
    eexists _, [_]. split; [exact Hc|].
    split; [by eapply setEach_wf|]. split; [simpl; lia|].
    split; [|done]. intros _. split; [done|].
    unfold lookupRow. simpl. apply find_filter_negb.
  - (* delete an absent key *)
    exists tx, []. rewrite app_nil_r. split; [exact Hc|].
    split; [done|]. split; [simpl; lia|]. split; [done|]. done.
Qed.

Lemma set_change_records_witness :
  let oa := {| ID := 1; MailboxID := 0; Key := "/private/comment"; IsString := true;
               Value := Some ["a"%byte] |} in
  let tx := {| rows := [oa]; sequence := 1 |} in
  let a := {| ID := 0; MailboxID := 0; Key := "/private/comment"; IsString := true;
              Value := Some ["a"%byte] |} in
  wfTx tx = true
  ∧ ∃ tx', setEach 0 "" (tx, []) a = Ok (tx', []).
Proof.
  intros oa tx a. split; [reflexivity|].
  destruct (set_change_records 0 "" tx [] a) as (tx' & delta & Hset & _ & _ & Hm);
    [reflexivity|].
  exists tx'. simpl in Hm. destruct Hm as [_ Hm].
  destruct (Hm ltac:(discriminate)) as [_ [_ Hnil]].
  rewrite (Hnil (conj eq_refl eq_refl)) in Hset. exact Hset.
Defined.

(** C10: a pair with a value whose key has a stored row replaces the value
    of that row and nothing else: the row keeps its flag, also when the
    pair comes with the other flag, in which case a change record is added
    all the same; the other rows stay as they are. *)
Theorem set_update_keeps_flag (mailboxID : Z) (mailboxName : string) (tx : Tx)
    (changes : list Change) (a oa : Annotation) (v : list byte) :
  wfTx tx = true →
  lookupRow mailboxID (Key a) tx = Some oa →
  Value a = Some v →
  let oa' := {| ID := ID oa; MailboxID := MailboxID oa; Key := Key oa;
                IsString := IsString oa; Value := Some v |} in
  ∃ tx' changes',
    setEach mailboxID mailboxName (tx, changes) a = Ok (tx', changes')
    ∧ rows tx' = List.map (λ r, if bool_decide (ID r = ID oa) then oa' else r) (rows tx)
    ∧ (∀ r, In r (rows tx) → ID r = ID oa → r = oa)
    ∧ lookupRow mailboxID (Key a) tx' = Some oa'
    ∧ (IsString a ≠ IsString oa →
       changes' = changes ++ [{| changeMailboxID := mailboxID;
                                 changeMailboxName := mailboxName;
                                 changeKey := Key a |}]).
Proof.
  intros Hwf Hl Hv oa'.
  pose proof (setEach_cases mailboxID mailboxName tx changes a Hwf) as Hc.
  rewrite Hv, Hl in Hc.
  assert (updated oa a = oa') as Hup by (unfold updated, oa'; by rewrite Hv).
  rewrite Hup in Hc.
  pose proof Hwf as (Hid & _ & _)%wfTx_spec.
  unfold lookupRow in Hl. pose proof (find_some _ _ Hl) as [Hin Hq].
  eexists _, _. split; [exact Hc|]. simpl. split; [done|]. split; [|split].
  - intros r Hr Hr'. by apply (sameID_eq (rows tx)).
  - unfold lookupRow. simpl. apply update_find; [done..|].
    apply queryKey_spec in Hq as [Hk Hm]. by apply queryKey_spec.
  - intros Hne. assert (differs oa a = true) as ->; [|done].
    apply differs_true. left. congruence.
Qed.

Lemma set_update_keeps_flag_witness :
  let oa := {| ID := 1; MailboxID := 0; Key := "/private/comment"; IsString := true;
               Value := Some ["a"%byte] |} in
  let tx := {| rows := [oa]; sequence := 1 |} in
  let a := {| ID := 0; MailboxID := 0; Key := "/private/comment"; IsString := false;
              Value := Some ["a"%byte] |} in
  ∃ tx' changes',
    setEach 0 "" (tx, []) a = Ok (tx', changes')
    ∧ rows tx' = [oa]
    ∧ changes' = [{| changeMailboxID := 0; changeMailboxName := "";
                     changeKey := "/private/comment" |}].
Proof.
  intros oa tx a.
  destruct (set_update_keeps_flag 0 "" tx [] a oa ["a"%byte])
    as (tx' & changes' & Hset & Hrows & _ & _ & Hch);
    [reflexivity | reflexivity | reflexivity |].
  exists tx', changes'. split; [exact Hset|]. split.
  - rewrite Hrows. reflexivity.
  - apply Hch. simpl. discriminate.
Defined.

(** ** The quota scan *)

Lemma wrapInt_small (x : Z) : - 2 ^ 63 ≤ x ≤ maxInt → wrapInt x = x.
Proof.
  unfold wrapInt, maxInt. intros H.
  rewrite Z.mod_small by lia. lia.
Qed.

Lemma intAdd_small (x y : Z) : 0 ≤ x → 0 ≤ y → x + y ≤ maxInt → intAdd x y = x + y.
Proof. intros. unfold intAdd. apply wrapInt_small. unfold maxInt in *. lia. Qed.

Lemma rowSize_nonneg (a : Annotation) : 0 ≤ rowSize a.
Proof. unfold rowSize. lia. Qed.

Lemma totalSize_nonneg (l : list Annotation) : 0 ≤ totalSize l.
Proof.
  induction l as [|a l IH]; simpl; [lia|]. pose proof (rowSize_nonneg a). lia.
Qed.

Lemma totalSize_app (l1 l2 : list Annotation) :
  totalSize (l1 ++ l2) = totalSize l1 + totalSize l2.
Proof. induction l1 as [|a l1 IH]; simpl; lia. Qed.

Lemma totalSize_firstn (k : nat) (l : list Annotation) :
  totalSize (firstn k l) ≤ totalSize l.
Proof.
  revert k; induction l as [|a l IH]; intros [|k]; simpl; try lia.
  - pose proof (rowSize_nonneg a). pose proof (totalSize_nonneg l). lia.
  - specialize (IH k). lia.
Qed.

Section quota.
Variable lim : limits.
Hypothesis sane : saneLimits lim = true.

(** One row of the scan, while the counters fit Go's [int]. *)
Lemma quotaEach_step (n size : Z) (a : Annotation) :
  0 ≤ n → 0 ≤ size → n + 1 ≤ maxInt → size + rowSize a ≤ maxInt →
  quotaEach lim (n, size) a
  = if metadataMaxKeys lim <? n + 1 then tooMany
    else if metadataMaxSize lim <? size + rowSize a then tooLarge lim
    else Ok (n + 1, size + rowSize a).
Proof.
  intros Hn Hs Hn1 Hs1. unfold quotaEach.
  rewrite (intAdd_small n 1) by lia.
  assert (0 ≤ Z.of_nat (lenValue (Value a))) by lia.
  assert (0 ≤ Z.of_nat (len (Key a))) by lia.
  unfold rowSize in *.
  rewrite (intAdd_small (Z.of_nat _) (Z.of_nat _)) by lia.
  rewrite (intAdd_small size) by lia.
  done.
Qed.

(** The scan from the counters [(n, size)]: it reports the size when the
    rows that the count still lets through are too large, else the count
    when there are more rows than that, else it ends with the totals. *)
Lemma quotaScan_from (l : list Annotation) (n size : Z) :
  0 ≤ n ≤ metadataMaxKeys lim →
  0 ≤ size ≤ metadataMaxSize lim →
  n + Z.of_nat (length l) ≤ maxInt →
  size + totalSize l ≤ maxInt →
  ForEach (quotaEach lim) l (n, size)
  = if metadataMaxSize lim
       <? size + totalSize (firstn (Z.to_nat (metadataMaxKeys lim - n)) l)
    then tooLarge lim
    else if metadataMaxKeys lim - n <? Z.of_nat (length l) then tooMany
    else Ok (n + Z.of_nat (length l), size + totalSize l).
Proof.
  revert n size; induction l as [|a l IH]; intros n size Hn Hs Hnl Hsl.
  - simpl. rewrite firstn_nil. simpl.
    destruct (Z.ltb_spec (metadataMaxSize lim) (size + 0)); [lia|].
    change (Z.of_nat 0) with 0.
    destruct (Z.ltb_spec (metadataMaxKeys lim - n) 0); [lia|].
    by rewrite !Z.add_0_r.
  - cbn [ForEach]. simpl totalSize in *. simpl length in *.
    pose proof (rowSize_nonneg a). pose proof (totalSize_nonneg l).
    rewrite quotaEach_step by lia.
    destruct (Z.ltb_spec (metadataMaxKeys lim) (n + 1)) as [Hk|Hk].
    + assert (metadataMaxKeys lim - n = 0) as -> by lia. simpl.
      destruct (Z.ltb_spec (metadataMaxSize lim) (size + 0)); [lia|].
      destruct (Z.ltb_spec 0 (Z.of_nat (S (length l)))); [done | lia].
    + assert (Z.to_nat (metadataMaxKeys lim - n)
              = S (Z.to_nat (metadataMaxKeys lim - (n + 1)))) as -> by lia.
      simpl firstn. simpl totalSize.
      pose proof (totalSize_nonneg
                    (firstn (Z.to_nat (metadataMaxKeys lim - (n + 1))) l)).
      destruct (Z.ltb_spec (metadataMaxSize lim) (size + rowSize a)) as [Hm|Hm].
      * destruct (Z.ltb_spec (metadataMaxSize lim)
                    (size + (rowSize a
                             + totalSize (firstn (Z.to_nat (metadataMaxKeys lim - (n + 1))) l))));
          [done | lia].
      * ok_bind.
        rewrite IH by lia.
        rewrite Z.add_assoc.
        destruct (_ <? _); [done|].
        destruct (Z.ltb_spec (metadataMaxKeys lim - (n + 1)) (Z.of_nat (length l))),
                 (Z.ltb_spec (metadataMaxKeys lim - n) (Z.of_nat (S (length l))));
          try lia; [done|].
        f_equal. f_equal; lia.
Qed.

(** The scan of a whole table, in closed form. *)
Lemma quotaCheck_closed (tx : Tx) :
  fitsInt (rows tx) = true →
  quotaCheck lim tx
  = if metadataMaxSize lim
       <? totalSize (firstn (Z.to_nat (metadataMaxKeys lim)) (rows tx))
    then tooLarge lim
    else if metadataMaxKeys lim <? Z.of_nat (length (rows tx)) then tooMany
    else Ok (Z.of_nat (length (rows tx)), totalSize (rows tx)).
Proof.
  pose proof sane as [Hk Hm]%andb_true_iff.
  unfold fitsInt, quotaCheck. intros [Hl Hs]%andb_true_iff.
  rewrite quotaScan_from by lia.
  by rewrite Z.sub_0_r, !Z.add_0_l.
Qed.

Lemma tooMany_tooLarge : tooMany ≠ tooLarge lim.
Proof. unfold tooMany, tooLarge, xusercodeErrorf. intros [= H]. Qed.

(** The verdict of the scan on a table, by the limit that the table is
    over, if any. *)
Lemma quotaCheck_verdict (tx : Tx) :
  fitsInt (rows tx) = true →
  (overQuota lim (rows tx) = false ↔
   quotaCheck lim tx = Ok (Z.of_nat (length (rows tx)), totalSize (rows tx)))
  ∧ (overQuota lim (rows tx) = true ↔
     quotaCheck lim tx = tooMany ∨ quotaCheck lim tx = tooLarge lim).
Proof.
  intros Hfits. rewrite (quotaCheck_closed tx Hfits).
  pose proof sane as [Hk Hm]%andb_true_iff. apply Z.leb_le in Hk, Hm.
  unfold overQuota.
  set (K := metadataMaxKeys lim) in *. set (M := metadataMaxSize lim) in *.
  pose proof (totalSize_firstn (Z.to_nat K) (rows tx)) as Hfirst.
  pose proof tooMany_tooLarge as Hne.
  rewrite orb_false_iff, orb_true_iff, !Z.ltb_ge, !Z.ltb_lt.
  destruct (Z.ltb_spec M (totalSize (firstn (Z.to_nat K) (rows tx)))) as [HM|HM].
  - split; split; try done; try lia. intros _. by right.
  - destruct (Z.ltb_spec K (Z.of_nat (length (rows tx)))) as [HK|HK].
    + split; split; try done; try lia. intros _. by left.
    + rewrite firstn_all2 in HM by lia.
      split; split; try done; try lia. intros [?|?]; done.
Qed.

(** The check runs on the table that the pairs of the command leave
    behind, with every mutation applied. *)
Lemma setInTx_staged (xmailbox : string → result Z) (mailboxName : string)
    (l : list Annotation) (tx staged : Tx) (mailboxID : Z) (changes : list Change) :
  resolve xmailbox mailboxName = Ok mailboxID →
  setAll mailboxID mailboxName l (tx, []) = Ok (staged, changes) →
  setInTx lim xmailbox mailboxName l tx
  = (_ ← quotaCheck lim staged; Ok (staged, changes)).
Proof.
  intros Hres Hset. unfold setInTx. unfold resolve in Hres. rewrite Hres.
  ok_bind. rewrite Hset. by ok_bind.
Qed.

(** C3: the quota check of SETMETADATA runs on the table with all
    mutations of the command applied and walks over every row of it,
    whatever its mailbox, counting rows in [n] and adding up
    len(Key)+len(Value) in [size].  At each row it arrives at, it first
    reports METADATA TOOMANY when the count passes [metadataMaxKeys], and
    otherwise METADATA MAXSIZE with the limit when the size passes
    [metadataMaxSize]; a table within both limits passes; a failure
    carries one of the two codes.  The limits default to 1000 rows and
    1000000 bytes. *)
Theorem quota_scan (tx : Tx) :
  fitsInt (rows tx) = true →
  (∀ xmailbox mailboxName l tx0 mailboxID changes,
     resolve xmailbox mailboxName = Ok mailboxID →
     setAll mailboxID mailboxName l (tx0, []) = Ok (tx, changes) →
     setInTx lim xmailbox mailboxName l tx0
     = (_ ← quotaCheck lim tx; Ok (tx, changes)))
  ∧ (∀ pre a post,
       rows tx = pre ++ a :: post →
       Z.of_nat (length pre) ≤ metadataMaxKeys lim →
       totalSize pre ≤ metadataMaxSize lim →
       (metadataMaxKeys lim < Z.of_nat (length pre) + 1 →
        quotaCheck lim tx
        = xusercodeErrorf "METADATA TOOMANY"
            "too many metadata entries, 1000 allowed in total")
       ∧ (Z.of_nat (length pre) + 1 ≤ metadataMaxKeys lim →
          metadataMaxSize lim < totalSize pre + rowSize a →
          quotaCheck lim tx
          = xusercodeErrorf ("METADATA MAXSIZE " +:+ pretty (metadataMaxSize lim))
              "metadata entry values too large, total maximum size is 1MB"))
  ∧ (overQuota lim (rows tx) = false ↔
     quotaCheck lim tx = Ok (Z.of_nat (length (rows tx)), totalSize (rows tx)))
  ∧ (overQuota lim (rows tx) = true ↔
     quotaCheck lim tx = tooMany ∨ quotaCheck lim tx = tooLarge lim)
  ∧ tooMany ≠ tooLarge lim
  ∧ metadataMaxKeys defaultLimits = 1000
  ∧ metadataMaxSize defaultLimits = 1000000
  ∧ tooLarge defaultLimits
    = xusercodeErrorf "METADATA MAXSIZE 1000000"
        "metadata entry values too large, total maximum size is 1MB".
Proof.
  intros Hfits.
  pose proof (quotaCheck_closed tx Hfits) as Hq.
  pose proof sane as [Hk Hm]%andb_true_iff.
  apply Z.leb_le in Hk, Hm.
  set (K := metadataMaxKeys lim) in *. set (M := metadataMaxSize lim) in *.
  split; [|split; [|split; [|split; [|split; [|split; [|split]]]]]].
  - intros xmailbox mailboxName l tx0 mailboxID changes Hres Hset.
    by apply (setInTx_staged _ _ _ _ _ mailboxID).
  - intros pre a post Hrows Hpre Hsize.
    pose proof (rowSize_nonneg a). pose proof (totalSize_nonneg post).
    rewrite Hrows in Hq. rewrite length_app in Hq. simpl length in Hq.
    split.
    + intros Hlast. rewrite Hq.
      assert (Z.to_nat K = length pre) as -> by lia.
      rewrite firstn_app, Nat.sub_diag, firstn_all. simpl. rewrite app_nil_r.
      destruct (Z.ltb_spec M (totalSize pre)); [lia|].
      destruct (Z.ltb_spec K (Z.of_nat (length pre + S (length post)))); [done | lia].
    + intros Hroom Hbig. rewrite Hq.
      rewrite firstn_app.
      rewrite (firstn_all2 (n := Z.to_nat K) pre) by lia.
      assert (Z.to_nat K - length pre = S (Z.to_nat K - length pre - 1))%nat as -> by lia.
      simpl firstn. rewrite totalSize_app. simpl totalSize.
      pose proof (totalSize_nonneg (firstn (Z.to_nat K - length pre - 1) post)).
      match goal with |- (if ?c then _ else _) = _ => destruct c eqn:Hc end; [done|].
      apply Z.ltb_ge in Hc. lia.
  - by apply quotaCheck_verdict.
  - by apply quotaCheck_verdict.
  - apply tooMany_tooLarge.
  - reflexivity.
  - reflexivity.
  - reflexivity.
Qed.

End quota.

Lemma quota_scan_witness :
  let row k := {| ID := 0; MailboxID := k; Key := "/private/comment"; IsString := true;
                  Value := Some ["a"%byte] |} in
  let tx := {| rows := [row 0; row 1; row 2]; sequence := 3 |} in
  quotaCheck {| metadataMaxKeys := 2; metadataMaxSize := 1000 |} tx = tooMany
  ∧ quotaCheck {| metadataMaxKeys := 3; metadataMaxSize := 40 |} tx
    = tooLarge {| metadataMaxKeys := 3; metadataMaxSize := 40 |}.
Proof.
  intros row tx. split.
  - destruct (quota_scan {| metadataMaxKeys := 2; metadataMaxSize := 1000 |} eq_refl tx)
      as (_ & Hrow & _); [reflexivity|].
    apply (Hrow [row 0; row 1] (row 2) []);
      [reflexivity | unfold totalSize, rowSize; simpl; lia ..].
  - destruct (quota_scan {| metadataMaxKeys := 3; metadataMaxSize := 40 |} eq_refl tx)
      as (_ & Hrow & _); [reflexivity|].
    apply (Hrow [row 0; row 1] (row 2) []);
      [reflexivity | unfold totalSize, rowSize; simpl; lia ..].
Defined.

(** ** The write transaction of SETMETADATA *)

(** A command that fails inside its transaction leaves the table and the
    published changes as they were. *)
Lemma cmdSetmetadata_rollback (lim : limits) (xmailbox : string → result Z)
    (mailboxName : string) (l : list Annotation) (acc : account) (e : error) :
  checkEntryNames l = Ok () →
  setInTx lim xmailbox mailboxName l (db acc) = Err e →
  cmdSetmetadata lim xmailbox mailboxName l acc
  = ({| db := db acc; opened := S (opened acc); published := published acc |}, Err e).
Proof.
  intros Hchk Htx. unfold cmdSetmetadata, xdbwrite. by rewrite Hchk, Htx.
Qed.

(** C2: when the table that a SET command has staged is over a quota
    limit, the command is rejected with a quota error and the transaction
    rolls back: the table of the account is the one from before the
    command and no change record is published. *)
Theorem setmetadata_quota_rollback (lim : limits) (xmailbox : string → result Z)
    (mailboxName : string) (l : list Annotation) (acc : account)
    (mailboxID : Z) (staged : Tx) (changes : list Change) :
  saneLimits lim = true →
  checkEntryNames l = Ok () →
  resolve xmailbox mailboxName = Ok mailboxID →
  setAll mailboxID mailboxName l (db acc, []) = Ok (staged, changes) →
  fitsInt (rows staged) = true →
  overQuota lim (rows staged) = true →
  ∃ code msg acc',
    cmdSetmetadata lim xmailbox mailboxName l acc = (acc', Err (UserError code msg))
    ∧ db acc' = db acc
    ∧ published acc' = published acc
    ∧ (code = "METADATA TOOMANY"%string
       ∨ code = ("METADATA MAXSIZE " +:+ pretty (metadataMaxSize lim))%string).
Proof.
  intros Hsane Hchk Hres Hset Hfits Hover.
  assert (∃ code msg,
            setInTx lim xmailbox mailboxName l (db acc) = Err (UserError code msg)
            ∧ (code = "METADATA TOOMANY"%string
               ∨ code = ("METADATA MAXSIZE " +:+ pretty (metadataMaxSize lim))%string))
    as (code & msg & Htx & Hcode).
  { rewrite (setInTx_staged lim _ _ _ _ _ _ _ Hres Hset).
    apply (quotaCheck_verdict lim Hsane staged Hfits) in Hover as [-> | ->].
    - eexists _, _. split; [reflexivity|]. by left.
    - eexists _, _. split; [reflexivity|]. by right. }
  exists code, msg. eexists. split.
  - by apply cmdSetmetadata_rollback.
  - done.
Qed.

Lemma setmetadata_quota_rollback_witness :
  let pair k := {| ID := 0; MailboxID := 0; Key := k; IsString := true;
                   Value := Some ["v"%byte] |} in
  let l := [pair "/private/a"; pair "/private/b"; pair "/private/c"]%string in
  let acc := {| db := {| rows := []; sequence := 0 |}; opened := 0; published := [] |} in
  let lim := {| metadataMaxKeys := 2; metadataMaxSize := 1000 * 1000 |} in
  ∃ code msg acc',
    cmdSetmetadata lim (λ _, Ok 1) "" l acc = (acc', Err (UserError code msg))
    ∧ rows (db acc') = []
    ∧ published acc' = [].
Proof.
  intros pair l acc lim.
  destruct (setmetadata_quota_rollback lim (λ _, Ok 1) "" l acc 0
              {| rows := [ {| ID := 1; MailboxID := 0; Key := "/private/a"; IsString := true;
                              Value := Some ["v"%byte] |};
                           {| ID := 2; MailboxID := 0; Key := "/private/b"; IsString := true;
                              Value := Some ["v"%byte] |};
                           {| ID := 3; MailboxID := 0; Key := "/private/c"; IsString := true;
                              Value := Some ["v"%byte] |} ];
                 sequence := 3 |}
              [ {| changeMailboxID := 0; changeMailboxName := ""; changeKey := "/private/a" |};
                {| changeMailboxID := 0; changeMailboxName := ""; changeKey := "/private/b" |};
                {| changeMailboxID := 0; changeMailboxName := ""; changeKey := "/private/c" |} ])
    as (code & msg & acc' & Hcmd & Hdb & Hpub & _);
    [reflexivity | reflexivity | reflexivity | reflexivity | reflexivity | reflexivity |].
  exists code, msg, acc'. split; [exact Hcmd|]. split.
  - rewrite Hdb. reflexivity.
  - rewrite Hpub. reflexivity.
Defined.

(** ** The parser primitives *)

Lemma len_toUpper (s : string) : len (toUpper s) = len s.
Proof. induction s as [|c s IH]; simpl; [done|]. by rewrite IH. Qed.

Lemma take_len (s : string) (p p' : parser) :
  take s p = Some p' → len p = (len s + len p')%nat.
Proof.
  unfold take. destruct (HasPrefix (toUpper p) s) eqn:Hp; [|done].
  intros [= <-]. apply HasPrefix_len in Hp. rewrite len_toUpper in Hp.
  rewrite len_strDrop. lia.
Qed.

Lemma xtake_ok (s : string) (p p' : parser) :
  xtake s p = Ok p' ↔ take s p = Some p'.
Proof.
  unfold xtake. destruct (take s p); [|done]. split; congruence.
Qed.

Lemma xtake_err (s : string) (p : parser) :
  take s p = None → isSyntaxError (xtake s p) = true.
Proof. unfold xtake. by intros ->. Qed.

Lemma digits_len (p : parser) : (len (digits p).2 <= len p)%nat.
Proof.
  induction p as [|c p IH]; simpl; [done|].
  destruct (isDigit c); simpl; [|lia].
  destruct (digits p) as [d r]; simpl in *. lia.
Qed.

Lemma parseUint_nonneg (s : string) (acc : Z) : 0 ≤ acc → 0 ≤ parseUint acc s.
Proof.
  revert acc; induction s as [|c s IH]; intros acc Hacc; simpl; [done|].
  apply IH. lia.
Qed.

Lemma xnumber_cases (p : parser) :
  isSyntaxError (xnumber p) = true
  ∨ ∃ v p', xnumber p = Ok (v, p') ∧ 0 ≤ v < 2 ^ 32 ∧ (len p' <= len p)%nat.
Proof.
  unfold xnumber. pose proof (digits_len p) as Hlen.
  destruct (digits p) as [d p']. simpl in Hlen.
  case_bool_decide; [by left|].
  destruct (Z.leb_spec (2 ^ 32) (parseUint 0 d)); [by left|].
  right. eexists _, _. split; [done|]. split; [|done].
  split; [by apply parseUint_nonneg | done].
Qed.

Lemma xtakelist_cases (l : list string) (p : parser) :
  (isSyntaxError (xtakelist l p) = true ∧ ∀ s, In s l → take s p = None)
  ∨ ∃ s p', xtakelist l p = Ok (s, p') ∧ In s l ∧ take s p = Some p'.
Proof.
  induction l as [|s l IH]; simpl; [by left|].
  destruct (take s p) as [p'|] eqn:Ht.
  - right. exists s, p'. auto.
  - destruct IH as [[He Hn]|(s' & p' & Hs & Hin & Ht')].
    + left. split; [done|]. intros s' [<-|Hs']; auto.
    + right. exists s', p'. auto.
Qed.

(** What one option does to the state: the four outcomes of [getOption]. *)
Lemma getOption_cases (o : getOptions) (p : parser) :
  isSyntaxError (getOption o p) = true
  ∨ ∃ o' p',
      getOption o p = Ok (o', p')
      ∧ (len p' < len p)%nat
      ∧ ((keywordAt p = Some KMaxsize ∧ optMaxSize o < 0 ∧ 0 ≤ optMaxSize o'
          ∧ optDepth o' = optDepth o)
         ∨ (keywordAt p = Some KDepth ∧ optDepth o = ""%string
            ∧ optDepth o' ≠ ""%string ∧ optMaxSize o' = optMaxSize o)).
Proof.
  unfold getOption, keywordAt.
  destruct (take "MAXSIZE" p) as [p1|] eqn:Hm.
  - apply take_len in Hm. unfold xspace.
    destruct (take " " p1) as [p2|] eqn:Hs.
    + rewrite (proj2 (xtake_ok _ _ _) Hs). apply take_len in Hs.
      ok_bind.
      destruct (xnumber_cases p2) as [He|(v & p3 & -> & Hv & Hl)].
      * left. by destruct (xnumber p2) as [[]|[]].
      * ok_bind.
        destruct (Z.leb_spec 0 (optMaxSize o)); [by left|].
        right. eexists _, _. split; [done|]. simpl in *. split; [lia|].
        left. repeat split; try done; lia.
    + left. pose proof (xtake_err _ _ Hs) as He.
      by destruct (xtake " " p1) as [|[]].
  - destruct (take "DEPTH" p) as [p1|] eqn:Hd; [|by left].
    apply take_len in Hd. unfold xspace.
    destruct (take " " p1) as [p2|] eqn:Hs.
    + rewrite (proj2 (xtake_ok _ _ _) Hs). apply take_len in Hs.
      ok_bind.
      destruct (xtakelist_cases ["0"; "1"; "INFINITY"]%string p2)
        as [[He _]|(s & p3 & -> & Hin & Ht)].
      * left. by destruct (xtakelist _ p2) as [[]|[]].
      * ok_bind.
        case_bool_decide as Ho; simpl; [|by left].
        right. eexists _, _. split; [done|]. apply take_len in Ht. simpl in *.
        split; [lia|]. right. repeat split; try done.
        destruct Hin as [<-|[<-|[<-|[]]]]; done.
    + left. pose proof (xtake_err _ _ Hs) as He.
      by destruct (xtake " " p1) as [|[]].
Qed.

(** ** The loop over the options *)

(** More fuel does not change the outcome of the loop. *)
Lemma optionLoop_more (fuel k : nat) (o : getOptions) (p : parser)
    (r : result (getOptions * parser)) :
  optionLoop fuel o p = Some r → optionLoop (fuel + k) o p = Some r.
Proof.
  revert o p; induction fuel as [|fuel IH]; intros o p; simpl; [done|].
  destruct (getOption o p) as [[o' p']|e]; [|done].
  destruct (take ")" p'); [done|].
  destruct (xspace p'); [|done]. apply IH.
Qed.

(** The loop ends before the fuel does: every round consumes input. *)
Lemma optionLoop_total (fuel : nat) (o : getOptions) (p : parser) :
  (len p < fuel)%nat → ∃ r, optionLoop fuel o p = Some r.
Proof.
  revert o p; induction fuel as [|fuel IH]; intros o p Hf; [lia|]. simpl.
  destruct (getOption_cases o p) as [He|(o' & p' & -> & Hl & _)].
  - destruct (getOption o p) as [|e]; [done|]. by eexists.
  - destruct (take ")" p') as [p''|]; [by eexists|].
    destruct (xspace p') as [p''|e] eqn:Hs; [|by eexists].
    apply IH. apply xtake_ok, take_len in Hs. simpl in Hs. lia.
Qed.

(** The loop from the start goes on as the loop from the state that the
    first rounds lead to. *)
Lemma roundsOf_loop (n fuel : nat) (o : getOptions) (p : parser)
    (ks : list keyword) (o' : getOptions) (p' : parser) :
  roundsOf n o p = Some (ks, o', p') →
  optionLoop (n + fuel) o p = optionLoop fuel o' p'.
Proof.
  revert o p ks; induction n as [|n IH]; intros o p ks; simpl.
  - by intros [= <- <- <-].
  - unfold oneRound.
    destruct (keywordAt p) as [k|]; [|done].
    destruct (getOption o p) as [[o1 p1]|e]; [|done].
    destruct (take ")" p1); [done|].
    destruct (xspace p1) as [p2|]; [|done].
    destruct (roundsOf n o1 p2) as [[[ks' o2] p3]|] eqn:Hr; [|done].
    intros [= <- <- <-]. by apply (IH _ _ ks').
Qed.

(** The options seen in earlier rounds are recorded in the state. *)
Lemma roundsOf_seen (n : nat) (o : getOptions) (p : parser)
    (ks : list keyword) (o' : getOptions) (p' : parser) :
  roundsOf n o p = Some (ks, o', p') →
  (0 ≤ optMaxSize o ∨ In KMaxsize ks → 0 ≤ optMaxSize o')
  ∧ (optDepth o ≠ ""%string ∨ In KDepth ks → optDepth o' ≠ ""%string).
Proof.
  revert o p ks; induction n as [|n IH]; intros o p ks; simpl.
  - intros [= <- <- <-]. simpl. tauto.
  - unfold oneRound.
    destruct (getOption_cases o p) as [He|(o1 & p1 & Hg & _ & Hk)].
    + destruct (keywordAt p); [|done]. by destruct (getOption o p) as [|[]].
    + rewrite Hg. destruct (keywordAt p) as [k|]; [|done].
      destruct (take ")" p1); [done|].
      destruct (xspace p1) as [p2|]; [|done].
      destruct (roundsOf n o1 p2) as [[[ks' o2] p3]|] eqn:Hr; [|done].
      intros [= <- <- <-]. destruct (IH _ _ _ Hr) as [IH1 IH2].
      split.
      * intros Hm. apply IH1.
        destruct Hk as [(Hk & _ & H1 & _)|(Hk & _ & _ & H1)]; [by left|].
        destruct Hm as [Hm|[Hm|Hm]]; [left; lia | congruence | by right].
      * intros Hd. apply IH2.
        destruct Hk as [(Hk & _ & _ & H1)|(Hk & _ & H1 & _)]; [|by left].
        destruct Hd as [Hd|[Hd|Hd]]; [left; congruence | congruence | by right].
Qed.

(** ** Options that the loop refuses *)

Lemma upperChar_delimiter (c : ascii) : isDelimiter (upperChar c) = isDelimiter c.
Proof. destruct c as [[] [] [] [] [] [] [] []]; reflexivity. Qed.

Lemma take_char (c d : ascii) (p : parser) :
  take (String c "") (String d p) = if bool_decide (upperChar d = c) then Some p else None.
Proof. unfold take. simpl. by rewrite andb_true_r. Qed.

(** After a word without delimiters, a character that is no delimiter
    stops the loop: it is neither the closing parenthesis nor a space. *)
Lemma stuck_after (p : parser) :
  p = ""%string ∨ (∃ c p', p = String c p' ∧ isDelimiter c = false) →
  take ")" p = None ∧ isSyntaxError (xspace p) = true.
Proof.
  intros [->|(c & p' & -> & Hc)]; [done|].
  unfold xspace, xtake. rewrite !take_char.
  rewrite <- upperChar_delimiter in Hc. unfold isDelimiter in Hc.
  apply orb_false_iff in Hc as [Hs Hp]. by rewrite Hs, Hp.
Qed.

(** When the parser takes the word [s] off an argument and a delimiter or
    the end of the line follows, the argument was [s], up to case. *)
Lemma argToken_taken (s : string) (p : parser) :
  HasPrefix (toUpper p) s = true →
  countChar " " s = O → countChar ")" s = O →
  strDrop (len s) p = ""%string
  ∨ (∃ c p', strDrop (len s) p = String c p' ∧ isDelimiter c = true) →
  toUpper (argToken p) = s.
Proof.
  revert p; induction s as [|a s IH]; intros p Hp Hsp Hpar Hrest; simpl in *.
  - destruct Hrest as [->|(c & p' & -> & Hc)]; [done|]. simpl. by rewrite Hc.
  - destruct p as [|d p]; simpl in *; [done|].
    apply andb_true_iff in Hp as [Hd Hp]. apply bool_decide_eq_true in Hd.
    assert (isDelimiter d = false) as Hnd.
    { rewrite <- upperChar_delimiter, Hd. unfold isDelimiter.
      repeat case_bool_decide; subst; simpl in *; done. }
    rewrite Hnd. simpl. rewrite Hd. f_equal.
    apply IH; [done| | |done].
    + destruct (bool_decide (a = " "%char)); simpl in *; [done | exact Hsp].
    + destruct (bool_decide (a = ")"%char)); simpl in *; [done | exact Hpar].
Qed.

(** An accepted DEPTH option: the keyword, a space and one of the words. *)
Lemma getOption_depth (o o' : getOptions) (p p' : parser) :
  keywordAt p = Some KDepth →
  getOption o p = Ok (o', p') →
  ∃ p1 p2 s,
    take "DEPTH" p = Some p1 ∧ take " " p1 = Some p2
    ∧ In s ["0"; "1"; "INFINITY"]%string ∧ take s p2 = Some p'.
Proof.
  unfold keywordAt, getOption.
  destruct (take "MAXSIZE" p); [done|].
  destruct (take "DEPTH" p) as [p1|]; [|done]. intros _.
  unfold xspace, xtake. destruct (take " " p1) as [p2|] eqn:Hs; [|done].
  ok_bind.
  destruct (xtakelist_cases ["0"; "1"; "INFINITY"]%string p2)
    as [[He _]|(s & p3 & -> & Hin & Ht)].
  - by destruct (xtakelist _ p2) as [[]|[]].
  - ok_bind.
    destruct (negb _); [done|]. intros [= _ <-].
    exists p1, p2, s. done.
Qed.

Lemma syntaxError_inv {A : Type} (r : result A) :
  isSyntaxError r = true → ∃ msg, r = Err (SyntaxError msg).
Proof. destruct r as [|[]]; try done. by eexists. Qed.

(** A round that starts at an option already seen, at a DEPTH with another
    argument than the three words, or at another keyword, ends the loop
    with a syntax error. *)
Lemma optionLoop_refuses (fuel : nat) (o : getOptions) (p : parser) :
  (keywordAt p = Some KMaxsize ∧ 0 ≤ optMaxSize o)
  ∨ (keywordAt p = Some KDepth ∧ optDepth o ≠ ""%string)
  ∨ (keywordAt p = Some KDepth
     ∧ ∀ w, depthArgument p = Some w → ¬ In w ["0"; "1"; "INFINITY"]%string)
  ∨ keywordAt p = None →
  ∃ msg, optionLoop (S fuel) o p = Some (Err (SyntaxError msg)).
Proof.
  pose proof @syntaxError_inv as Hsyn.
  intros Hcase. simpl.
  destruct (getOption_cases o p) as [He|(o' & p' & Hg & _ & Hk)].
  { apply Hsyn in He as [msg ->]. by exists msg. }
  rewrite Hg.
  destruct Hcase as [[Hkw Hm]|[[Hkw Hd]|[[Hkw Harg]|Hkw]]].
  - destruct Hk as [(_ & ? & _)|(? & _)]; [lia | congruence].
  - destruct Hk as [(? & _)|(_ & ? & _)]; congruence.
  - (* the argument of DEPTH *)
    destruct (getOption_depth _ _ _ _ Hkw Hg) as (p1 & p2 & s & Hd & Hs & Hin & Ht).
    assert (take ")" p' = None ∧ isSyntaxError (xspace p') = true) as [-> Hx].
    { unfold take in Ht. destruct (HasPrefix (toUpper p2) s) eqn:Hp; [|done].
      injection Ht as Ht.
      destruct p' as [|c r]; [by apply stuck_after; left|].
      destruct (isDelimiter c) eqn:Hc; [|apply stuck_after; right; by eexists _, _].
      exfalso. apply (Harg s); [|done].
      unfold depthArgument. rewrite Hd, Hs. f_equal.
      apply argToken_taken; [done| | |right; by eexists _, _].
      - by destruct Hin as [<-|[<-|[<-|[]]]].
      - by destruct Hin as [<-|[<-|[<-|[]]]]. }
    apply Hsyn in Hx as [msg ->]. by exists msg.
  - destruct Hk as [(? & _)|(? & _)]; congruence.
Qed.

(** ** The option list as a whole *)

(** With the list present, the command parses the options by the loop and
    then wants a space. *)
Lemma xgetmetadataOptions_list (p0 : parser) :
  xgetmetadataOptions (" (" +:+ p0)
  = match optionLoop (S (len p0)) noOptions p0 with
    | None => Err (RuntimePanic "out of fuel")
    | Some r => '(o, p) ← r; p ← xspace p; Ok (o, p)
    end.
Proof. reflexivity. Qed.

(** The errors of the loop are syntax errors. *)
Lemma optionLoop_syntax (fuel : nat) (o : getOptions) (p : parser) (e : error) :
  optionLoop fuel o p = Some (Err e) → ∃ msg, e = SyntaxError msg.
Proof.
  revert o p; induction fuel as [|fuel IH]; intros o p; simpl; [done|].
  destruct (getOption_cases o p) as [He|(o1 & p1 & -> & _)].
  - destruct (getOption o p) as [|[]]; try done. intros [= <-]. by eexists.
  - destruct (take ")" p1); [done|].
    unfold xspace, xtake. destruct (take " " p1); [apply IH|].
    intros [= <-]. by eexists.
Qed.

(** The command never runs out of fuel. *)
Lemma xgetmetadataOptions_fuel (p : parser) (msg : string) :
  xgetmetadataOptions p ≠ Err (RuntimePanic msg).
Proof.
  unfold xgetmetadataOptions, xspace, xtake.
  destruct (take " " p) as [p1|]; [|done]. ok_bind.
  destruct (take "(" p1) as [p2|]; [|done].
  destruct (optionLoop_total (S (len p2)) noOptions p2) as [r Hr]; [lia|].
  rewrite Hr. destruct r as [[o p3]|e].
  - ok_bind. by destruct (take " " p3).
  - apply optionLoop_syntax in Hr as [m ->]. done.
Qed.

(** An error of the loop in a later round is the error of the command. *)
Lemma refused_later (n : nat) (p0 : parser) (ks : list keyword)
    (o : getOptions) (p : parser) :
  roundsOf n noOptions p0 = Some (ks, o, p) →
  (∃ msg, optionLoop 1 o p = Some (Err (SyntaxError msg))) →
  isSyntaxError (xgetmetadataOptions (" (" +:+ p0)) = true.
Proof.
  intros Hr [msg Hlate]. rewrite xgetmetadataOptions_list.
  destruct (optionLoop_total (S (len p0)) noOptions p0) as [r Hloop]; [lia|].
  rewrite Hloop.
  pose proof (roundsOf_loop n 1 _ _ _ _ _ Hr) as Hn. rewrite Hlate in Hn.
  apply (optionLoop_more _ (S (len p0))) in Hn.
  apply (optionLoop_more _ (n + 1)) in Hloop.
  replace (n + 1 + S (len p0))%nat with (S (len p0) + (n + 1))%nat in Hn by lia.
  rewrite Hloop in Hn. by injection Hn as ->.
Qed.

(** C8: in the option list of GETMETADATA, wherever the loop stands after
    some rounds, a MAXSIZE after an earlier MAXSIZE, a DEPTH after an
    earlier DEPTH, a DEPTH whose argument is not 0, 1 or INFINITY, and any
    other keyword each make the command fail with a syntax error. *)
Theorem getmetadata_option_errors (n : nat) (p0 : parser) (ks : list keyword)
    (o : getOptions) (p : parser) :
  roundsOf n noOptions p0 = Some (ks, o, p) →
  (In KMaxsize ks → keywordAt p = Some KMaxsize →
   isSyntaxError (xgetmetadataOptions (" (" +:+ p0)) = true)
  ∧ (In KDepth ks → keywordAt p = Some KDepth →
     isSyntaxError (xgetmetadataOptions (" (" +:+ p0)) = true)
  ∧ (keywordAt p = Some KDepth →
     (∀ w, depthArgument p = Some w → ¬ In w ["0"; "1"; "INFINITY"]%string) →
     isSyntaxError (xgetmetadataOptions (" (" +:+ p0)) = true)
  ∧ (keywordAt p = None →
     isSyntaxError (xgetmetadataOptions (" (" +:+ p0)) = true).
Proof.
  intros Hr. destruct (roundsOf_seen _ _ _ _ _ _ Hr) as [Hm Hd].
  split; [|split; [|split]].
  - intros Hin Hkw. apply (refused_later _ _ _ _ _ Hr).
    apply optionLoop_refuses. left. split; [done|]. apply Hm. by right.
  - intros Hin Hkw. apply (refused_later _ _ _ _ _ Hr).
    apply optionLoop_refuses. right. left. split; [done|]. apply Hd. by right.
  - intros Hkw Harg. apply (refused_later _ _ _ _ _ Hr).
    apply optionLoop_refuses. right. right. left. done.
  - intros Hkw. apply (refused_later _ _ _ _ _ Hr).
    apply optionLoop_refuses. right. right. right. done.
Qed.

Lemma getmetadata_option_errors_witness :
  isSyntaxError (xgetmetadataOptions " (MAXSIZE 10 DEPTH 1 maxsize 20) INBOX /private/comment")
  = true
  ∧ isSyntaxError (xgetmetadataOptions " (DEPTH 1 MAXSIZE 10 depth 0) INBOX /private/comment")
    = true
  ∧ isSyntaxError (xgetmetadataOptions " (MAXSIZE 10 DEPTH 10) INBOX /private/comment")
    = true
  ∧ isSyntaxError (xgetmetadataOptions " (MAXSIZE 10 SIZE 10) INBOX /private/comment")
    = true.
Proof.
  split; [|split; [|split]].
  - destruct (getmetadata_option_errors 2
                "MAXSIZE 10 DEPTH 1 maxsize 20) INBOX /private/comment"
                [KMaxsize; KDepth] {| optMaxSize := 10; optDepth := "1" |}
                "maxsize 20) INBOX /private/comment") as (H & _); [reflexivity|].
    apply H; [simpl; left; reflexivity | reflexivity].
  - destruct (getmetadata_option_errors 2
                "DEPTH 1 MAXSIZE 10 depth 0) INBOX /private/comment"
                [KDepth; KMaxsize] {| optMaxSize := 10; optDepth := "1" |}
                "depth 0) INBOX /private/comment") as (_ & H & _); [reflexivity|].
    apply H; [simpl; left; reflexivity | reflexivity].
  - destruct (getmetadata_option_errors 1
                "MAXSIZE 10 DEPTH 10) INBOX /private/comment"
                [KMaxsize] {| optMaxSize := 10; optDepth := "" |}
                "DEPTH 10) INBOX /private/comment") as (_ & _ & H & _); [reflexivity|].
    apply H; [reflexivity|].
    intros w [= <-]. simpl. intros [H'|[H'|[H'|[]]]]; discriminate.
  - destruct (getmetadata_option_errors 1
                "MAXSIZE 10 SIZE 10) INBOX /private/comment"
                [KMaxsize] {| optMaxSize := 10; optDepth := "" |}
                "SIZE 10) INBOX /private/comment") as (_ & _ & _ & H); [reflexivity|].
    apply H. reflexivity.
Defined.

(** ** An option list holds at least one option *)

(** A list that the loop accepts has set MAXSIZE or DEPTH. *)
Lemma optionLoop_some (fuel : nat) (o o' : getOptions) (p p' : parser) :
  optionLoop fuel o p = Some (Ok (o', p')) →
  0 ≤ optMaxSize o' ∨ optDepth o' ≠ ""%string.
Proof.
  revert o p; induction fuel as [|fuel IH]; intros o p; simpl; [done|].
  destruct (getOption_cases o p) as [He|(o1 & p1 & Hg & _ & Hk)].
  { by destruct (getOption o p) as [|[]]. }
  rewrite Hg. destruct (take ")" p1) as [p2|].
  - intros [= <- <-].
    destruct Hk as [(_ & _ & ? & _)|(_ & _ & ? & _)]; [by left | by right].
  - destruct (xspace p1) as [p2|]; [|done]. apply IH.
Qed.

(** C9, as the code has it: the option list of GETMETADATA is optional,
    but a list that is present holds at least one option.  The empty list
    "()" is refused with a syntax error whatever follows it; a command
    that is accepted with a list has MAXSIZE or DEPTH set; without a list
    no option is set; a list with one option is accepted. *)
Theorem getmetadata_options_nonempty :
  (∀ rest, xgetmetadataOptions (" ()" +:+ rest)
           = xerrorf "unknown option for getmetadata, expected maxsize or depth")
  ∧ (∀ p0 o p, xgetmetadataOptions (" (" +:+ p0) = Ok (o, p) →
               0 ≤ optMaxSize o ∨ optDepth o ≠ ""%string)
  ∧ (∀ p0, take "(" p0 = None → xgetmetadataOptions (" " +:+ p0) = Ok (noOptions, p0))
  ∧ (∀ rest, xgetmetadataOptions (" (DEPTH 1) " +:+ rest)
             = Ok ({| optMaxSize := -1; optDepth := "1" |}, rest)).
Proof.
  split; [|split; [|split]].
  - reflexivity.
  - intros p0 o p. rewrite xgetmetadataOptions_list.
    destruct (optionLoop (S (len p0)) noOptions p0) as [[[o1 p1]|e]|] eqn:Hl; [|done..].
    ok_bind.
    destruct (xspace p1) as [p2|]; [|done]. intros [= <- <-].
    by apply (optionLoop_some _ _ _ _ _ Hl).
  - intros p0 Hp. unfold xgetmetadataOptions.
    assert (xspace (" " +:+ p0) = Ok p0) as -> by reflexivity.
    ok_bind. by rewrite Hp.
  - reflexivity.
Qed.

Lemma getmetadata_options_nonempty_witness :
  xgetmetadataOptions " () INBOX /private/comment"
  = xerrorf "unknown option for getmetadata, expected maxsize or depth"
  ∧ xgetmetadataOptions " (DEPTH 1) INBOX /private/comment"
    = Ok ({| optMaxSize := -1; optDepth := "1" |}, "INBOX /private/comment"%string).
Proof.
  destruct getmetadata_options_nonempty as (Hempty & _ & _ & Hone).
  split.
  - exact (Hempty " INBOX /private/comment"%string).
  - exact (Hone "INBOX /private/comment"%string).
Defined.

(** The claim as the spec states it fails: the empty option list is a
    syntax error. *)
Lemma empty_option_list_refused :
  isOk (xgetmetadataOptions " () INBOX /private/comment") = false
  ∧ isSyntaxError (xgetmetadataOptions " () INBOX /private/comment") = true.
Proof. split; reflexivity. Qed.

(** ** Parsed options are within the cases of the matcher *)

(** The options that a round of the loop can leave behind. *)
Lemma getOption_valid (o o' : getOptions) (p p' : parser) :
  validDepth (optDepth o) = true →
  -1 ≤ optMaxSize o < 2 ^ 32 →
  getOption o p = Ok (o', p') →
  validDepth (optDepth o') = true ∧ -1 ≤ optMaxSize o' < 2 ^ 32.
Proof.
  intros Hd Hm. unfold getOption, xspace, xtake.
  destruct (take "MAXSIZE" p) as [p1|].
  - destruct (take " " p1) as [p2|]; [|done]. ok_bind.
    destruct (xnumber_cases p2) as [He|(v & p3 & -> & Hv & _)].
    { by destruct (xnumber p2) as [[]|[]]. }
    ok_bind. destruct (0 <=? optMaxSize o); [done|].
    intros [= <- <-]. simpl. split; [done | lia].
  - destruct (take "DEPTH" p) as [p1|]; [|done].
    destruct (take " " p1) as [p2|]; [|done]. ok_bind.
    destruct (xtakelist_cases ["0"; "1"; "INFINITY"]%string p2)
      as [[He _]|(s & p3 & -> & Hin & _)].
    { by destruct (xtakelist _ p2) as [[]|[]]. }
    ok_bind. destruct (negb _); [done|].
    intros [= <- <-]. simpl. split; [|done].
    by destruct Hin as [<-|[<-|[<-|[]]]].
Qed.

Lemma optionLoop_valid (fuel : nat) (o o' : getOptions) (p p' : parser) :
  validDepth (optDepth o) = true →
  -1 ≤ optMaxSize o < 2 ^ 32 →
  optionLoop fuel o p = Some (Ok (o', p')) →
  validDepth (optDepth o') = true ∧ -1 ≤ optMaxSize o' < 2 ^ 32.
Proof.
  revert o p; induction fuel as [|fuel IH]; intros o p Hd Hm; simpl; [done|].
  destruct (getOption o p) as [[o1 p1]|e] eqn:Hg; [|done].
  destruct (getOption_valid _ _ _ _ Hd Hm Hg) as [Hd1 Hm1].
  destruct (take ")" p1) as [p2|].
  - by intros [= <- <-].
  - destruct (xspace p1) as [p2|]; [|done]. by apply IH.
Qed.

(** The matcher knows every depth that the parser lets through. *)
Lemma depthMatch_total (depth : string) (entryNames : gset string) (key : string) :
  validDepth depth = true → ∃ b, depthMatch depth entryNames key = Ok b.
Proof.
  intros Hd.
  pose proof (depthMatch_valid depth entryNames
                {| ID := 0; MailboxID := 0; Key := key; IsString := false; Value := None |} Hd)
    as H.
  simpl in H. by eexists.
Qed.

(** X1: whatever the option list of a GETMETADATA command was, the options
    that come out of a successful parse are ones the scan can handle: the
    depth is empty, 0, 1 or INFINITY, so that the matcher never ends in its
    "missing case for depth" error, and MAXSIZE is absent (-1) or an
    unsigned 32-bit number. *)
Theorem parsed_options_valid (p rest : parser) (o : getOptions) :
  xgetmetadataOptions p = Ok (o, rest) →
  validDepth (optDepth o) = true
  ∧ -1 ≤ optMaxSize o < 2 ^ 32
  ∧ ∀ entryNames key, ∃ b, depthMatch (optDepth o) entryNames key = Ok b.
Proof.
  intros Hp.
  assert (validDepth (optDepth o) = true ∧ -1 ≤ optMaxSize o < 2 ^ 32) as [Hd Hm].
  { revert Hp. unfold xgetmetadataOptions, xspace, xtake.
    destruct (take " " p) as [p1|]; [|done]. ok_bind.
    destruct (take "(" p1) as [p2|].
    - destruct (optionLoop (S (len p2)) noOptions p2) as [[[o1 p3]|e]|] eqn:Hl; [|done..].
      ok_bind. destruct (take " " p3); [|done]. intros [= <- <-].
      eapply optionLoop_valid; [| |exact Hl]; [reflexivity | simpl; lia].
    - intros [= <- <-]. simpl. split; [done | lia]. }
  split; [done|]. split; [done|]. intros entryNames key. by apply depthMatch_total.
Qed.

Lemma parsed_options_valid_witness :
  validDepth "INFINITY" = true
  ∧ -1 ≤ 4294967295 < 2 ^ 32
  ∧ ∀ entryNames key, ∃ b, depthMatch "INFINITY" entryNames key = Ok b.
Proof.
  exact (parsed_options_valid
           " (depth infinity maxsize 4294967295) INBOX /private/comment"
           "INBOX /private/comment"
           {| optMaxSize := 4294967295; optDepth := "INFINITY" |} eq_refl).
Defined.

(** ** A deeper search finds more *)

(** X2: what matches without DEPTH (or at depth 0) matches at depth 1, and
    what matches at depth 1 matches at depth INFINITY. *)
Theorem depthMatch_monotone (entryNames : gset string) (key : string) :
  (depthMatch "" entryNames key = Ok true → depthMatch "1" entryNames key = Ok true)
  ∧ (depthMatch "0" entryNames key = Ok true → depthMatch "1" entryNames key = Ok true)
  ∧ (depthMatch "1" entryNames key = Ok true →
     depthMatch "INFINITY" entryNames key = Ok true).
Proof.
  unfold depthMatch. simpl.
  destruct (bool_decide (key ∈ entryNames)); [done|].
  split; [done|]. split; [done|].
  rewrite entryLoop_one, entryLoop_infinity. intros [= H]. f_equal.
  apply existsb_exists in H as (s & Hin & Hs). apply existsb_exists.
  exists s. split; [done|]. by apply andb_true_iff in Hs as [? _].
Qed.


(** ** A whole SETMETADATA command *)

Lemma setAll_app (mailboxID : Z) (mailboxName : string) (l1 l2 : list Annotation)
    (st : Tx * list Change) :
  setAll mailboxID mailboxName (l1 ++ l2) st
  = (st' ← setAll mailboxID mailboxName l1 st; setAll mailboxID mailboxName l2 st').
Proof.
  revert st; induction l1 as [|a l1 IH]; intros st; simpl; [done|].
  destruct (setEach mailboxID mailboxName st a) as [st1|e]; [|done].
  ok_bind. apply IH.
Qed.

(** On a well-formed table every pair goes through and adds at most one
    change record. *)
Lemma setEach_ok (mailboxID : Z) (mailboxName : string) (tx : Tx)
    (changes : list Change) (a : Annotation) :
  wfTx tx = true →
  ∃ tx' delta,
    setEach mailboxID mailboxName (tx, changes) a = Ok (tx', changes ++ delta)
    ∧ wfTx tx' = true ∧ (length delta <= 1)%nat.
Proof.
  intros Hwf.
  pose proof (setEach_cases mailboxID mailboxName tx changes a Hwf) as Hc.
  destruct (Value a) as [v|], (lookupRow mailboxID (Key a) tx) as [oa|].
  - destruct (differs oa a).
    + eexists _, [_]. split; [exact Hc|]. split; [by eapply setEach_wf | simpl; lia].
    + eexists _, []. rewrite app_nil_r. split; [exact Hc|].
      split; [by eapply setEach_wf | simpl; lia].
  - eexists _, [_]. split; [exact Hc|]. split; [by eapply setEach_wf | simpl; lia].
  - eexists _, [_]. split; [exact Hc|]. split; [by eapply setEach_wf | simpl; lia].
  - eexists _, []. rewrite app_nil_r. split; [exact Hc|]. split; [done | simpl; lia].
Qed.

Lemma setAll_ok (mailboxID : Z) (mailboxName : string) (l : list Annotation)
    (tx : Tx) (changes : list Change) :
  wfTx tx = true →
  ∃ tx' delta,
    setAll mailboxID mailboxName l (tx, changes) = Ok (tx', changes ++ delta)
    ∧ wfTx tx' = true ∧ (length delta <= length l)%nat.
Proof.
  revert tx changes; induction l as [|a l IH]; intros tx changes Hwf; cbn [setAll].
  - exists tx, []. rewrite app_nil_r. done.
  - destruct (setEach_ok mailboxID mailboxName tx changes a Hwf)
      as (tx1 & d1 & -> & Hwf1 & Hd1).
    ok_bind. destruct (IH tx1 (changes ++ d1) Hwf1) as (tx2 & d2 & -> & Hwf2 & Hd2).
    exists tx2, (d1 ++ d2). rewrite app_assoc. split; [done|]. split; [done|].
    rewrite length_app. simpl length. lia.
Qed.

(** What a command that ends with the tagged OK has done. *)
Lemma cmdSetmetadata_ok_inv (lim : limits) (xmailbox : string → result Z)
    (mailboxName : string) (l : list Annotation) (acc acc' : account) :
  cmdSetmetadata lim xmailbox mailboxName l acc = (acc', Ok ()) →
  ∃ mailboxID changes n size,
    checkEntryNames l = Ok ()
    ∧ resolve xmailbox mailboxName = Ok mailboxID
    ∧ setAll mailboxID mailboxName l (db acc, []) = Ok (db acc', changes)
    ∧ quotaCheck lim (db acc') = Ok (n, size)
    ∧ opened acc' = S (opened acc)
    ∧ published acc' = published acc ++ changes.
Proof.
  unfold cmdSetmetadata, xdbwrite, setInTx, resolve.
  destruct (checkEntryNames l) as [[]|e] eqn:Hchk; [|done].
  destruct (if bool_decide (mailboxName = ""%string) then Ok 0 else xmailbox mailboxName)
    as [mailboxID|e]; [|done].
  ok_bind.
  destruct (setAll mailboxID mailboxName l (db acc, [])) as [[tx' changes]|e] eqn:Hset;
    [|done].
  ok_bind. destruct (quotaCheck lim tx') as [[n size]|e] eqn:Hq; [|done].
  ok_bind. intros [= <-]. simpl. by exists mailboxID, changes, n, size.
Qed.

Lemma checkEntryNames_all (l : list Annotation) :
  checkEntryNames l = Ok () → namesChecked l = true.
Proof.
  induction l as [|a l IH]; simpl; [done|].
  destruct (checkEntryName (Key a)) as [[]|e]; [|done]. ok_bind. exact IH.
Qed.

(** A pair brings no entry name into the table but its own. *)
Lemma setEach_names (mailboxID : Z) (mailboxName : string) (st st' : Tx * list Change)
    (a : Annotation) :
  setEach mailboxID mailboxName st a = Ok st' →
  isOk (checkEntryName (Key a)) = true →
  namesChecked (rows st.1) = true → namesChecked (rows st'.1) = true.
Proof.
  destruct st as [tx changes]. unfold setEach, namesChecked. simpl.
  intros Hset Ha Hrows. rewrite forallb_forall in Hrows.
  destruct (isNil (Value a)).
  - injection Hset as <-. simpl. apply forallb_forall.
    intros r [Hr _]%filter_In. by apply Hrows.
  - unfold qGet, txInsert, txUpdate in Hset.
    destruct (List.filter _ (rows tx)) as [|oa [|? ?]] eqn:Hf; [| |done].
    + simpl in Hset. destruct (existsb _ (rows tx)); [done|].
      injection Hset as <-. simpl. apply forallb_forall.
      intros r [Hr|[<-|[]]]%in_app_or; [by apply Hrows | done].
    + simpl in Hset. destruct (existsb _ (rows tx)); [|done].
      injection Hset as <-. simpl. apply forallb_forall.
      intros r (x & <- & Hx)%in_map_iff. case_bool_decide; [|by apply Hrows].
      simpl. apply Hrows.
      assert (In oa (List.filter (queryKey mailboxID (Key a)) (rows tx))) as Hoa
        by (rewrite Hf; by left).
      by apply filter_In in Hoa as [? _].
Qed.

Lemma setAll_names (mailboxID : Z) (mailboxName : string) (l : list Annotation)
    (st st' : Tx * list Change) :
  setAll mailboxID mailboxName l st = Ok st' →
  namesChecked l = true →
  namesChecked (rows st.1) = true → namesChecked (rows st'.1) = true.
Proof.
  revert st; induction l as [|a l IH]; intros st; cbn [setAll].
  - by intros [= <-].
  - destruct (setEach mailboxID mailboxName st a) as [st1|e] eqn:Hs; [|done].
    ok_bind. intros Hall [Ha Hl]%andb_true_iff Hrows.
    apply (IH st1); [done..|]. by apply (setEach_names _ _ _ _ _ Hs).
Qed.

(** X3: a SETMETADATA command that ends with the tagged OK leaves a table
    that is within both quota limits and still has unique primary keys and
    at most one row per mailbox and entry name; it has opened one
    transaction and published at most one change record per pair. *)
Theorem setmetadata_keeps_quota (lim : limits) (xmailbox : string → result Z)
    (mailboxName : string) (l : list Annotation) (acc acc' : account) :
  saneLimits lim = true →
  wfTx (db acc) = true →
  cmdSetmetadata lim xmailbox mailboxName l acc = (acc', Ok ()) →
  fitsInt (rows (db acc')) = true →
  wfTx (db acc') = true
  ∧ Z.of_nat (length (rows (db acc'))) ≤ metadataMaxKeys lim
  ∧ totalSize (rows (db acc')) ≤ metadataMaxSize lim
  ∧ opened acc' = S (opened acc)
  ∧ ∃ changes, published acc' = published acc ++ changes
               ∧ (length changes <= length l)%nat.
Proof.
  intros Hsane Hwf Hcmd Hfits.
  apply cmdSetmetadata_ok_inv in Hcmd
    as (mailboxID & changes & n & size & _ & _ & Hset & Hq & Hop & Hpub).
  destruct (setAll_ok mailboxID mailboxName l (db acc) [] Hwf)
    as (tx' & delta & Hset' & Hwf' & Hlen).
  rewrite Hset in Hset'. injection Hset' as <- ->.
  assert (overQuota lim (rows (db acc')) = false) as Hover.
  { destruct (quotaCheck_verdict lim Hsane (db acc') Hfits) as [_ Hv].
    apply not_true_iff_false. intros [Hm|Hm]%Hv; rewrite Hq in Hm; done. }
  unfold overQuota in Hover. apply orb_false_iff in Hover as [Hk Hs].
  apply Z.ltb_ge in Hk, Hs.
  split; [done|]. split; [done|]. split; [done|]. split; [done|].
  by exists delta.
Qed.

Lemma setmetadata_keeps_quota_witness :
  let pair k := {| ID := 0; MailboxID := 0; Key := k; IsString := true;
                   Value := Some ["v"%byte] |} in
  let acc := {| db := {| rows := []; sequence := 0 |}; opened := 0; published := [] |} in
  let lim := {| metadataMaxKeys := 2; metadataMaxSize := 1000 |} in
  ∃ acc', cmdSetmetadata lim (λ _, Ok 1) "" [pair "/private/a"; pair "/private/b"]%string acc
          = (acc', Ok ())
          ∧ wfTx (db acc') = true
          ∧ Z.of_nat (length (rows (db acc'))) ≤ 2.
Proof.
  intros pair acc lim. eexists. split; [reflexivity|].
  match goal with
  | |- wfTx (db ?a) = true ∧ _ =>
      destruct (setmetadata_keeps_quota lim (λ _, Ok 1) ""
                  [pair "/private/a"; pair "/private/b"]%string acc a
                  eq_refl eq_refl eq_refl eq_refl) as (Hwf & Hk & _)
  end.
  split; [exact Hwf | exact Hk].
Defined.

(** X4: when every entry name of the table passes the checks on entry
    names (it starts with "/private/", and below "/private/vendor" it has
    at least four components), this is still so after a command that ends
    with the tagged OK. *)
Theorem setmetadata_keeps_names (lim : limits) (xmailbox : string → result Z)
    (mailboxName : string) (l : list Annotation) (acc acc' : account) :
  namesChecked (rows (db acc)) = true →
  cmdSetmetadata lim xmailbox mailboxName l acc = (acc', Ok ()) →
  namesChecked (rows (db acc')) = true
  ∧ ∀ a, In a (rows (db acc')) → HasPrefix (Key a) "/private/" = true.
Proof.
  intros Hnames Hcmd.
  apply cmdSetmetadata_ok_inv in Hcmd
    as (mailboxID & changes & n & size & Hchk & _ & Hset & _).
  assert (namesChecked (rows (db acc')) = true) as Hall.
  { apply (setAll_names _ _ _ _ _ Hset); [by apply checkEntryNames_all | done]. }
  split; [done|]. intros a Ha. unfold namesChecked in Hall.
  rewrite forallb_forall in Hall. specialize (Hall a Ha).
  destruct (HasPrefix (Key a) "/private/") eqn:Hp; [done|].
  by rewrite (checkEntryName_not_private _ Hp) in Hall.
Qed.

Lemma setmetadata_keeps_names_witness :
  let pair k := {| ID := 0; MailboxID := 0; Key := k; IsString := true;
                   Value := Some ["v"%byte] |} in
  let acc := {| db := {| rows := []; sequence := 0 |}; opened := 0; published := [] |} in
  ∃ acc', cmdSetmetadata defaultLimits (λ _, Ok 1) ""
            [pair "/private/a"; pair "/private/vendor/acme/x"]%string acc
          = (acc', Ok ())
          ∧ namesChecked (rows (db acc')) = true.
Proof.
  intros pair acc. eexists. split; [reflexivity|].
  match goal with
  | |- namesChecked (rows (db ?a)) = true =>
      destruct (setmetadata_keeps_names defaultLimits (λ _, Ok 1) ""
                  [pair "/private/a"; pair "/private/vendor/acme/x"]%string acc a
                  eq_refl eq_refl) as (Hn & _)
  end.
  exact Hn.
Defined.


(** ** What a SETMETADATA command leaves alone *)

Lemma filter_filter_negb (sel q : Annotation → bool) (l : list Annotation) :
  (∀ r, q r = true → sel r = false) →
  List.filter sel (List.filter (λ r, negb (q r)) l) = List.filter sel l.
Proof.
  intros Hq. induction l as [|r l IH]; simpl; [done|].
  destruct (q r) eqn:Hr; simpl.
  - by rewrite (Hq r Hr).
  - by rewrite IH.
Qed.

Lemma filter_snoc_false (sel : Annotation → bool) (l : list Annotation) (x : Annotation) :
  sel x = false → List.filter sel (l ++ [x]) = List.filter sel l.
Proof. intros Hx. rewrite List.filter_app. simpl. rewrite Hx. by rewrite app_nil_r. Qed.

Lemma filter_map_same (sel : Annotation → bool) (g : Annotation → Annotation)
    (l : list Annotation) :
  (∀ r, In r l → g r = r ∨ (sel r = false ∧ sel (g r) = false)) →
  List.filter sel (List.map g l) = List.filter sel l.
Proof.
  induction l as [|r l IH]; intros Hg; simpl; [done|].
  rewrite IH by (intros; apply Hg; by right).
  destruct (Hg r (or_introl eq_refl)) as [->|[-> ->]]; done.
Qed.

(** A pair touches no row but the one for its mailbox and entry name. *)
Lemma setEach_frame (sel : Annotation → bool) (mailboxID : Z) (mailboxName : string)
    (tx tx' : Tx) (changes changes' : list Change) (a : Annotation) :
  wfTx tx = true →
  (∀ r, MailboxID r = mailboxID → Key r = Key a → sel r = false) →
  setEach mailboxID mailboxName (tx, changes) a = Ok (tx', changes') →
  List.filter sel (rows tx') = List.filter sel (rows tx).
Proof.
  intros Hwf Hsel. rewrite (setEach_cases _ _ _ _ _ Hwf).
  pose proof Hwf as (Hid & _ & _)%wfTx_spec.
  destruct (Value a) as [v|], (lookupRow mailboxID (Key a) tx) as [oa|] eqn:Hl;
    intros [= <- _]; simpl; [| | |done].
  - unfold lookupRow in Hl. pose proof (find_some _ _ Hl) as [Hin [Hk Hm]%queryKey_spec].
    apply filter_map_same. intros r Hr. case_bool_decide as Hc; [|by left].
    right. rewrite (sameID_eq _ _ _ Hid Hr Hin Hc).
    split; by apply Hsel.
  - apply filter_snoc_false. by apply Hsel.
  - apply filter_filter_negb. intros r [Hk Hm]%queryKey_spec. by apply Hsel.
Qed.

Lemma setAll_frame (sel : Annotation → bool) (mailboxID : Z) (mailboxName : string)
    (l : list Annotation) (tx tx' : Tx) (changes changes' : list Change) :
  wfTx tx = true →
  (∀ a r, In a l → MailboxID r = mailboxID → Key r = Key a → sel r = false) →
  setAll mailboxID mailboxName l (tx, changes) = Ok (tx', changes') →
  List.filter sel (rows tx') = List.filter sel (rows tx).
Proof.
  revert tx changes; induction l as [|a l IH]; intros tx changes Hwf Hsel; cbn [setAll].
  - by intros [= <- _].
  - destruct (setEach mailboxID mailboxName (tx, changes) a) as [[tx1 ch1]|e] eqn:Hs;
      [|done].
    ok_bind. intros Hall.
    assert (wfTx tx1 = true) as Hwf1 by by eapply setEach_wf.
    rewrite (IH tx1 ch1 Hwf1); [| |exact Hall].
    + apply (setEach_frame sel mailboxID mailboxName tx tx1 changes ch1 a Hwf);
        [|exact Hs].
      intros r. apply Hsel. by left.
    + intros b r Hb. apply Hsel. by right.
Qed.

Lemma find_filter (f : Annotation → bool) (l : list Annotation) :
  List.find f l = head (List.filter f l).
Proof.
  induction l as [|a l IH]; simpl; [done|]. by destruct (f a).
Qed.

(** The row that a pair leaves behind for its own entry name. *)
Lemma setEach_lookup (mailboxID : Z) (mailboxName : string)
    (tx tx' : Tx) (changes changes' : list Change) (a : Annotation) :
  wfTx tx = true →
  setEach mailboxID mailboxName (tx, changes) a = Ok (tx', changes') →
  lookupRow mailboxID (Key a) tx'
  = match Value a with
    | None => None
    | Some _ => Some (match lookupRow mailboxID (Key a) tx with
                      | Some oa => updated oa a
                      | None => inserted mailboxID tx a
                      end)
    end.
Proof.
  intros Hwf. rewrite (setEach_cases _ _ _ _ _ Hwf).
  pose proof Hwf as (Hid & _ & _)%wfTx_spec.
  destruct (Value a) as [v|] eqn:Hv, (lookupRow mailboxID (Key a) tx) as [oa|] eqn:Hl;
    intros [= <- _]; unfold lookupRow in *; simpl.
  - apply update_find; [done..|].
    pose proof (find_some _ _ Hl) as [_ [Hk Hm]%queryKey_spec]. by apply queryKey_spec.
  - rewrite (find_snoc_none _ _ _ Hl). unfold inserted, queryKey. simpl.
    by rewrite !bool_decide_eq_true_2.
  - apply find_filter_negb.
  - exact Hl.
Qed.

(** ** GETMETADATA of one entry name *)

Lemma getEach_nomax (o : getOptions) (entryNames : gset string)
    (g : gathered) (a : Annotation) :
  optMaxSize o < 0 →
  validDepth (optDepth o) = true →
  getEach o entryNames g a
  = Ok (if matched (optDepth o) entryNames a
        then {| annotations := annotations g ++ [a]; longentries := longentries g |}
        else g).
Proof.
  intros Hm Hd. unfold getEach. rewrite (depthMatch_valid _ _ _ Hd). ok_bind.
  destruct (matched (optDepth o) entryNames a); simpl; [|done].
  by destruct (Z.leb_spec 0 (optMaxSize o)); [lia|].
Qed.

(** Without MAXSIZE the scan leaves nothing out. *)
Lemma getEach_scan_all (o : getOptions) (entryNames : gset string)
    (l : list Annotation) (g : gathered) :
  optMaxSize o < 0 →
  validDepth (optDepth o) = true →
  ForEach (getEach o entryNames) l g
  = Ok {| annotations := annotations g ++ List.filter (matched (optDepth o) entryNames) l;
          longentries := longentries g |}.
Proof.
  intros Hm Hd. revert g; induction l as [|a l IH]; intros g.
  - simpl. rewrite app_nil_r. by destruct g.
  - cbn [ForEach List.filter]. rewrite (getEach_nomax _ _ _ _ Hm Hd). ok_bind.
    rewrite IH. destruct (matched (optDepth o) entryNames a); simpl; [|done].
    by rewrite <- app_assoc.
Qed.

Lemma matched_single (key : string) (r : Annotation) :
  matched "" {[ key ]} r = bool_decide (Key r = key).
Proof.
  unfold matched, depthMatch. simpl. apply bool_decide_ext. set_solver.
Qed.

Lemma filter_single (mailboxID : Z) (key : string) (l : list Annotation) :
  List.filter (matched "" {[ key ]}) (filterMailbox mailboxID l)
  = List.filter (queryKey mailboxID key) l.
Proof.
  unfold filterMailbox. induction l as [|r l IH]; simpl; [done|].
  unfold queryKey at 1.
  destruct (bool_decide (MailboxID r = mailboxID)); simpl.
  - rewrite matched_single, IH, andb_true_r. done.
  - rewrite IH, andb_false_r. done.
Qed.

(** A GET of one entry name without options answers with the stored row of
    the mailbox for that name, if there is one. *)
Lemma get_single (xmailbox : string → result Z) (mailboxName : string)
    (key : string) (tx : Tx) (mailboxID : Z) :
  wfTx tx = true →
  resolve xmailbox mailboxName = Ok mailboxID →
  cmdGetmetadata xmailbox noOptions mailboxName {[ key ]} tx
  = Ok {| untagged := match lookupRow mailboxID key tx with
                      | Some r => Some (mailboxName, [r])
                      | None => None
                      end;
          status := OKPlain |}.
Proof.
  intros Hwf Hres. unfold cmdGetmetadata. unfold resolve in Hres. rewrite Hres.
  ok_bind. rewrite getEach_scan_all by (simpl; done || lia). ok_bind.
  unfold respond. simpl. rewrite filter_single, (query_rows _ _ _ Hwf).
  by destruct (lookupRow mailboxID key tx).
Qed.


(** ** SETMETADATA, then GETMETADATA *)

(** X5: after a SETMETADATA command that ends with the tagged OK, a GET of
    an entry name that the command has set answers with what the last
    pair for that name said: no untagged response when it removed the
    entry, and otherwise one annotation of this mailbox with the name and
    the value of the pair; the annotation also has the flag of the pair
    when the name was new. *)
Theorem set_then_get (lim : limits) (xmailbox : string → result Z)
    (mailboxName : string) (l1 l2 : list Annotation) (a : Annotation)
    (acc acc' : account) (mailboxID : Z) :
  wfTx (db acc) = true →
  resolve xmailbox mailboxName = Ok mailboxID →
  (∀ b, In b l2 → Key b ≠ Key a) →
  cmdSetmetadata lim xmailbox mailboxName (l1 ++ a :: l2) acc = (acc', Ok ()) →
  ∃ resp,
    cmdGetmetadata xmailbox noOptions mailboxName {[ Key a ]} (db acc') = Ok resp
    ∧ status resp = OKPlain
    ∧ match Value a with
      | None => untagged resp = None
      | Some v =>
          ∃ r, untagged resp = Some (mailboxName, [r])
               ∧ MailboxID r = mailboxID ∧ Key r = Key a ∧ Value r = Some v
               ∧ (lookupRow mailboxID (Key a) (db acc) = None →
                  (∀ b, In b l1 → Key b ≠ Key a) →
                  IsString r = IsString a)
      end.
Proof.
  intros Hwf Hres Hlast Hcmd.
  apply cmdSetmetadata_ok_inv in Hcmd
    as (mailboxID' & changes & n & size & _ & Hres' & Hset & _).
  rewrite Hres in Hres'. injection Hres' as <-.
  rewrite setAll_app in Hset.
  destruct (setAll_ok mailboxID mailboxName l1 (db acc) [] Hwf)
    as (tx1 & d1 & Hset1 & Hwf1 & _).
  rewrite Hset1 in Hset. revert Hset. ok_bind. cbn [setAll].
  destruct (setEach_ok mailboxID mailboxName tx1 ([] ++ d1) a Hwf1)
    as (tx2 & d2 & Hset2 & Hwf2 & _).
  rewrite Hset2. ok_bind. intros Hset3.
  assert (wfTx (db acc') = true) as Hwf'.
  { destruct (setAll_ok mailboxID mailboxName l2 tx2 (([] ++ d1) ++ d2) Hwf2)
      as (tx3 & d3 & Hset3' & Hwf3 & _).
    rewrite Hset3 in Hset3'. by injection Hset3' as ->. }
  assert (lookupRow mailboxID (Key a) (db acc') = lookupRow mailboxID (Key a) tx2) as Hsame.
  { unfold lookupRow. rewrite !find_filter. f_equal.
    apply (setAll_frame (queryKey mailboxID (Key a)) _ _ _ _ _ _ _ Hwf2) in Hset3;
      [exact Hset3|].
    intros b r Hb Hm Hk. apply not_true_iff_false.
    intros [Hk' _]%queryKey_spec. apply (Hlast b Hb). congruence. }
  exists {| untagged := match lookupRow mailboxID (Key a) (db acc') with
                        | Some r => Some (mailboxName, [r])
                        | None => None
                        end;
            status := OKPlain |}.
  split; [by apply get_single|]. split; [done|]. simpl.
  rewrite Hsame, (setEach_lookup _ _ _ _ _ _ _ Hwf1 Hset2).
  destruct (Value a) as [v|] eqn:Hv; [|done].
  eexists. split; [reflexivity|].
  destruct (lookupRow mailboxID (Key a) tx1) as [oa|] eqn:Hl1.
  - unfold lookupRow in Hl1.
    pose proof (find_some _ _ Hl1) as [_ [Hk Hm]%queryKey_spec].
    unfold updated. simpl. split; [done|]. split; [done|]. split; [done|].
    intros Hnone Hl1none. exfalso.
    assert (List.find (queryKey mailboxID (Key a)) tx1.(rows)
            = List.find (queryKey mailboxID (Key a)) (rows (db acc))) as Heq.
    { rewrite !find_filter. f_equal.
      apply (setAll_frame (queryKey mailboxID (Key a)) _ _ _ _ _ _ _ Hwf) in Hset1;
        [exact Hset1|].
      intros b r Hb Hm' Hk'. apply not_true_iff_false.
      intros [Hk'' _]%queryKey_spec. apply (Hl1none b Hb). congruence. }
    unfold lookupRow in Hnone. congruence.
  - unfold inserted. simpl. done.
Qed.

Lemma set_then_get_witness :
  let pair k v := {| ID := 0; MailboxID := 0; Key := k; IsString := true; Value := v |} in
  let acc := {| db := {| rows := []; sequence := 0 |}; opened := 0; published := [] |} in
  let l1 := [pair "/private/comment"%string (Some ["a"%byte])] in
  let a := pair "/private/comment"%string (Some ["b"%byte]) in
  let l2 := [pair "/private/other"%string None] in
  ∃ acc' resp r,
    cmdSetmetadata defaultLimits (λ _, Ok 1) "" (l1 ++ a :: l2) acc = (acc', Ok ())
    ∧ cmdGetmetadata (λ _, Ok 1) noOptions "" {[ "/private/comment"%string ]} (db acc')
      = Ok resp
    ∧ untagged resp = Some (""%string, [r])
    ∧ Value r = Some ["b"%byte].
Proof.
  intros pair acc l1 a l2. eexists.
  match goal with
  | |- ∃ resp r, ?c = (?acc', _) ∧ _ =>
      destruct (set_then_get defaultLimits (λ _, Ok 1) "" l1 l2 a acc acc' 0)
        as (resp & Hget & _ & r & Hun & _ & _ & Hv & _)
  end.
  - reflexivity.
  - reflexivity.
  - intros b [<-|[]]. simpl. discriminate.
  - reflexivity.
  - exists resp, r. split; [reflexivity|]. split; [exact Hget|]. split; [exact Hun|].
    exact Hv.
Defined.

(** A command that fails leaves the table as it was. *)
Lemma cmdSetmetadata_err (lim : limits) (xmailbox : string → result Z)
    (mailboxName : string) (l : list Annotation) (acc acc' : account) (e : error) :
  cmdSetmetadata lim xmailbox mailboxName l acc = (acc', Err e) →
  db acc' = db acc ∧ published acc' = published acc.
Proof.
  unfold cmdSetmetadata, xdbwrite.
  destruct (checkEntryNames l); [|by intros [= <- _]].
  destruct (setInTx lim xmailbox mailboxName l (db acc)) as [[tx' changes]|e'];
    [done|]. by intros [= <- _].
Qed.

(** X6: a SETMETADATA command, whatever its outcome, leaves every
    annotation alone that it does not name: a row of another mailbox, or a
    row for an entry name that is in none of its pairs, is in the table
    afterwards exactly when it was there before, and a GETMETADATA on
    another mailbox gets the same answer as before. *)
Theorem set_frame (lim : limits) (xmailbox : string → result Z)
    (mailboxName : string) (l : list Annotation) (acc acc' : account)
    (res : result unit) (mailboxID : Z) :
  wfTx (db acc) = true →
  resolve xmailbox mailboxName = Ok mailboxID →
  cmdSetmetadata lim xmailbox mailboxName l acc = (acc', res) →
  (∀ r, MailboxID r ≠ mailboxID ∨ (∀ a, In a l → Key a ≠ Key r) →
        In r (rows (db acc')) ↔ In r (rows (db acc)))
  ∧ (∀ o entryNames otherName otherID,
       resolve xmailbox otherName = Ok otherID → otherID ≠ mailboxID →
       cmdGetmetadata xmailbox o otherName entryNames (db acc')
       = cmdGetmetadata xmailbox o otherName entryNames (db acc)).
Proof.
  intros Hwf Hres Hcmd.
  destruct res as [[]|e].
  2:{ apply cmdSetmetadata_err in Hcmd as [-> _]. done. }
  apply cmdSetmetadata_ok_inv in Hcmd
    as (mailboxID' & changes & n & size & _ & Hres' & Hset & _).
  rewrite Hres in Hres'. injection Hres' as <-.
  split.
  - intros r Hr.
    set (sel := queryKey (MailboxID r) (Key r)).
    assert (List.filter sel (rows (db acc')) = List.filter sel (rows (db acc))) as Hf.
    { apply (setAll_frame sel _ _ _ _ _ _ _ Hwf) in Hset; [exact Hset|].
      intros a x Ha Hm Hk. apply not_true_iff_false.
      intros [Hk' Hm']%queryKey_spec.
      destruct Hr as [Hr|Hr]; [congruence|]. apply (Hr a Ha). congruence. }
    assert (sel r = true) as Hsel by by apply queryKey_spec.
    split; intros Hin.
    + assert (In r (List.filter sel (rows (db acc')))) as H by by apply filter_In.
      rewrite Hf in H. by apply filter_In in H as [? _].
    + assert (In r (List.filter sel (rows (db acc)))) as H by by apply filter_In.
      rewrite <- Hf in H. by apply filter_In in H as [? _].
  - intros o entryNames otherName otherID Hother Hne.
    unfold cmdGetmetadata. unfold resolve in Hother. rewrite Hother. ok_bind.
    unfold filterMailbox.
    apply (setAll_frame (λ x, bool_decide (MailboxID x = otherID)) _ _ _ _ _ _ _ Hwf)
      in Hset; [by rewrite Hset|].
    intros a x _ Hm _. apply bool_decide_eq_false. congruence.
Qed.

Lemma set_frame_witness :
  let row := {| ID := 1; MailboxID := 7; Key := "/private/comment"; IsString := true;
                Value := Some ["a"%byte] |} in
  let acc := {| db := {| rows := [row]; sequence := 1 |}; opened := 0; published := [] |} in
  let a := {| ID := 0; MailboxID := 0; Key := "/private/comment"; IsString := true;
              Value := None |} in
  ∃ acc', cmdSetmetadata defaultLimits (λ _, Ok 7) "" [a] acc = (acc', Ok ())
          ∧ (In row (rows (db acc')) ↔ In row (rows (db acc))).
Proof.
  intros row acc a. eexists. split; [reflexivity|].
  match goal with
  | |- In _ (rows (db ?acc')) ↔ _ =>
      destruct (set_frame defaultLimits (λ _, Ok 7) "" [a] acc acc' (Ok ()) 0
                  eq_refl eq_refl eq_refl) as [Hrows _]
  end.
  apply Hrows. left. simpl. discriminate.
Defined.

(** ** The same pair twice *)

Lemma map_update_id (oa : Annotation) (l : list Annotation) :
  pairwiseDistinct sameID l = true →
  In oa l →
  List.map (λ r, if bool_decide (ID r = ID oa) then oa else r) l = l.
Proof.
  intros Hid Hin. rewrite <- (map_id l) at 2. apply map_ext_in.
  intros r Hr. case_bool_decide as Hc; [|done].
  symmetry. by apply (sameID_eq l).
Qed.

(** X7: a pair that is applied a second time changes nothing in the table.
    It adds no change record either, unless it has a value and found, the
    first time, a stored row with the other flag: the stored flag is not
    updated, so that the pair differs from the stored row every time. *)
Theorem set_twice (mailboxID : Z) (mailboxName : string) (tx tx1 : Tx)
    (changes changes1 : list Change) (a : Annotation) :
  wfTx tx = true →
  setEach mailboxID mailboxName (tx, changes) a = Ok (tx1, changes1) →
  ∃ changes2,
    setEach mailboxID mailboxName (tx1, changes1) a = Ok (tx1, changes2)
    ∧ match Value a, lookupRow mailboxID (Key a) tx with
      | Some _, Some oa =>
          if Bool.eqb (IsString oa) (IsString a) then changes2 = changes1
          else changes2 = changes1 ++ [{| changeMailboxID := mailboxID;
                                          changeMailboxName := mailboxName;
                                          changeKey := Key a |}]
      | _, _ => changes2 = changes1
      end.
Proof.
  intros Hwf Hset.
  assert (wfTx tx1 = true) as Hwf1 by by eapply setEach_wf.
  pose proof (setEach_lookup _ _ _ _ _ _ _ Hwf Hset) as Hl1.
  rewrite (setEach_cases _ _ _ _ _ Hwf1), Hl1.
  destruct (Value a) as [v|] eqn:Hv; [|by eexists].
  pose proof Hwf1 as (Hid1 & _ & _)%wfTx_spec.
  set (oa1 := match lookupRow mailboxID (Key a) tx with
              | Some oa => updated oa a
              | None => inserted mailboxID tx a
              end) in *.
  assert (updated oa1 a = oa1) as Hup.
  { unfold oa1. destruct (lookupRow mailboxID (Key a) tx); unfold updated, inserted; done. }
  rewrite Hup.
  assert (In oa1 (rows tx1)) as Hin.
  { unfold lookupRow in Hl1. by apply find_some in Hl1 as [? _]. }
  rewrite (map_update_id oa1 _ Hid1 Hin).
  assert ({| rows := rows tx1; sequence := sequence tx1 |} = tx1) as -> by by destruct tx1.
  eexists. split; [reflexivity|].
  unfold oa1, differs, updated, inserted, bytesEqual. rewrite Hv. simpl.
  destruct (lookupRow mailboxID (Key a) tx) as [oa|]; simpl.
  - rewrite bool_decide_eq_true_2 by done. simpl.
    destruct (Bool.eqb (IsString oa) (IsString a)); simpl; done.
  - rewrite eqb_reflx, bool_decide_eq_true_2 by done. done.
Qed.

Lemma set_twice_witness :
  let oa := {| ID := 1; MailboxID := 0; Key := "/private/comment"; IsString := true;
               Value := Some ["a"%byte] |} in
  let tx := {| rows := [oa]; sequence := 1 |} in
  let a := {| ID := 0; MailboxID := 0; Key := "/private/comment"; IsString := false;
              Value := Some ["b"%byte] |} in
  let c := {| changeMailboxID := 0; changeMailboxName := ""; changeKey := "/private/comment" |} in
  ∃ tx1, setEach 0 "" (tx, []) a = Ok (tx1, [c])
         ∧ setEach 0 "" (tx1, [c]) a = Ok (tx1, [c; c]).
Proof.
  intros oa tx a c. eexists. split; [reflexivity|].
  match goal with
  | |- setEach _ _ (?tx1, _) _ = _ =>
      destruct (set_twice 0 "" tx tx1 [] [c] a eq_refl eq_refl) as (ch2 & Hset & Hch)
  end.
  simpl in Hch. rewrite Hch in Hset. exact Hset.
Defined.


(** ** DNS TXT record values *)

Lemma str_app_nil (b : string) : ("" +:+ b = b)%string.
Proof. reflexivity. Qed.

Lemma str_app_cons (x : ascii) (a b : string) :
  (String x a +:+ b = String x (a +:+ b))%string.
Proof. reflexivity. Qed.

Lemma str_app_assoc (a b c : string) : ((a +:+ b) +:+ c = a +:+ (b +:+ c))%string.
Proof.
  induction a as [|x a IH]; [done|]. rewrite !str_app_cons. f_equal. exact IH.
Qed.

Lemma str_app_empty_r (a : string) : (a +:+ "" = a)%string.
Proof. induction a as [|x a IH]; [done|]. rewrite str_app_cons. f_equal. exact IH. Qed.

Lemma strTake_strDrop (n : nat) (s : string) : (strTake n s +:+ strDrop n s = s)%string.
Proof.
  revert s; induction n as [|n IH]; intros [|c s]; simpl; try done.
  rewrite str_app_cons. f_equal. apply IH.
Qed.

Lemma len_strTake (n : nat) (s : string) : len (strTake n s) = Nat.min n (len s).
Proof.
  revert s; induction n as [|n IH]; intros [|c s]; simpl; try done.
  unfold len in IH. by rewrite IH.
Qed.

Lemma strTake_all (n : nat) (s : string) : (len s <= n)%nat → strTake n s = s.
Proof.
  unfold len. revert s; induction n as [|n IH]; intros [|c s]; simpl; try done; [lia|].
  intros H. rewrite IH; [done|]. lia.
Qed.

Lemma strDrop_all (n : nat) (s : string) : (len s <= n)%nat → strDrop n s = ""%string.
Proof.
  unfold len. revert s; induction n as [|n IH]; intros [|c s]; simpl; try done; [lia|].
  intros H. apply IH. lia.
Qed.

(** The slice of one round: the first 255 bytes, or all there is. *)
Lemma txt_round (s : string) :
  let n := if (255 <? len s)%nat then 255%nat else len s in
  strTake n s = strTake 255 s ∧ strDrop n s = strDrop 255 s.
Proof.
  cbv zeta. destruct (Nat.ltb_spec 255 (len s)) as [H|H]; [done|].
  rewrite (strTake_all (len s)), (strTake_all 255) by lia.
  rewrite (strDrop_all (len s)), (strDrop_all 255) by lia. done.
Qed.

Lemma txtLoop_step (fuel : nat) (c : ascii) (s r : string) :
  txtLoop (S fuel) (String c s) r
  = txtLoop fuel (strDrop 255 (String c s))
      ((if negb (bool_decide (r = ""%string)) then r +:+ " " else r)
       +:+ dquote +:+ strTake 255 (String c s) +:+ dquote)%string.
Proof.
  cbn [txtLoop]. change (0 <? len (String c s))%nat with true. cbv iota zeta.
  destruct (txt_round (String c s)) as [Ht Hd]. cbv zeta in Ht, Hd.
  by rewrite Ht, Hd.
Qed.

Lemma concat_cons (x : string) (l : list string) :
  String.concat "" (x :: l) = (x +:+ String.concat "" l)%string.
Proof. destruct l; simpl; [by rewrite str_app_empty_r | done]. Qed.

Ltac str_norm :=
  repeat first [rewrite str_app_assoc | rewrite str_app_cons | rewrite str_app_nil].

(** The loop with a result so far that is not empty: every further piece
    comes after a space, in quotes. *)
Lemma txtLoop_more (fuel : nat) (s r : string) :
  (len s <= fuel)%nat → r ≠ ""%string →
  txtLoop fuel s r
  = (r +:+ String.concat "" (List.map (λ c, " " +:+ quoted c) (pieces fuel 255 s)))%string.
Proof.
  revert s r; induction fuel as [|fuel IH]; intros s r Hlen Hr.
  - destruct s; [|simpl in Hlen; lia]. simpl. by rewrite str_app_empty_r.
  - destruct s as [|c s]; [simpl; by rewrite str_app_empty_r|].
    rewrite txtLoop_step. cbn [pieces List.map]. rewrite concat_cons.
    rewrite (bool_decide_eq_false_2 _ Hr). cbn [negb].
    rewrite IH.
    + unfold quoted. by str_norm.
    + rewrite len_strDrop. simpl in *. lia.
    + destruct r; [done|]. by rewrite !str_app_cons.
Qed.

Lemma concat_space (q : string) (l : list string) :
  String.concat " " (q :: l)
  = (q +:+ String.concat "" (List.map (λ c, " " +:+ c) l))%string.
Proof.
  revert q; induction l as [|x l IH]; intros q.
  - simpl. by rewrite str_app_empty_r.
  - change (String.concat " " (q :: x :: l))
      with (q +:+ " " +:+ String.concat " " (x :: l))%string.
    rewrite IH. cbn [List.map]. rewrite concat_cons. by str_norm.
Qed.

(** [TXTStrings] puts the pieces of the value in quotes, with a space
    between them. *)
Lemma TXTStrings_pieces (s : string) :
  TXTStrings s = String.concat " " (List.map quoted (pieces (len s) 255 s)).
Proof.
  unfold TXTStrings. destruct s as [|c s]; [done|].
  change (len (String c s)) with (S (len s)).
  rewrite txtLoop_step. cbn [pieces List.map].
  rewrite bool_decide_eq_true_2 by done. cbn [negb].
  rewrite txtLoop_more.
  - rewrite concat_space, List.map_map. unfold quoted. by str_norm.
  - rewrite len_strDrop. unfold len. simpl. lia.
  - unfold dquote. by rewrite !str_app_cons, str_app_nil.
Qed.

(** What the pieces are. *)
Lemma pieces_spec (fuel : nat) (s : string) :
  (len s <= fuel)%nat →
  String.concat "" (pieces fuel 255 s) = s
  ∧ (∀ c, In c (pieces fuel 255 s) → (1 <= len c <= 255)%nat)
  ∧ length (pieces fuel 255 s) = ((len s + 254) / 255)%nat
  ∧ (∀ i c, pieces fuel 255 s !! i = Some c → (S i < length (pieces fuel 255 s))%nat →
            len c = 255%nat).
Proof.
  revert s; induction fuel as [|fuel IH]; intros s Hlen.
  - destruct s; [|simpl in Hlen; lia]. simpl. repeat split; try done.
  - destruct s as [|c s]; [simpl; repeat split; done|].
    cbn [pieces].
    assert (len (strDrop 255 (String c s)) <= fuel)%nat as Hrest
      by (rewrite len_strDrop; lia).
    destruct (IH _ Hrest) as (Hcat & Hall & Hnum & Hfull).
    pose proof (len_strTake 255 (String c s)) as Htake.
    pose proof (len_strDrop 255 (String c s)) as Hdrop.
    split; [|split; [|split]].
    + rewrite concat_cons, Hcat. apply strTake_strDrop.
    + intros x [<-|Hx]; [|by apply Hall]. rewrite Htake.
      unfold len. cbn [String.length]. lia.
    + cbn [length]. rewrite Hnum, Hdrop.
      destruct (Nat.le_gt_cases (len (String c s)) 255) as [H|H].
      * assert (1 <= len (String c s))%nat by (unfold len; cbn [String.length]; lia).
        rewrite (Nat.div_small (len (String c s) - 255 + 254) 255) by lia.
        apply (Nat.div_unique _ 255 1 (len (String c s) - 1)); lia.
      * replace (len (String c s) + 254)%nat
          with ((len (String c s) - 255 + 254) + 1 * 255)%nat by lia.
        rewrite Nat.div_add by done. lia.
    + intros [|i] x Hx Hmore; cbn [length] in Hmore.
      * change (Some (strTake 255 (String c s)) = Some x) in Hx.
        apply (inj Some) in Hx. rewrite <- Hx, Htake.
        destruct (pieces fuel 255 (strDrop 255 (String c s))) as [|y l] eqn:Hp;
          [simpl in Hmore; lia|].
        assert (len (strDrop 255 (String c s)) ≠ 0%nat).
        { intros H0. destruct (strDrop 255 (String c s)); [|simpl in H0; lia].
          by destruct fuel. }
        lia.
      * change (pieces fuel 255 (strDrop 255 (String c s)) !! i = Some x) in Hx.
        apply (Hfull i x Hx). lia.
Qed.

(** X8: [TXTStrings] cuts the value into consecutive pieces, puts each in
    double quotes and separates them by one space.  The pieces put
    together are the value, byte for byte; none is empty or longer than
    255 bytes, all but the last have 255 bytes, and there are as few of
    them as this allows; the empty value gives the empty string. *)
Theorem TXTStrings_spec (s : string) :
  ∃ ps,
    TXTStrings s = String.concat " " (List.map (λ c, dquote +:+ c +:+ dquote)%string ps)
    ∧ String.concat "" ps = s
    ∧ (∀ c, In c ps → (1 <= len c <= 255)%nat)
    ∧ length ps = ((len s + 254) / 255)%nat
    ∧ (∀ i c, ps !! i = Some c → (S i < length ps)%nat → len c = 255%nat)
    ∧ (s = ""%string → TXTStrings s = ""%string).
Proof.
  exists (pieces (len s) 255 s).
  destruct (pieces_spec (len s) s) as (H1 & H2 & H3 & H4); [done|].
  split; [apply TXTStrings_pieces|]. split; [done|]. split; [done|].
  split; [done|]. split; [done|]. by intros ->.
Qed.

Lemma len_quoted (c : string) : len (quoted c) = (len c + 2)%nat.
Proof. unfold quoted, dquote. rewrite !len_app. unfold len. simpl. lia. Qed.

Lemma len_joined (x : string) (l : list string) :
  len (String.concat " " (List.map quoted (x :: l)))
  = (len (String.concat "" (x :: l)) + 3 * length (x :: l) - 1)%nat.
Proof.
  revert x; induction l as [|y l IH]; intros x.
  - change (String.concat " " (List.map quoted [x])) with (quoted x).
    change (String.concat "" [x]) with x. rewrite len_quoted. simpl. lia.
  - change (String.concat " " (List.map quoted (x :: y :: l)))
      with (quoted x +:+ " " +:+ String.concat " " (List.map quoted (y :: l)))%string.
    rewrite !len_app, IH, len_quoted, (concat_cons x), len_app.
    cbn [length]. change (len " ") with 1%nat. lia.
Qed.

(** X9: a value of at most 255 bytes that is not empty comes out as one
    quoted string, and the result of [TXTStrings] is in general three
    bytes longer than the value for every piece, less one. *)
Theorem TXTStrings_length (s : string) :
  ((0 < len s <= 255)%nat → TXTStrings s = (dquote +:+ s +:+ dquote)%string)
  ∧ (s ≠ ""%string →
     len (TXTStrings s) = (len s + 3 * ((len s + 254) / 255) - 1)%nat).
Proof.
  split.
  - intros [Hpos Hle]. rewrite TXTStrings_pieces.
    destruct s as [|c s]; [simpl in Hpos; lia|].
    change (len (String c s)) with (S (len s)) at 1. cbn [pieces List.map].
    rewrite strTake_all, strDrop_all by done.
    by destruct (len s).
  - intros Hne. rewrite TXTStrings_pieces.
    destruct (pieces_spec (len s) s) as (Hcat & _ & Hnum & _); [done|].
    destruct (pieces (len s) 255 s) as [|x l] eqn:Hp.
    + simpl in Hcat. congruence.
    + by rewrite len_joined, Hcat, Hnum.
Qed.


(** ** Flags of imported messages *)

Lemma oneOf_In (w : string) (l : list string) : oneOf w l = true → In w l.
Proof.
  unfold oneOf. rewrite existsb_exists. intros (x & Hx & Heq).
  apply bool_decide_eq_true in Heq. by subst.
Qed.

(** The fields of a record of flags decide it. *)
Lemma Flags_eq (f g : Flags) :
  Seen f = Seen g → Answered f = Answered g → Flagged f = Flagged g →
  Forwarded f = Forwarded g → Junk f = Junk g → Notjunk f = Notjunk g →
  Deleted f = Deleted g → Draft f = Draft g → Phishing f = Phishing g →
  MDNSent f = MDNSent g → f = g.
Proof. destruct f, g; simpl; intros; by subst. Qed.

Ltac flag_done :=
  repeat split; vm_compute; try done;
  repeat match goal with |- context [if ?b then _ else _] => destruct b end; done.

Ltac flag_cases H :=
  apply oneOf_In in H; simpl in H;
  repeat match type of H with
         | _ ∨ _ => destruct H as [H|H]
         | False => destruct H
         end; subst.

(** One keyword: the flags after [flagSet], field by field. *)
Lemma flagSet_fields (flags : Flags) (word : string) :
  Seen (flagSet flags word) = Seen flags
  ∧ Answered (flagSet flags word) = Answered flags
  ∧ Flagged (flagSet flags word) = Flagged flags
  ∧ Deleted (flagSet flags word) = Deleted flags
  ∧ Draft (flagSet flags word) = Draft flags
  ∧ Forwarded (flagSet flags word)
    = Forwarded flags || oneOf word ["forwarded"; "$forwarded"]
  ∧ Junk (flagSet flags word) = Junk flags || oneOf word ["junk"; "$junk"]
  ∧ Notjunk (flagSet flags word)
    = Notjunk flags || oneOf word ["notjunk"; "$notjunk"; "nonjunk"; "$nonjunk"]
  ∧ Phishing (flagSet flags word) = Phishing flags || oneOf word ["phishing"; "$phishing"]
  ∧ MDNSent (flagSet flags word) = MDNSent flags || oneOf word ["mdnsent"; "$mdnsent"].
Proof.
  unfold flagSet.
  destruct (oneOf word ["forwarded"; "$forwarded"]) eqn:H1;
    [flag_cases H1; destruct flags; flag_done|].
  destruct (oneOf word ["junk"; "$junk"]) eqn:H2;
    [flag_cases H2; destruct flags; flag_done|].
  destruct (oneOf word ["notjunk"; "$notjunk"; "nonjunk"; "$nonjunk"]) eqn:H3;
    [flag_cases H3; destruct flags; flag_done|].
  destruct (oneOf word ["phishing"; "$phishing"]) eqn:H4;
    [flag_cases H4; destruct flags; flag_done|].
  destruct (oneOf word ["mdnsent"; "$mdnsent"]) eqn:H5;
    [flag_cases H5; destruct flags; flag_done|].
  by rewrite !orb_false_r.
Qed.

(** X10: the keywords of an [X-Keywords] header only ever set flags, and
    only the five keyword flags: after [flagSet] has been applied for a
    list of words, Seen, Answered, Flagged, Deleted and Draft are as
    before, and each of Forwarded, Junk, Notjunk, Phishing and MDNSent is
    set when it was set before or one of the words is a name of it.  So
    neither the order of the words nor a repetition matters. *)
Theorem flagSet_words (flags : Flags) (words : list string) :
  Seen (fold_left flagSet words flags) = Seen flags
  ∧ Answered (fold_left flagSet words flags) = Answered flags
  ∧ Flagged (fold_left flagSet words flags) = Flagged flags
  ∧ Deleted (fold_left flagSet words flags) = Deleted flags
  ∧ Draft (fold_left flagSet words flags) = Draft flags
  ∧ Forwarded (fold_left flagSet words flags)
    = Forwarded flags || existsb (λ w, oneOf w ["forwarded"; "$forwarded"]) words
  ∧ Junk (fold_left flagSet words flags)
    = Junk flags || existsb (λ w, oneOf w ["junk"; "$junk"]) words
  ∧ Notjunk (fold_left flagSet words flags)
    = Notjunk flags
      || existsb (λ w, oneOf w ["notjunk"; "$notjunk"; "nonjunk"; "$nonjunk"]) words
  ∧ Phishing (fold_left flagSet words flags)
    = Phishing flags || existsb (λ w, oneOf w ["phishing"; "$phishing"]) words
  ∧ MDNSent (fold_left flagSet words flags)
    = MDNSent flags || existsb (λ w, oneOf w ["mdnsent"; "$mdnsent"]) words.
Proof.
  revert flags; induction words as [|w words IH]; intros flags.
  - simpl. by rewrite !orb_false_r.
  - cbn [fold_left existsb].
    destruct (IH (flagSet flags w)) as (I1 & I2 & I3 & I4 & I5 & I6 & I7 & I8 & I9 & I10).
    destruct (flagSet_fields flags w) as (F1 & F2 & F3 & F4 & F5 & F6 & F7 & F8 & F9 & F10).
    rewrite I1, I2, I3, I4, I5, I6, I7, I8, I9, I10.
    rewrite F1, F2, F3, F4, F5, F6, F7, F8, F9, F10.
    by rewrite !orb_assoc.
Qed.


(** One keyword of the dovecot keywords: the flags after the switch. *)
Lemma keywordSwitch_fields (flags : Flags) (kw : string) :
  Seen (keywordSwitch flags kw) = Seen flags
  ∧ Answered (keywordSwitch flags kw) = Answered flags
  ∧ Flagged (keywordSwitch flags kw) = Flagged flags
  ∧ Deleted (keywordSwitch flags kw) = Deleted flags
  ∧ Draft (keywordSwitch flags kw) = Draft flags
  ∧ Forwarded (keywordSwitch flags kw) = Forwarded flags || oneOf kw ["$Forwarded"; "Forwarded"]
  ∧ Junk (keywordSwitch flags kw) = Junk flags || oneOf kw ["$Junk"; "Junk"]
  ∧ Notjunk (keywordSwitch flags kw)
    = Notjunk flags || oneOf kw ["$NotJunk"; "NotJunk"; "NonJunk"]
  ∧ Phishing (keywordSwitch flags kw) = Phishing flags || oneOf kw ["$Phishing"; "Phishing"]
  ∧ MDNSent (keywordSwitch flags kw) = MDNSent flags || oneOf kw ["$MDNSent"].
Proof.
  unfold keywordSwitch.
  destruct (oneOf kw ["$Forwarded"; "Forwarded"]) eqn:H1;
    [flag_cases H1; destruct flags; flag_done|].
  destruct (oneOf kw ["$Junk"; "Junk"]) eqn:H2;
    [flag_cases H2; destruct flags; flag_done|].
  destruct (oneOf kw ["$NotJunk"; "NotJunk"; "NonJunk"]) eqn:H3;
    [flag_cases H3; destruct flags; flag_done|].
  destruct (oneOf kw ["$MDNSent"]) eqn:H4;
    [flag_cases H4; destruct flags; flag_done|].
  destruct (oneOf kw ["$Phishing"; "Phishing"]) eqn:H5;
    [flag_cases H5; destruct flags; flag_done|].
  by rewrite !orb_false_r.
Qed.

(** One character of the flags part: the flags after the switch. *)
Lemma maildirFlag_fields (kws : list string) (flags : Flags) (c : ascii) :
  Seen (maildirFlag kws flags c) = Seen flags || bool_decide (c = "S"%char)
  ∧ Answered (maildirFlag kws flags c) = Answered flags || bool_decide (c = "R"%char)
  ∧ Flagged (maildirFlag kws flags c) = Flagged flags || bool_decide (c = "F"%char)
  ∧ Deleted (maildirFlag kws flags c) = Deleted flags || bool_decide (c = "T"%char)
  ∧ Draft (maildirFlag kws flags c) = Draft flags || bool_decide (c = "D"%char)
  ∧ Forwarded (maildirFlag kws flags c)
    = Forwarded flags || oneOf (dovecotKeyword kws c) ["$Forwarded"; "Forwarded"]
  ∧ Junk (maildirFlag kws flags c)
    = Junk flags || oneOf (dovecotKeyword kws c) ["$Junk"; "Junk"]
  ∧ Notjunk (maildirFlag kws flags c)
    = Notjunk flags || oneOf (dovecotKeyword kws c) ["$NotJunk"; "NotJunk"; "NonJunk"]
  ∧ Phishing (maildirFlag kws flags c)
    = Phishing flags || oneOf (dovecotKeyword kws c) ["$Phishing"; "Phishing"]
  ∧ MDNSent (maildirFlag kws flags c)
    = MDNSent flags || oneOf (dovecotKeyword kws c) ["$MDNSent"].
Proof.
  unfold maildirFlag, dovecotKeyword.
  destruct (bool_decide (c = "P"%char)) eqn:HP;
    [apply bool_decide_eq_true in HP; subst; destruct flags; flag_done|].
  destruct (bool_decide (c = "R"%char)) eqn:HR;
    [apply bool_decide_eq_true in HR; subst; destruct flags; flag_done|].
  destruct (bool_decide (c = "S"%char)) eqn:HS;
    [apply bool_decide_eq_true in HS; subst; destruct flags; flag_done|].
  destruct (bool_decide (c = "T"%char)) eqn:HT;
    [apply bool_decide_eq_true in HT; subst; destruct flags; flag_done|].
  destruct (bool_decide (c = "D"%char)) eqn:HD;
    [apply bool_decide_eq_true in HD; subst; destruct flags; flag_done|].
  destruct (bool_decide (c = "F"%char)) eqn:HF;
    [apply bool_decide_eq_true in HF; subst; destruct flags; flag_done|].
  rewrite !orb_false_r.
  destruct (isLower c); [|by rewrite !orb_false_r].
  destruct (Nat.leb_spec (length kws) (nat_of_ascii c - 97)) as [Hle|Hlt].
  - rewrite (nth_overflow _ _ Hle). by rewrite !orb_false_r.
  - destruct (keywordSwitch_fields flags (nth (nat_of_ascii c - 97) kws ""%string))
      as (F1 & F2 & F3 & F4 & F5 & F6 & F7 & F8 & F9 & F10).
    by rewrite F1, F2, F3, F4, F5, F6, F7, F8, F9, F10.
Qed.

(** All characters of the flags part. *)
Lemma maildirFlag_fold (kws : list string) (l : list ascii) (flags : Flags) :
  Seen (fold_left (maildirFlag kws) l flags)
  = Seen flags || existsb (λ d, bool_decide (d = "S"%char)) l
  ∧ Answered (fold_left (maildirFlag kws) l flags)
    = Answered flags || existsb (λ d, bool_decide (d = "R"%char)) l
  ∧ Flagged (fold_left (maildirFlag kws) l flags)
    = Flagged flags || existsb (λ d, bool_decide (d = "F"%char)) l
  ∧ Deleted (fold_left (maildirFlag kws) l flags)
    = Deleted flags || existsb (λ d, bool_decide (d = "T"%char)) l
  ∧ Draft (fold_left (maildirFlag kws) l flags)
    = Draft flags || existsb (λ d, bool_decide (d = "D"%char)) l
  ∧ Forwarded (fold_left (maildirFlag kws) l flags)
    = Forwarded flags
      || existsb (λ d, oneOf (dovecotKeyword kws d) ["$Forwarded"; "Forwarded"]) l
  ∧ Junk (fold_left (maildirFlag kws) l flags)
    = Junk flags || existsb (λ d, oneOf (dovecotKeyword kws d) ["$Junk"; "Junk"]) l
  ∧ Notjunk (fold_left (maildirFlag kws) l flags)
    = Notjunk flags
      || existsb (λ d, oneOf (dovecotKeyword kws d) ["$NotJunk"; "NotJunk"; "NonJunk"]) l
  ∧ Phishing (fold_left (maildirFlag kws) l flags)
    = Phishing flags
      || existsb (λ d, oneOf (dovecotKeyword kws d) ["$Phishing"; "Phishing"]) l
  ∧ MDNSent (fold_left (maildirFlag kws) l flags)
    = MDNSent flags || existsb (λ d, oneOf (dovecotKeyword kws d) ["$MDNSent"]) l.
Proof.
  revert flags; induction l as [|c l IH]; intros flags.
  - simpl. by rewrite !orb_false_r.
  - cbn [fold_left existsb].
    destruct (IH (maildirFlag kws flags c)) as (I1 & I2 & I3 & I4 & I5 & I6 & I7 & I8 & I9 & I10).
    destruct (maildirFlag_fields kws flags c)
      as (F1 & F2 & F3 & F4 & F5 & F6 & F7 & F8 & F9 & F10).
    rewrite I1, I2, I3, I4, I5, I6, I7, I8, I9, I10.
    rewrite F1, F2, F3, F4, F5, F6, F7, F8, F9, F10.
    by rewrite !orb_assoc.
Qed.

(** The first occurrence of a separator whose first character is not in
    what comes before it. *)
Lemma HasPrefix_self (sep rest : string) : HasPrefix (sep +:+ rest) sep = true.
Proof.
  induction sep as [|c sep IH]; [by destruct rest|].
  rewrite str_app_cons. cbn [HasPrefix]. rewrite IH. by rewrite bool_decide_eq_true_2.
Qed.

Lemma Index_first (c : ascii) (sep pre rest : string) :
  countChar c pre = 0%nat →
  Index (pre +:+ String c sep +:+ rest) (String c sep) = Some (len pre).
Proof.
  induction pre as [|d pre IH]; intros Hc.
  - rewrite str_app_nil.
    destruct (String c sep +:+ rest)%string eqn:E; [by rewrite str_app_cons in E|].
    cbn [Index]. rewrite <- E, HasPrefix_self. done.
  - cbn [countChar] in Hc. rewrite str_app_cons. cbn [Index HasPrefix].
    destruct (bool_decide (d = c)) eqn:Hd; [simpl in Hc; lia|].
    cbn [andb]. rewrite IH; [done|]. simpl in Hc. lia.
Qed.

Lemma Index_none (c : ascii) (sep s : string) :
  countChar c s = 0%nat → Index s (String c sep) = None.
Proof.
  induction s as [|d s IH]; intros Hc; [done|].
  cbn [countChar] in Hc. cbn [Index HasPrefix].
  destruct (bool_decide (d = c)) eqn:Hd; [simpl in Hc; lia|].
  cbn [andb]. rewrite IH; [done|]. simpl in Hc. lia.
Qed.

Lemma strTake_app_len (a b : string) : strTake (len a) (a +:+ b) = a.
Proof. induction a as [|c a IH]; [by destruct b|]. rewrite str_app_cons. simpl. by rewrite IH. Qed.

(** Cutting in two at a separator whose first character is not in the
    first part. *)
Lemma SplitN_first (c : ascii) (sep pre rest : string) :
  countChar c pre = 0%nat →
  SplitN (pre +:+ String c sep +:+ rest) (String c sep) 2 = [pre; rest].
Proof.
  intros Hc. unfold SplitN. cbn [Z.eqb Z.ltb Z.compare Z.to_nat Pos.to_nat Pos.iter_op Nat.add Nat.sub splitLoop].
  change (Z.to_nat 2 - 1)%nat with 1%nat. cbn [splitLoop].
  rewrite (Index_first c sep pre rest Hc).
  rewrite strTake_app_len.
  rewrite <- (str_app_assoc pre (String c sep) rest).
  replace (len pre + len (String c sep))%nat with (len (pre +:+ String c sep)) by apply len_app.
  by rewrite strDrop_app.
Qed.

Lemma SplitN_none (c : ascii) (sep s : string) :
  countChar c s = 0%nat → SplitN s (String c sep) 2 = [s].
Proof.
  intros Hc. unfold SplitN. change (Z.to_nat 2 - 1)%nat with 1%nat.
  cbn [Z.eqb Z.ltb Z.compare splitLoop]. by rewrite (Index_none c sep s Hc).
Qed.

(** The flags of a name with a flags part. *)
Lemma maildirFlags_info (kws : list string) (pre info : string) :
  countChar ":" pre = 0%nat →
  maildirFlags kws (pre +:+ ":2," +:+ info)
  = fold_left (maildirFlag kws) (list_ascii_of_string info) noFlags.
Proof.
  intros Hc. unfold maildirFlags.
  change ":2,"%string with (String ":" "2,"). by rewrite (SplitN_first ":" "2," pre info Hc).
Qed.

(** X11: the name of a maildir file that has a flags part, [:2,] and then
    the flags, gives these flags: R, S, T, D and F set Answered, Seen,
    Deleted, Draft and Flagged; a letter a to z sets the flag of the
    dovecot keyword at its index, if there is one and it names a flag;
    no other flag is set, whatever else the flags part holds, and neither
    the order of its characters nor a repetition matters. *)
Theorem maildirFlags_spec (dovecotKeywords : list string) (pre info : string) :
  countChar ":" pre = 0%nat →
  maildirFlags dovecotKeywords (pre +:+ ":2," +:+ info)
  = {| Seen := hasChar "S" info;
       Answered := hasChar "R" info;
       Flagged := hasChar "F" info;
       Forwarded := hasKeyword dovecotKeywords ["$Forwarded"; "Forwarded"] info;
       Junk := hasKeyword dovecotKeywords ["$Junk"; "Junk"] info;
       Notjunk := hasKeyword dovecotKeywords ["$NotJunk"; "NotJunk"; "NonJunk"] info;
       Deleted := hasChar "T" info;
       Draft := hasChar "D" info;
       Phishing := hasKeyword dovecotKeywords ["$Phishing"; "Phishing"] info;
       MDNSent := hasKeyword dovecotKeywords ["$MDNSent"] info |}.
Proof.
  intros Hc. rewrite (maildirFlags_info _ _ _ Hc).
  destruct (maildirFlag_fold dovecotKeywords (list_ascii_of_string info) noFlags)
    as (F1 & F2 & F3 & F4 & F5 & F6 & F7 & F8 & F9 & F10).
  by apply Flags_eq.
Qed.

Lemma maildirFlags_spec_witness :
  maildirFlags ["Old"; "Junk"; "NonJunk"; "$Forwarded"] "1700000000.M1P2.host:2,FSbdx"
  = {| Seen := true; Answered := false; Flagged := true; Forwarded := true;
       Junk := true; Notjunk := false; Deleted := false; Draft := false;
       Phishing := false; MDNSent := false |}.
Proof.
  exact (maildirFlags_spec ["Old"; "Junk"; "NonJunk"; "$Forwarded"]
           "1700000000.M1P2.host" "FSbdx" eq_refl).
Defined.

(** X12: a name without a colon has no flags part, and the message gets no
    flag at all. *)
Theorem maildirFlags_none (dovecotKeywords : list string) (name : string) :
  countChar ":" name = 0%nat → maildirFlags dovecotKeywords name = noFlags.
Proof.
  intros Hc. unfold maildirFlags.
  change ":2,"%string with (String ":" "2,"). by rewrite (SplitN_none ":" "2," name Hc).
Qed.

Lemma maildirFlags_none_witness :
  maildirFlags ["Old"; "Junk"] "1700000000.M1P2.host" = noFlags.
Proof. exact (maildirFlags_none ["Old"; "Junk"] "1700000000.M1P2.host" eq_refl). Defined.


(** ** The dovecot keywords file *)

Lemma nth_insert_eq (l : list string) (i : nat) (x : string) :
  (i < length l)%nat → nth i (<[i := x]> l) ""%string = x.
Proof.
  revert i; induction l as [|y l IH]; intros [|i] H; simpl in *; try lia; [done|].
  apply IH. lia.
Qed.

Lemma nth_insert_ne (l : list string) (i j : nat) (x : string) :
  i ≠ j → nth j (<[i := x]> l) ""%string = nth j l ""%string.
Proof.
  revert i j; induction l as [|y l IH]; intros [|i] [|j] H; simpl; try done.
  apply IH. lia.
Qed.

(** A round of the loop either stores the keyword of the line in its slot,
    which was empty, or complains and changes nothing else. *)
Lemma keywordLine_cases (st : keywordState) (s : string) :
  length (keywords st) = 26%nat →
  match lineEntry s with
  | Some (j, kw) =>
      (j < 26)%nat
      ∧ (if bool_decide (nth j (keywords st) ""%string = ""%string)
         then keywordLine st s
              = mkKeywordState (<[j := kw]> (keywords st))
                  (if (kwEnd st <=? j)%nat then (j + 1)%nat else kwEnd st) (errs st)
         else ∃ e, keywordLine st s = complain st e)
  | None => ∃ e, keywordLine st s = complain st e
  end.
Proof.
  intros Hlen. unfold lineEntry, keywordLine. rewrite Hlen.
  destruct (SplitN s " " 2) as [|n [|kw [|x t]]]; cbn [length Nat.eqb negb nth];
    [by eexists..| |by eexists].
  destruct (ParseInt n 32) as [v|]; [|by eexists].
  destruct (Z.leb_spec 0 v) as [H0|H0], (Z.ltb_spec v 26) as [H1|H1]; cbn [andb].
  - destruct (Z.ltb_spec v 0) as [?|_]; [lia|].
    destruct (Z.leb_spec (Z.of_nat 26) v) as [?|_]; [lia|]. cbn [orb].
    split; [lia|].
    destruct (bool_decide (nth (Z.to_nat v) (keywords st) ""%string = ""%string));
      cbn [negb]; [done | by eexists].
  - destruct (Z.ltb_spec v 0) as [?|_]; [lia|].
    destruct (Z.leb_spec (Z.of_nat 26) v) as [_|?]; [|lia]. cbn [orb]. by eexists.
  - destruct (Z.ltb_spec v 0) as [_|?]; [|lia]. cbn [orb]. by eexists.
  - lia.
Qed.

Lemma keywordLine_inv (st : keywordState) (s : string) :
  kwInv st → kwInv (keywordLine st s).
Proof.
  intros (Hlen & Hend & Hrest).
  pose proof (keywordLine_cases st s Hlen) as H.
  destruct (lineEntry s) as [[j kw]|].
  - destruct H as [Hj H].
    destruct (bool_decide (nth j (keywords st) ""%string = ""%string)).
    + rewrite H. unfold kwInv. cbn [keywords kwEnd].
      split; [by rewrite length_insert|].
      destruct (Nat.leb_spec (kwEnd st) j) as [Hle|Hgt].
      * split; [lia|]. intros i Hi. rewrite nth_insert_ne by lia. apply Hrest. lia.
      * split; [done|]. intros i Hi. rewrite nth_insert_ne by lia. by apply Hrest.
    + destruct H as [e ->]. done.
  - destruct H as [e ->]. done.
Qed.

Lemma fold_inv (lines : list string) (st : keywordState) :
  kwInv st → kwInv (fold_left keywordLine lines st).
Proof.
  revert st; induction lines as [|s lines IH]; intros st Hst; [done|].
  apply IH. by apply keywordLine_inv.
Qed.

(** A slot after a round of the loop. *)
Lemma keywordLine_slot (st : keywordState) (s : string) (i : nat) :
  kwInv st →
  nth i (keywords (keywordLine st s)) ""%string
  = if bool_decide (nth i (keywords st) ""%string = ""%string)
    then match lineEntry s with
         | Some (j, kw) => if bool_decide (j = i) then kw else ""%string
         | None => ""%string
         end
    else nth i (keywords st) ""%string.
Proof.
  intros (Hlen & _).
  pose proof (keywordLine_cases st s Hlen) as H.
  destruct (lineEntry s) as [[j kw]|].
  - destruct H as [Hj H].
    destruct (bool_decide (nth j (keywords st) ""%string = ""%string)) eqn:Hslot.
    + rewrite H. cbn [keywords]. apply bool_decide_eq_true in Hslot.
      destruct (decide (j = i)) as [->|Hne].
      * rewrite nth_insert_eq by lia. rewrite bool_decide_eq_true_2 by done.
        by rewrite bool_decide_eq_true_2.
      * rewrite nth_insert_ne by done. rewrite (bool_decide_eq_false_2 (j = i)) by done.
        by destruct (bool_decide (nth i (keywords st) ""%string = ""%string)) eqn:Hi;
          [apply bool_decide_eq_true in Hi|].
    + destruct H as [e ->]. cbn [complain keywords].
      apply bool_decide_eq_false in Hslot.
      destruct (bool_decide (nth i (keywords st) ""%string = ""%string)) eqn:Hi; [|done].
      apply bool_decide_eq_true in Hi.
      destruct (bool_decide (j = i)) eqn:Hji; [|done].
      apply bool_decide_eq_true in Hji. congruence.
  - destruct H as [e ->]. cbn [complain keywords].
    by destruct (bool_decide (nth i (keywords st) ""%string = ""%string)) eqn:Hi;
      [apply bool_decide_eq_true in Hi|].
Qed.

(** A slot that holds a keyword keeps it. *)
Lemma slot_keep (lines : list string) (st : keywordState) (i : nat) :
  kwInv st → nth i (keywords st) ""%string ≠ ""%string →
  nth i (keywords (fold_left keywordLine lines st)) ""%string = nth i (keywords st) ""%string.
Proof.
  revert st; induction lines as [|s lines IH]; intros st Hst Hi; [done|].
  cbn [fold_left].
  assert (nth i (keywords (keywordLine st s)) ""%string = nth i (keywords st) ""%string) as Hs.
  { rewrite keywordLine_slot by done. by rewrite bool_decide_eq_false_2. }
  rewrite IH; [done | by apply keywordLine_inv | by rewrite Hs].
Qed.

(** An empty slot stays empty when no line gives a keyword for it. *)
Lemma slot_none (lines : list string) (st : keywordState) (i : nat) :
  kwInv st → nth i (keywords st) ""%string = ""%string →
  (∀ s, In s lines → namesSlot i s = false) →
  nth i (keywords (fold_left keywordLine lines st)) ""%string = ""%string.
Proof.
  revert st; induction lines as [|s lines IH]; intros st Hst Hi Hno; [done|].
  cbn [fold_left]. apply IH; [by apply keywordLine_inv| |by intros; apply Hno; right].
  rewrite keywordLine_slot by done. rewrite bool_decide_eq_true_2 by done.
  specialize (Hno s (or_introl eq_refl)). unfold namesSlot in Hno.
  destruct (lineEntry s) as [[j kw]|]; [|done].
  destruct (bool_decide (j = i)); [|done].
  cbn [andb] in Hno. apply negb_false_iff, bool_decide_eq_true in Hno. done.
Qed.

(** The first line that gives a keyword for an empty slot fills it. *)
Lemma slot_first (lines1 lines2 : list string) (s kw : string) (st : keywordState)
    (i : nat) :
  kwInv st → nth i (keywords st) ""%string = ""%string →
  (∀ s', In s' lines1 → namesSlot i s' = false) →
  lineEntry s = Some (i, kw) → kw ≠ ""%string →
  nth i (keywords (fold_left keywordLine (lines1 ++ s :: lines2) st)) ""%string = kw.
Proof.
  intros Hst Hi Hno Hs Hkw.
  rewrite fold_left_app. cbn [fold_left].
  pose proof (fold_inv lines1 st Hst) as Hst1.
  pose proof (slot_none lines1 st i Hst Hi Hno) as Hi1.
  assert (nth i (keywords (keywordLine (fold_left keywordLine lines1 st) s)) ""%string = kw)
    as Hset.
  { rewrite keywordLine_slot by done. rewrite bool_decide_eq_true_2 by done.
    rewrite Hs. by rewrite bool_decide_eq_true_2. }
  rewrite slot_keep; [done | by apply keywordLine_inv | by rewrite Hset].
Qed.

(** A keyword in a slot was there before, or is the keyword of a line. *)
Lemma slot_sound (lines : list string) (st : keywordState) (i : nat) :
  kwInv st →
  nth i (keywords (fold_left keywordLine lines st)) ""%string ≠ ""%string →
  nth i (keywords (fold_left keywordLine lines st)) ""%string = nth i (keywords st) ""%string
  ∨ ∃ s, In s lines
         ∧ lineEntry s = Some (i, nth i (keywords (fold_left keywordLine lines st)) ""%string).
Proof.
  revert st; induction lines as [|s lines IH]; intros st Hst Hne; [by left|].
  cbn [fold_left] in *.
  destruct (IH (keywordLine st s) (keywordLine_inv st s Hst) Hne) as [Heq|(s' & Hin & Hs')].
  - rewrite Heq in *. rewrite keywordLine_slot in * by done.
    destruct (bool_decide (nth i (keywords st) ""%string = ""%string)); [|by left].
    destruct (lineEntry s) as [[j kw]|] eqn:Hs; [|done].
    destruct (bool_decide (j = i)) eqn:Hji; [|done].
    apply bool_decide_eq_true in Hji. subst j.
    right. exists s. split; [by left | done].
  - right. exists s'. split; [by right | done].
Qed.

(** The keywords returned are the slots, seen through [nth]. *)
Lemma nth_firstn_inv (st : keywordState) (i : nat) :
  kwInv st →
  nth i (firstn (kwEnd st) (keywords st)) ""%string = nth i (keywords st) ""%string.
Proof.
  intros (Hlen & Hend & Hrest).
  destruct (Nat.lt_ge_cases i (kwEnd st)) as [Hlt|Hge].
  - rewrite <- (firstn_skipn (kwEnd st) (keywords st)) at 2.
    rewrite app_nth1; [done|]. rewrite length_firstn. lia.
  - rewrite (Hrest i Hge). apply nth_overflow. rewrite length_firstn. lia.
Qed.

Lemma kwInit_inv : kwInv kwInit.
Proof.
  unfold kwInv, kwInit. cbn [keywords kwEnd]. split; [done|]. split; [lia|].
  intros i _. do 27 (destruct i as [|i]; [done|]). done.
Qed.

Lemma kwInit_slot (i : nat) : nth i (keywords kwInit) ""%string = ""%string.
Proof. destruct kwInit_inv as (_ & _ & H). apply H. simpl. lia. Qed.


(** The text of a line that is understood. *)
Lemma allDigits_nospace (d : string) : allDigits d = true → countChar " " d = 0%nat.
Proof.
  induction d as [|c d IH]; [done|]. cbn [allDigits countChar].
  intros [Hc Hd]%andb_true_iff. rewrite (IH Hd).
  destruct (bool_decide (c = " "%char)) eqn:E; [|done].
  apply bool_decide_eq_true in E. subst c. done.
Qed.

Lemma ParseInt_nospace (n : string) (bitSize v : Z) :
  ParseInt n bitSize = Some v → countChar " " n = 0%nat.
Proof.
  unfold ParseInt. destruct n as [|c n]; [done|]. cbv zeta.
  destruct (bool_decide (c = "+"%char) || bool_decide (c = "-"%char)) eqn:Hsign.
  - destruct (bool_decide (n = ""%string)); [done|]. cbn [orb].
    destruct (allDigits n) eqn:Hd; [|done]. intros _.
    cbn [countChar]. rewrite (allDigits_nospace n Hd).
    apply orb_true_iff in Hsign as [H|H]; apply bool_decide_eq_true in H; by subst c.
  - destruct (bool_decide (String c n = ""%string)); [done|]. cbn [orb].
    destruct (allDigits (String c n)) eqn:Hd; [|done]. intros _.
    by apply allDigits_nospace.
Qed.

Lemma lineEntry_text (n kw : string) (v : Z) :
  ParseInt n 32 = Some v → 0 ≤ v < 26 →
  lineEntry (n +:+ " " +:+ kw) = Some (Z.to_nat v, kw).
Proof.
  intros Hn Hv. unfold lineEntry.
  change " "%string with (String " " "").
  rewrite (SplitN_first " " "" n kw (ParseInt_nospace n 32 v Hn)). rewrite Hn.
  destruct (Z.leb_spec 0 v), (Z.ltb_spec v 26); try lia. done.
Qed.

Lemma Index_split (s sep : string) (m : nat) :
  Index s sep = Some m →
  s = (strTake m s +:+ sep +:+ strDrop (m + len sep) s)%string.
Proof.
  revert m; induction s as [|c s IH]; intros m.
  - cbn [Index]. destruct (HasPrefix "" sep) eqn:Hp; [|done].
    intros [= <-]. apply (HasPrefix_drop _ _ Hp).
  - cbn [Index]. destruct (HasPrefix (String c s) sep) eqn:Hp.
    + intros [= <-]. apply (HasPrefix_drop _ _ Hp).
    + destruct (Index s sep) as [k|] eqn:Hk; [|done]. intros [= <-].
      cbn [strTake Nat.add strDrop]. rewrite str_app_cons. f_equal. by apply IH.
Qed.

Lemma lineEntry_inv (s kw : string) (i : nat) :
  lineEntry s = Some (i, kw) →
  ∃ n v, s = (n +:+ " " +:+ kw)%string ∧ ParseInt n 32 = Some v ∧ 0 ≤ v < 26
         ∧ i = Z.to_nat v.
Proof.
  unfold lineEntry, SplitN. change (Z.to_nat 2 - 1)%nat with 1%nat.
  cbn [Z.eqb Z.ltb Z.compare splitLoop].
  destruct (Index s " ") as [m|] eqn:Hm; [|done].
  destruct (ParseInt (strTake m s) 32) as [v|] eqn:Hv; [|done].
  destruct (Z.leb_spec 0 v), (Z.ltb_spec v 26); try done. cbn [andb].
  intros [= <- <-]. exists (strTake m s), v.
  split; [by apply Index_split|]. split; [done|]. split; [lia | done].
Qed.

(** No line of the list gives a keyword for the index, said of the text. *)
Lemma namesSlot_text (l : list string) (v : Z) :
  0 ≤ v < 26 →
  (∀ n kw, In (n +:+ " " +:+ kw)%string l → ParseInt n 32 = Some v → kw = ""%string)
  ↔ (∀ s, In s l → namesSlot (Z.to_nat v) s = false).
Proof.
  intros Hv. split.
  - intros H s Hs. unfold namesSlot.
    destruct (lineEntry s) as [[j kw]|] eqn:He; [|done].
    destruct (bool_decide (j = Z.to_nat v)) eqn:Hj; [|done].
    apply bool_decide_eq_true in Hj. cbn [andb].
    apply lineEntry_inv in He as (n & v' & -> & Hn & Hv' & ->).
    assert (v' = v) as -> by lia.
    rewrite (H n kw Hs Hn). done.
  - intros H n kw Hin Hn. specialize (H _ Hin). unfold namesSlot in H.
    rewrite (lineEntry_text n kw v Hn Hv) in H.
    rewrite bool_decide_eq_true_2 in H by done. cbn [andb] in H.
    by apply negb_false_iff, bool_decide_eq_true in H.
Qed.

(** X13: in a dovecot keywords file the first line that gives a keyword for
    an index wins: its keyword is the one returned at that index, whatever
    the lines before it (lines that are not understood, lines for other
    indices, lines with an empty keyword) and whatever the lines after it,
    also when the parse returns an error. *)
Theorem ParseDovecotKeywords_first (lines1 lines2 : list string) (n kw : string)
    (v : Z) (scanErr : option string) :
  ParseInt n 32 = Some v → 0 ≤ v < 26 → kw ≠ ""%string →
  (∀ n' kw', In (n' +:+ " " +:+ kw')%string lines1 → ParseInt n' 32 = Some v →
             kw' = ""%string) →
  nth (Z.to_nat v)
      (ParseDovecotKeywords (lines1 ++ (n +:+ " " +:+ kw)%string :: lines2) scanErr).1
      ""%string = kw.
Proof.
  intros Hn Hv Hkw Hno. unfold ParseDovecotKeywords. cbv zeta. cbn [fst].
  change (mkKeywordState (replicate 26 ""%string) 0 []) with kwInit.
  rewrite nth_firstn_inv by (apply fold_inv, kwInit_inv).
  apply slot_first; [apply kwInit_inv | apply kwInit_slot | | | done].
  - by apply namesSlot_text.
  - by apply lineEntry_text.
Qed.

Lemma ParseDovecotKeywords_first_witness :
  nth 3 (ParseDovecotKeywords
           ["0 Old"; "junk"; "3 "; "+3 $Forwarded"; "3 Junk"; "44 x"] None).1 ""%string
  = "$Forwarded"%string.
Proof.
  apply (ParseDovecotKeywords_first ["0 Old"; "junk"; "3 "] ["3 Junk"; "44 x"]
           "+3" "$Forwarded" 3 None eq_refl); [lia | done |].
  apply (proj2 (namesSlot_text ["0 Old"; "junk"; "3 "] 3 ltac:(lia))).
  intros s [<-|[<-|[<-|[]]]]; reflexivity.
Defined.


(** X14: the parse of a dovecot keywords file returns at most 26
    keywords, and every keyword it returns that is not empty stands in a
    line of the file, after the number of its index and a space. *)
Theorem ParseDovecotKeywords_sound (lines : list string) (scanErr : option string) :
  (length (ParseDovecotKeywords lines scanErr).1 <= 26)%nat
  ∧ ∀ i kw, (ParseDovecotKeywords lines scanErr).1 !! i = Some kw → kw ≠ ""%string →
            ∃ n, In (n +:+ " " +:+ kw)%string lines
                 ∧ ParseInt n 32 = Some (Z.of_nat i).
Proof.
  unfold ParseDovecotKeywords. cbv zeta. cbn [fst].
  change (mkKeywordState (replicate 26 ""%string) 0 []) with kwInit.
  pose proof (fold_inv lines kwInit kwInit_inv) as Hinv.
  split.
  - rewrite length_firstn. destruct Hinv as (_ & Hend & _). lia.
  - intros i kw Hi Hkw.
    apply (nth_lookup_Some _ _ ""%string) in Hi. rewrite nth_firstn_inv in Hi by done.
    destruct (slot_sound lines kwInit i kwInit_inv) as [Heq|(s & Hs & He)].
    + by rewrite Hi.
    + rewrite Hi, kwInit_slot in Heq. done.
    + rewrite Hi in He. apply lineEntry_inv in He as (n & v & -> & Hn & Hv & ->).
      exists n. split; [done|]. rewrite Hn. f_equal. lia.
Qed.

(** A round of the loop complains about the line unless the line gives a
    keyword for a slot that is empty. *)
Lemma keywordLine_errs (st : keywordState) (s : string) :
  length (keywords st) = 26%nat →
  (∃ j kw, lineEntry s = Some (j, kw) ∧ nth j (keywords st) ""%string = ""%string
           ∧ errs (keywordLine st s) = errs st)
  ∨ (¬ (∃ j kw, lineEntry s = Some (j, kw) ∧ nth j (keywords st) ""%string = ""%string)
     ∧ ∃ e, errs (keywordLine st s) = errs st ++ [e]).
Proof.
  intros Hlen. pose proof (keywordLine_cases st s Hlen) as H.
  destruct (lineEntry s) as [[j kw]|].
  - destruct H as [Hj H].
    destruct (bool_decide (nth j (keywords st) ""%string = ""%string)) eqn:Hslot.
    + left. exists j, kw. apply bool_decide_eq_true in Hslot. by rewrite H.
    + right. apply bool_decide_eq_false in Hslot. destruct H as [e ->].
      split; [|by exists e]. intros (j' & kw' & [= <- <-] & Hempty). done.
  - right. destruct H as [e ->]. split; [|by exists e]. by intros (j' & kw' & ? & _).
Qed.

(** No complaint at the end: none at the start, and every line gives a
    keyword for a slot that is empty when the line is reached. *)
Lemma fold_errs_nil (lines : list string) (st : keywordState) :
  kwInv st →
  errs (fold_left keywordLine lines st) = []
  ↔ errs st = []
    ∧ ∀ l1 s l2, lines = l1 ++ s :: l2 →
        ∃ j kw, lineEntry s = Some (j, kw)
                ∧ nth j (keywords (fold_left keywordLine l1 st)) ""%string = ""%string.
Proof.
  revert st; induction lines as [|s lines IH]; intros st Hst.
  - cbn [fold_left]. split; [|by intros [? _]].
    intros H. split; [done|]. intros [|x l1] s l2 Heq; discriminate.
  - cbn [fold_left]. rewrite (IH _ (keywordLine_inv st s Hst)).
    destruct Hst as (Hlen & Hst').
    destruct (keywordLine_errs st s Hlen) as [(j & kw & He & Hslot & Herr)|(Hno & e & Herr)].
    + rewrite Herr. split.
      * intros [H0 Hall]. split; [done|]. intros [|x l1] s' l2 Heq.
        -- injection Heq as <- <-. by exists j, kw.
        -- injection Heq as <- ->. cbn [fold_left]. by apply (Hall l1 s' l2).
      * intros [H0 Hall]. split; [done|]. intros l1 s' l2 ->.
        apply (Hall (s :: l1) s' l2). done.
    + rewrite Herr. split.
      * intros [H0 _]. by destruct (errs st).
      * intros [_ Hall]. destruct Hno. by apply (Hall [] s lines).
Qed.

(** A slot holds a keyword once a line has given one for it. *)
Lemma slot_some (lines : list string) (st : keywordState) (i : nat) (s : string) :
  kwInv st → In s lines → namesSlot i s = true →
  nth i (keywords (fold_left keywordLine lines st)) ""%string ≠ ""%string.
Proof.
  revert st; induction lines as [|x lines IH]; intros st Hst Hin Hs; [done|].
  cbn [fold_left]. destruct Hin as [->|Hin]; [|by apply IH; [apply keywordLine_inv|..]].
  assert (nth i (keywords (keywordLine st s)) ""%string ≠ ""%string) as Hset.
  { rewrite keywordLine_slot by done.
    destruct (bool_decide (nth i (keywords st) ""%string = ""%string)) eqn:Hi;
      [|by apply bool_decide_eq_false in Hi].
    unfold namesSlot in Hs. destruct (lineEntry s) as [[j kw]|]; [|done].
    apply andb_true_iff in Hs as [Hj Hkw]. rewrite Hj.
    by apply negb_true_iff, bool_decide_eq_false in Hkw. }
  rewrite slot_keep; [done | by apply keywordLine_inv | done].
Qed.

Lemma slot_empty_iff (lines : list string) (i : nat) :
  nth i (keywords (fold_left keywordLine lines kwInit)) ""%string = ""%string
  ↔ ∀ s, In s lines → namesSlot i s = false.
Proof.
  split.
  - intros H s Hs. destruct (namesSlot i s) eqn:Hn; [|done].
    by destruct (slot_some lines kwInit i s kwInit_inv Hs Hn).
  - intros H. apply slot_none; [apply kwInit_inv | apply kwInit_slot | done].
Qed.

(** X15: the parse of a dovecot keywords file returns no error exactly when
    the scanner had none and every line is understood and stored: it is a
    number from 0 to 25, a space and a keyword, and no line before it has
    given a keyword, other than the empty one, for the same number. *)
Theorem ParseDovecotKeywords_errors (lines : list string) (scanErr : option string) :
  (ParseDovecotKeywords lines scanErr).2 = None
  ↔ scanErr = None
    ∧ ∀ l1 s l2, lines = l1 ++ s :: l2 →
        ∃ n kw v, s = (n +:+ " " +:+ kw)%string ∧ ParseInt n 32 = Some v ∧ 0 ≤ v < 26
                  ∧ ∀ n' kw', In (n' +:+ " " +:+ kw')%string l1 →
                              ParseInt n' 32 = Some v → kw' = ""%string.
Proof.
  unfold ParseDovecotKeywords. cbv zeta. cbn [snd].
  change (mkKeywordState (replicate 26 ""%string) 0 []) with kwInit.
  pose proof (fold_errs_nil lines kwInit kwInit_inv) as Hnil.
  split.
  - intros H.
    assert (scanErr = None ∧ errs (fold_left keywordLine lines kwInit) = []) as [-> He].
    { destruct scanErr as [e|].
      - destruct (errs (fold_left keywordLine lines kwInit)); done.
      - destruct (errs (fold_left keywordLine lines kwInit)); done. }
    split; [done|]. intros l1 s l2 Heq.
    apply Hnil in He as [_ Hall].
    destruct (Hall l1 s l2 Heq) as (j & kw & Hs & Hslot).
    apply lineEntry_inv in Hs as (n & v & -> & Hn & Hv & ->).
    exists n, kw, v. split; [done|]. split; [done|]. split; [done|].
    apply namesSlot_text; [done|]. by apply slot_empty_iff.
  - intros [-> Hall].
    assert (errs (fold_left keywordLine lines kwInit) = []) as ->; [|done].
    apply Hnil. split; [done|]. intros l1 s l2 Heq.
    destruct (Hall l1 s l2 Heq) as (n & kw & v & -> & Hn & Hv & Hno).
    exists (Z.to_nat v), kw. split; [by apply lineEntry_text|].
    apply slot_empty_iff. by apply namesSlot_text.
Qed.


(** ** Line endings of an imported message *)

Lemma str_app_inv_r (a b x : string) : (a +:+ x = b +:+ x)%string → a = b.
Proof.
  revert b; induction a as [|c a IH]; intros [|d b] H.
  - done.
  - apply (f_equal len) in H. rewrite str_app_cons in H. rewrite str_app_nil in H.
    cbn [len String.length] in H. unfold len in H. cbn [String.length] in H.
    pose proof (len_app b x) as Hl. unfold len in Hl. lia.
  - apply (f_equal len) in H. rewrite str_app_cons in H. rewrite str_app_nil in H.
    unfold len in H. cbn [String.length] in H.
    pose proof (len_app a x) as Hl. unfold len in Hl. lia.
  - rewrite !str_app_cons in H. injection H as -> H. f_equal. by apply IH.
Qed.

Lemma HasSuffix_iff (s suffix : string) :
  HasSuffix s suffix = true ↔ ∃ pre, s = (pre +:+ suffix)%string.
Proof.
  unfold HasSuffix. split.
  - intros [Hlen Heq]%andb_true_iff. apply bool_decide_eq_true in Heq.
    exists (strTake (len s - len suffix) s).
    etrans; [symmetry; apply (strTake_strDrop (len s - len suffix) s)|]. by rewrite Heq.
  - intros [pre ->]. rewrite len_app.
    replace (len pre + len suffix - len suffix)%nat with (len pre) by lia.
    rewrite strDrop_app. rewrite bool_decide_eq_true_2 by done.
    rewrite andb_true_r. apply Nat.leb_le. lia.
Qed.

Lemma strTake_snoc (b : string) (x : ascii) :
  strTake (len (b +:+ String x "") - 1) (b +:+ String x "") = b.
Proof.
  rewrite len_app. replace (len b + len (String x "") - 1)%nat with (len b)
    by (unfold len; simpl; lia).
  apply strTake_app_len.
Qed.

(** A line that [ReadBytes] ends at its newline. *)
Lemma ReadBytes_line (body rest : string) :
  countChar LF body = 0%nat →
  ReadBytes (body +:+ lf +:+ rest) = ((body +:+ lf)%string, rest, false).
Proof.
  induction body as [|c body IH]; intros Hc.
  - rewrite !str_app_nil. unfold lf. rewrite str_app_cons, str_app_nil.
    cbn [ReadBytes]. by rewrite bool_decide_eq_true_2.
  - cbn [countChar] in Hc. rewrite !str_app_cons. cbn [ReadBytes].
    destruct (bool_decide (c = LF)); [simpl in Hc; lia|].
    rewrite IH by (simpl in Hc; lia). done.
Qed.

(** What is left of a file without a newline. *)
Lemma ReadBytes_last (l : string) :
  countChar LF l = 0%nat → ReadBytes l = (l, ""%string, true).
Proof.
  induction l as [|c l IH]; intros Hc; [done|].
  cbn [countChar] in Hc. cbn [ReadBytes].
  destruct (bool_decide (c = LF)); [simpl in Hc; lia|].
  rewrite IH by (simpl in Hc; lia). done.
Qed.

Lemma ReadBytes_rest (s : string) :
  (ReadBytes s).2 = false → (len (ReadBytes s).1.2 < len s)%nat.
Proof.
  induction s as [|c s IH]; [done|]. cbn [ReadBytes].
  destruct (bool_decide (c = LF)); [intros _; cbn; unfold len; simpl; lia|].
  destruct (ReadBytes s) as [[line rest] eof]. cbn [fst snd] in *.
  intros H. specialize (IH H). unfold len in *. simpl. lia.
Qed.

(** More rounds than the file has bytes make no difference. *)
Lemma copyLoop_fuel (f1 f2 : nat) (s out : string) (size : Z) :
  (len s < f1)%nat → (len s < f2)%nat →
  copyLoop f1 s out size = copyLoop f2 s out size.
Proof.
  revert f2 s out size; induction f1 as [|f1 IH]; intros [|f2] s out size H1 H2; try lia.
  cbn [copyLoop]. pose proof (ReadBytes_rest s) as Hr.
  destruct (ReadBytes s) as [[line rest] eof]. cbn [fst snd] in Hr.
  destruct (0 <? len line)%nat; (destruct eof; [done|]); apply IH;
    specialize (Hr eq_refl); lia.
Qed.

(** What was written before stays in front. *)
Lemma copyLoop_out (f : nat) (s out : string) (size : Z) :
  (copyLoop f s out size).1 = (out +:+ (copyLoop f s "" 0).1)%string.
Proof.
  revert s out size; induction f as [|f IH]; intros s out size.
  - cbn. by rewrite str_app_empty_r.
  - cbn [copyLoop]. destruct (ReadBytes s) as [[line rest] eof].
    destruct (0 <? len line)%nat.
    + destruct eof; [done|]. rewrite IH. rewrite (IH _ ("" +:+ _)%string).
      by rewrite str_app_nil, str_app_assoc.
    + destruct eof; [cbn; by rewrite str_app_empty_r|]. apply IH.
Qed.

Lemma wrapInt_add (x y : Z) : wrapInt (wrapInt x + y) = wrapInt (x + y).
Proof.
  unfold wrapInt. f_equal.
  replace ((x + 2 ^ 63) mod 2 ^ 64 - 2 ^ 63 + y + 2 ^ 63)
    with ((x + 2 ^ 63) mod 2 ^ 64 + y) by lia.
  rewrite Zplus_mod_idemp_l. f_equal. lia.
Qed.

Lemma wrapInt_idem (x : Z) : wrapInt (wrapInt x) = wrapInt x.
Proof. pose proof (wrapInt_add x 0) as H. by rewrite !Z.add_0_r in H. Qed.

(** The size is the number of bytes written, as an [int64]. *)
Lemma copyLoop_size (f : nat) (s out : string) (size : Z) :
  wrapInt size = size →
  (copyLoop f s out size).2
  = wrapInt (size + Z.of_nat (len (copyLoop f s "" 0).1)).
Proof.
  revert s out size; induction f as [|f IH]; intros s out size Hsize.
  - cbn. by rewrite Z.add_0_r.
  - cbn [copyLoop]. destruct (ReadBytes s) as [[line rest] eof].
    destruct (0 <? len line)%nat.
    + destruct eof; [cbn [fst snd]; by rewrite str_app_nil|].
      rewrite IH by (unfold intAdd; apply wrapInt_idem).
      rewrite (copyLoop_out f rest ("" +:+ _)%string). rewrite str_app_nil, len_app.
      unfold intAdd. rewrite wrapInt_add. f_equal. lia.
    + destruct eof; [cbn [fst snd]; by rewrite Z.add_0_r|]. by apply IH.
Qed.

(** The three cases of the copy. *)
Lemma copyMessage_nil : (copyMessage "").1 = ""%string.
Proof. done. Qed.

Lemma copyMessage_line (body rest : string) :
  countChar LF body = 0%nat →
  (copyMessage (body +:+ lf +:+ rest)).1
  = (fixLine (body +:+ lf) +:+ (copyMessage rest).1)%string.
Proof.
  intros Hc. remember (copyMessage rest) as R eqn:HR.
  unfold copyMessage. cbn [copyLoop].
  rewrite (ReadBytes_line body rest Hc).
  assert ((0 <? len (body +:+ lf))%nat = true) as ->.
  { apply Nat.ltb_lt. rewrite len_app. unfold lf, len. simpl. lia. }
  rewrite copyLoop_out, str_app_nil. f_equal. f_equal.
  subst R. unfold copyMessage.
  apply copyLoop_fuel; [|lia]. rewrite !len_app. unfold lf, len. simpl. lia.
Qed.

Lemma copyMessage_last (l : string) :
  countChar LF l = 0%nat → l ≠ ""%string → (copyMessage l).1 = fixLine l.
Proof.
  intros Hc Hl. unfold copyMessage. cbn [copyLoop]. rewrite (ReadBytes_last l Hc).
  destruct l as [|c l]; [done|]. done.
Qed.

(** What [fixLine] does to a line with its newline, and to one without. *)
Lemma fixLine_lf (b : string) :
  fixLine (b +:+ lf) = (trimCR b +:+ crlf)%string.
Proof.
  unfold fixLine, trimCR.
  destruct (HasSuffix b (String CR "")) eqn:Hcr.
  - apply HasSuffix_iff in Hcr as [pre ->].
    assert (HasSuffix ((pre +:+ String CR "") +:+ lf) crlf = true) as ->.
    { apply HasSuffix_iff. exists pre. by rewrite str_app_assoc. }
    cbn [negb]. rewrite strTake_snoc. by rewrite str_app_assoc.
  - assert (HasSuffix (b +:+ lf) crlf = false) as ->.
    { apply not_true_iff_false. intros [pre Hpre]%HasSuffix_iff.
      change crlf with (String CR "" +:+ lf)%string in Hpre.
      rewrite <- str_app_assoc in Hpre. apply str_app_inv_r in Hpre.
      assert (HasSuffix b (String CR "") = true) by (apply HasSuffix_iff; by exists pre).
      congruence. }
    cbn [negb]. unfold lf. by rewrite strTake_snoc.
Qed.

Lemma fixLine_last (l : string) :
  countChar LF l = 0%nat → fixLine l = (strTake (len l - 1) l +:+ crlf)%string.
Proof.
  intros Hc. unfold fixLine.
  assert (HasSuffix l crlf = false) as ->; [|done].
  apply not_true_iff_false. intros [pre ->]%HasSuffix_iff.
  rewrite countChar_app in Hc. unfold crlf in Hc. simpl in Hc. lia.
Qed.

(** The copy of a file, line by line. *)
Lemma copyMessage_joined (bs : list string) (l : string) :
  (∀ b, In b bs → countChar LF b = 0%nat) → countChar LF l = 0%nat →
  (copyMessage (joinLines lf bs +:+ l)).1
  = (joinLines crlf (List.map trimCR bs)
     +:+ (if bool_decide (l = ""%string) then ""
          else strTake (len l - 1) l +:+ crlf))%string.
Proof.
  intros Hbs Hl. unfold joinLines. induction bs as [|b bs IH].
  - cbn [List.map String.concat]. rewrite !str_app_nil.
    destruct (bool_decide (l = ""%string)) eqn:E.
    + apply bool_decide_eq_true in E. by subst.
    + apply bool_decide_eq_false in E. rewrite copyMessage_last by done.
      by apply fixLine_last.
  - cbn [List.map]. rewrite !concat_cons, !str_app_assoc.
    rewrite copyMessage_line by (apply Hbs; by left).
    rewrite IH by (intros; apply Hbs; by right).
    by rewrite fixLine_lf, !str_app_assoc.
Qed.

(** Every file is a sequence of lines that end in a newline, and a rest
    without newline. *)
Lemma lines_of (s : string) :
  ∃ bs l, s = (joinLines lf bs +:+ l)%string
          ∧ (∀ b, In b bs → countChar LF b = 0%nat) ∧ countChar LF l = 0%nat.
Proof.
  unfold joinLines. induction s as [|c s (bs & l & -> & Hbs & Hl)].
  - by exists [], ""%string.
  - destruct (decide (c = LF)) as [->|Hc].
    + exists (""%string :: bs), l. split; [|split; [|done]].
      * cbn [List.map]. by rewrite concat_cons, !str_app_nil.
      * intros b [<-|Hb]; [done | by apply Hbs].
    + destruct bs as [|b bs].
      * exists [], (String c l). split; [done|]. split; [done|].
        cbn [countChar]. by rewrite bool_decide_eq_false_2, Hl.
      * exists (String c b :: bs), l. split; [|split; [|done]].
        -- cbn [List.map]. by rewrite !concat_cons, !str_app_cons.
        -- intros x [<-|Hx]; [|by apply Hbs; right].
           cbn [countChar]. rewrite bool_decide_eq_false_2 by done.
           rewrite (Hbs b); [done | by left].
Qed.

Lemma countChar_strTake (c : ascii) (n : nat) (s : string) :
  countChar c s = 0%nat → countChar c (strTake n s) = 0%nat.
Proof.
  revert s; induction n as [|n IH]; intros [|d s]; simpl; try done.
  destruct (bool_decide (d = c)); [lia|]. simpl. apply IH.
Qed.

Lemma trimCR_noLF (b : string) : countChar LF b = 0%nat → countChar LF (trimCR b) = 0%nat.
Proof. intros H. unfold trimCR. destruct (HasSuffix _ _); [by apply countChar_strTake | done]. Qed.

Lemma trimCR_snoc (b : string) : trimCR (b +:+ String CR "") = b.
Proof.
  unfold trimCR.
  assert (HasSuffix (b +:+ String CR "") (String CR "") = true) as ->
    by (apply HasSuffix_iff; by exists b).
  apply strTake_snoc.
Qed.

Lemma joinLines_crlf (bs : list string) :
  joinLines crlf bs = joinLines lf (List.map (λ b, b +:+ String CR "")%string bs).
Proof.
  unfold joinLines. rewrite List.map_map. f_equal. apply List.map_ext.
  intros b. by rewrite str_app_assoc.
Qed.

Lemma joinLines_snoc (e : string) (bs : list string) (b : string) :
  joinLines e (bs ++ [b]) = (joinLines e bs +:+ b +:+ e)%string.
Proof.
  unfold joinLines. induction bs as [|x bs IH].
  - cbn [app List.map]. by rewrite concat_cons, str_app_nil, str_app_empty_r.
  - cbn [app List.map]. rewrite !concat_cons, IH. by rewrite !str_app_assoc.
Qed.

(** What is written is a sequence of lines that end in CR LF. *)
Lemma copyMessage_out (s : string) :
  ∃ bs, (copyMessage s).1 = joinLines crlf bs ∧ ∀ b, In b bs → countChar LF b = 0%nat.
Proof.
  destruct (lines_of s) as (bs & l & -> & Hbs & Hl).
  rewrite copyMessage_joined by done.
  destruct (bool_decide (l = ""%string)).
  - exists (List.map trimCR bs). rewrite str_app_empty_r. split; [done|].
    intros b (x & <- & Hx)%in_map_iff. apply trimCR_noLF. by apply Hbs.
  - exists (List.map trimCR bs ++ [strTake (len l - 1) l]).
    rewrite joinLines_snoc. split; [done|].
    intros b [(x & <- & Hx)%in_map_iff|[<-|[]]]%in_app_iff.
    + apply trimCR_noLF. by apply Hbs.
    + by apply countChar_strTake.
Qed.

Lemma copyMessage_fixed (bs : list string) :
  (∀ b, In b bs → countChar LF b = 0%nat) →
  (copyMessage (joinLines crlf bs)).1 = joinLines crlf bs.
Proof.
  intros Hbs. rewrite joinLines_crlf at 1.
  rewrite <- (str_app_empty_r (joinLines lf _)).
  rewrite copyMessage_joined.
  - rewrite bool_decide_eq_true_2 by done. rewrite str_app_empty_r.
    rewrite List.map_map. f_equal. rewrite <- (List.map_id bs) at 2.
    apply List.map_ext. intros b. apply trimCR_snoc.
  - intros b (x & <- & Hx)%in_map_iff. rewrite countChar_app, (Hbs x Hx). done.
  - done.
Qed.


(** A letter of the flags part that stands for a keyword among [l]. *)
Lemma hasKeyword_letter (kws l : list string) (info : string) (i : nat) :
  (i < 26)%nat → hasChar (ascii_of_nat (97 + i)) info = true →
  oneOf (nth i kws ""%string) l = true →
  hasKeyword kws l info = true.
Proof.
  intros Hi Hc Hkw. unfold hasChar in Hc. unfold hasKeyword.
  apply existsb_exists in Hc as (d & Hd & Heq). apply bool_decide_eq_true in Heq. subst d.
  apply existsb_exists. exists (ascii_of_nat (97 + i)). split; [done|].
  unfold dovecotKeyword, isLower. rewrite nat_ascii_embedding by lia.
  destruct (Nat.leb_spec 97 (97 + i)); [|lia].
  destruct (Nat.leb_spec (97 + i) 122); [|lia]. cbn [andb].
  by replace (97 + i - 97)%nat with i by lia.
Qed.

Lemma oneOf_nonempty (kw : string) (l : list string) :
  oneOf kw l = true → forallb (λ w, negb (bool_decide (w = ""%string))) l = true →
  kw ≠ ""%string.
Proof.
  intros [w [Hw Heq]]%existsb_exists Hall. apply bool_decide_eq_true in Heq. subst w.
  rewrite forallb_forall in Hall. specialize (Hall kw Hw).
  by apply negb_true_iff, bool_decide_eq_false in Hall.
Qed.

(** X16: the dovecot keywords file and the name of a message file taken
    together: when the file gives a keyword for the number [v], in the
    first line that gives one for it, and the flags part of the name has
    the letter for [v] (a for 0 up to z for 25), then the message has the
    flag that the keyword names. *)
Theorem maildir_keyword_flag (lines1 lines2 : list string) (n kw : string) (v : Z)
    (scanErr : option string) (pre info : string) :
  ParseInt n 32 = Some v → 0 ≤ v < 26 →
  (∀ n' kw', In (n' +:+ " " +:+ kw')%string lines1 → ParseInt n' 32 = Some v →
             kw' = ""%string) →
  countChar ":" pre = 0%nat →
  hasChar (ascii_of_nat (97 + Z.to_nat v)) info = true →
  (oneOf kw ["$Forwarded"; "Forwarded"] = true →
   Forwarded (maildirFlags
                (ParseDovecotKeywords (lines1 ++ (n +:+ " " +:+ kw)%string :: lines2) scanErr).1
                (pre +:+ ":2," +:+ info)) = true)
  ∧ (oneOf kw ["$Junk"; "Junk"] = true →
     Junk (maildirFlags
             (ParseDovecotKeywords (lines1 ++ (n +:+ " " +:+ kw)%string :: lines2) scanErr).1
             (pre +:+ ":2," +:+ info)) = true)
  ∧ (oneOf kw ["$NotJunk"; "NotJunk"; "NonJunk"] = true →
     Notjunk (maildirFlags
                (ParseDovecotKeywords (lines1 ++ (n +:+ " " +:+ kw)%string :: lines2) scanErr).1
                (pre +:+ ":2," +:+ info)) = true)
  ∧ (oneOf kw ["$Phishing"; "Phishing"] = true →
     Phishing (maildirFlags
                 (ParseDovecotKeywords (lines1 ++ (n +:+ " " +:+ kw)%string :: lines2) scanErr).1
                 (pre +:+ ":2," +:+ info)) = true)
  ∧ (oneOf kw ["$MDNSent"] = true →
     MDNSent (maildirFlags
                (ParseDovecotKeywords (lines1 ++ (n +:+ " " +:+ kw)%string :: lines2) scanErr).1
                (pre +:+ ":2," +:+ info)) = true).
Proof.
  intros Hn Hv Hno Hpre Hc.
  set (kws := (ParseDovecotKeywords (lines1 ++ (n +:+ " " +:+ kw)%string :: lines2) scanErr).1).
  assert (kw ≠ ""%string → nth (Z.to_nat v) kws ""%string = kw) as Hnth.
  { intros Hkw. unfold kws, ParseDovecotKeywords. cbv zeta. cbn [fst].
    change (mkKeywordState (replicate 26 ""%string) 0 []) with kwInit.
    rewrite nth_firstn_inv by (apply fold_inv, kwInit_inv).
    apply slot_first; [apply kwInit_inv | apply kwInit_slot | | | done].
    - by apply namesSlot_text.
    - by apply lineEntry_text. }
  rewrite (maildirFlags_info kws pre info Hpre).
  destruct (maildirFlag_fold kws (list_ascii_of_string info) noFlags)
    as (_ & _ & _ & _ & _ & F6 & F7 & F8 & F9 & F10).
  rewrite F6, F7, F8, F9, F10. cbn [noFlags Forwarded Junk Notjunk Phishing MDNSent orb].
  repeat split; intros Hkw;
    apply (hasKeyword_letter kws _ info (Z.to_nat v)); try lia; try done;
    rewrite Hnth; try done; by apply (oneOf_nonempty _ _ Hkw).
Qed.

Lemma maildir_keyword_flag_witness :
  Forwarded (maildirFlags
               (ParseDovecotKeywords ["0 Old"; "3 $Forwarded"; "3 Junk"] None).1
               "1700000000.M1P2.host:2,Sd") = true.
Proof.
  refine (proj1 (maildir_keyword_flag ["0 Old"] ["3 Junk"] "3" "$Forwarded" 3 None
                   "1700000000.M1P2.host" "Sd" eq_refl _ _ eq_refl eq_refl) eq_refl).
  - lia.
  - apply (proj2 (namesSlot_text ["0 Old"] 3 ltac:(lia))).
    intros s [<-|[]]; reflexivity.
Defined.

(** X17: the copy of a message of a maildir, line by line.  A line that
    ends in a newline is written with CR LF at its end, whether it had the
    CR or not, and is otherwise unchanged; what follows the last newline,
    if anything does, is written without its last byte and with CR LF. *)
Theorem copyMessage_lines (bs : list string) (l : string) :
  (∀ b, In b bs → countChar LF b = 0%nat) → countChar LF l = 0%nat →
  (copyMessage (joinLines lf bs +:+ l)).1
  = (joinLines crlf (List.map trimCR bs)
     +:+ (if bool_decide (l = ""%string) then ""
          else strTake (len l - 1) l +:+ crlf))%string.
Proof. apply copyMessage_joined. Qed.

Lemma copyMessage_lines_witness :
  (copyMessage (joinLines lf ["Subject: hi"; "" +:+ String CR ""; "text"] +:+ "end"))%string.1
  = (joinLines crlf ["Subject: hi"; ""; "text"] +:+ "en" +:+ crlf)%string.
Proof.
  apply (copyMessage_lines ["Subject: hi"; "" +:+ String CR ""; "text"]%string "end").
  - intros b [<-|[<-|[<-|[]]]]; reflexivity.
  - reflexivity.
Defined.

(** X18: whatever the file holds, what the copy writes is a sequence of
    lines that each end in CR LF and have no other LF; a copy of it would
    write the same again; and the size returned is the number of bytes
    written, as long as that fits an [int64]. *)
Theorem copyMessage_crlf (s : string) :
  (∃ bs, (copyMessage s).1 = joinLines crlf bs ∧ ∀ b, In b bs → countChar LF b = 0%nat)
  ∧ (copyMessage (copyMessage s).1).1 = (copyMessage s).1
  ∧ (Z.of_nat (len (copyMessage s).1) ≤ maxInt →
     (copyMessage s).2 = Z.of_nat (len (copyMessage s).1))
  ∧ ((copyMessage s).1 = ""%string ↔ s = ""%string).
Proof.
  destruct (copyMessage_out s) as (bs & Hout & Hbs).
  split; [by exists bs|]. split; [|split].
  - rewrite Hout. by apply copyMessage_fixed.
  - intros Hfit. unfold copyMessage. rewrite copyLoop_size by done.
    apply wrapInt_small. unfold copyMessage in Hfit. lia.
  - split; [|by intros ->].
    destruct (lines_of s) as (bs' & l & -> & Hbs' & Hl).
    rewrite copyMessage_joined by done. unfold joinLines.
    destruct bs' as [|b bs'].
    + cbn [List.map String.concat]. rewrite !str_app_nil.
      destruct (bool_decide (l = ""%string)) eqn:E; [by apply bool_decide_eq_true in E|].
      intros H. apply (f_equal len) in H. rewrite len_app in H.
      unfold crlf, len in H. simpl in H. lia.
    + cbn [List.map]. rewrite !concat_cons. intros H. apply (f_equal len) in H.
      rewrite !len_app in H. unfold crlf, len in H. simpl in H. lia.
Qed.


(** ** Reading an mbox file *)

Lemma HasPrefix_app_l (b e p : string) (c : ascii) :
  countChar c p = 0%nat →
  HasPrefix (b +:+ String c e) p = HasPrefix b p.
Proof.
  revert b; induction p as [|d p IH]; intros b Hc; [by destruct b|].
  cbn [countChar] in Hc.
  destruct (bool_decide (d = c)) eqn:Hd; [simpl in Hc; lia|].
  apply bool_decide_eq_false in Hd.
  destruct b as [|x b].
  - rewrite str_app_nil. cbn [HasPrefix]. by rewrite bool_decide_eq_false_2.
  - rewrite str_app_cons. cbn [HasPrefix]. rewrite IH; [done|]. simpl in Hc. lia.
Qed.

Lemma TrimLeft_app (b e : string) (c : ascii) :
  c ≠ ">"%char →
  TrimLeft (b +:+ String c e) ">" = (TrimLeft b ">" +:+ String c e)%string.
Proof.
  intros Hc. induction b as [|x b IH].
  - rewrite !str_app_nil. cbn [TrimLeft]. unfold hasChar.
    cbn [list_ascii_of_string existsb orb]. rewrite orb_false_r.
    by rewrite bool_decide_eq_false_2.
  - rewrite str_app_cons. cbn [TrimLeft]. unfold hasChar in *.
    cbn [list_ascii_of_string existsb orb] in *. rewrite orb_false_r.
    destruct (bool_decide (">"%char = x)); [exact IH|]. by rewrite str_app_cons.
Qed.

(** The line written, after the ">" in front of its "From " is taken off. *)
Lemma unquote_fixed (b : string) :
  (if HasPrefix (b +:+ crlf) ">" && HasPrefix (TrimLeft (b +:+ crlf) ">") "From "
   then strDrop 1 (b +:+ crlf) else (b +:+ crlf)%string)
  = (unquoteFrom b +:+ crlf)%string.
Proof.
  unfold unquoteFrom, crlf.
  rewrite (HasPrefix_app_l b _ ">" CR) by done.
  rewrite (TrimLeft_app b _ CR) by done.
  rewrite (HasPrefix_app_l _ _ "From " CR) by done.
  destruct (HasPrefix b ">") eqn:Hb; [|done]. cbn [andb].
  destruct (HasPrefix (TrimLeft b ">") "From "); [|done].
  destruct b as [|c b]; [done|]. done.
Qed.

Lemma unquoteFrom_empty (b : string) : unquoteFrom b = ""%string ↔ b = ""%string.
Proof.
  split; [|by intros ->]. unfold unquoteFrom.
  destruct (HasPrefix b ">") eqn:Hb; [|done]. cbn [andb].
  destruct (HasPrefix (TrimLeft b ">") "From ") eqn:Hf; [|done].
  destruct b as [|c b]; [done|]. cbn [strDrop]. intros ->.
  cbn [HasPrefix] in Hb. apply andb_true_iff in Hb as [Hc _].
  apply bool_decide_eq_true in Hc. subst c. done.
Qed.

Lemma fixLine_prefix (l p : string) :
  countChar CR p = 0%nat → countChar LF p = 0%nat →
  HasPrefix (trimCR l +:+ crlf) p = HasPrefix l p.
Proof.
  intros Hcr Hlf. rewrite <- fixLine_lf. unfold fixLine.
  destruct (HasSuffix (l +:+ lf) crlf); cbn [negb].
  - unfold lf. by apply HasPrefix_app_l.
  - unfold lf. rewrite strTake_snoc. unfold crlf. by apply HasPrefix_app_l.
Qed.

Lemma blank_fixed (l : string) :
  bool_decide ((trimCR l +:+ crlf)%string = crlf) = blankLine l.
Proof.
  unfold blankLine. apply bool_decide_ext. split.
  - intros H. apply (str_app_inv_r _ ""%string crlf). by rewrite str_app_nil.
  - by intros ->.
Qed.

Lemma blank_written (l : string) :
  bool_decide ((unquoteFrom (trimCR l) +:+ crlf)%string = crlf) = blankLine l.
Proof.
  unfold blankLine. apply bool_decide_ext. rewrite <- unquoteFrom_empty. split.
  - intros H. apply (str_app_inv_r _ ""%string crlf). by rewrite str_app_nil.
  - by intros ->.
Qed.


Section mboxReader.

Variable TrimSpace : string → string.
Variable ToLower : string → string.
Variable timeParse : string → string → option Z.

(** One round of the loop of [Next], for a line that ends in a newline and
    does not start the next message. *)
Lemma nextLoop_line (f : nat) (mr : MboxReader) (flags : Flags) (size : Z)
    (out l rest : string) :
  countChar LF l = 0%nat →
  r mr = (l +:+ lf +:+ rest)%string →
  prevempty mr && HasPrefix l "From " = false →
  nextLoop TrimSpace ToLower (S f) mr flags size out
  = nextLoop TrimSpace ToLower f
      (mkMboxReader (path mr) (intAdd (line mr) 1) rest (blankLine l) (nonfirst mr)
                    (eof mr) (fromLine mr) (header mr && negb (blankLine l)))
      (if header mr then headerFlags TrimSpace ToLower flags (trimCR l +:+ crlf) else flags)
      (intAdd size (Z.of_nat (len (unquoteFrom (trimCR l) +:+ crlf))))
      (out +:+ unquoteFrom (trimCR l) +:+ crlf).
Proof.
  intros Hl Hr Hsep. destruct mr as [p n s pe nf e fl h]. cbn [r] in Hr. subst s.
  cbn [nextLoop r path line prevempty nonfirst eof fromLine header] in *.
  rewrite (ReadBytes_line l rest Hl).
  assert ((0 <? len (l +:+ lf))%nat = true) as ->.
  { apply Nat.ltb_lt. rewrite len_app. unfold lf, len. simpl. lia. }
  rewrite fixLine_lf. unfold setR, setLine, setHeader, setPrevempty.
  cbn [r path line prevempty nonfirst eof fromLine header].
  rewrite blank_fixed.
  destruct (blankLine l) eqn:Hb;
    cbn [r path line prevempty nonfirst eof fromLine header negb];
    rewrite (fixLine_prefix l "From ") by done; rewrite Hsep;
    rewrite unquote_fixed, blank_written, Hb, ?str_app_assoc, ?andb_false_r, ?andb_true_r;
    done.
Qed.

(** The lines of a message: the loop after them. *)
Lemma nextLoop_lines (ls : list string) (f : nat) (mr : MboxReader) (flags : Flags)
    (size : Z) (out tail : string) :
  (∀ l, In l ls → countChar LF l = 0%nat ∧ HasPrefix l "From " = false) →
  r mr = (joinLines lf ls +:+ tail)%string →
  (len (r mr) < f)%nat →
  ∃ f',
    (len tail < f')%nat
    ∧ nextLoop TrimSpace ToLower f mr flags size out
      = nextLoop TrimSpace ToLower f'
          (mkMboxReader (path mr)
             (Nat.iter (length ls) (λ n, intAdd n 1) (line mr)) tail
             (prevemptyAfter (prevempty mr) ls) (nonfirst mr) (eof mr) (fromLine mr)
             (headerAfter (header mr) ls))
          (flagsAfter TrimSpace ToLower (header mr) flags ls)
          (fold_left (λ z l, intAdd z (Z.of_nat (len (unquoteFrom (trimCR l) +:+ crlf))))
                     ls size)
          (out +:+ joinLines crlf (List.map (λ l, unquoteFrom (trimCR l)) ls)).
Proof.
  revert f mr flags size out. induction ls as [|l ls IH]; intros f mr flags size out Hls Hr Hf.
  - exists f. unfold joinLines in *. cbn [List.map String.concat] in *.
    rewrite str_app_nil in Hr. rewrite str_app_empty_r. split; [by rewrite <- Hr|].
    destruct mr. cbn in *. by subst.
  - unfold joinLines in Hr. cbn [List.map] in Hr. rewrite concat_cons, !str_app_assoc in Hr.
    destruct f as [|f]; [lia|].
    destruct (Hls l (or_introl eq_refl)) as [Hl Hfrom].
    rewrite (nextLoop_line f mr flags size out l _ Hl Hr) by (by rewrite Hfrom, andb_false_r).
    edestruct (IH f) as (f' & Hf' & ->).
    + intros x Hx. apply Hls. by right.
    + cbn [r]. reflexivity.
    + cbn [r]. rewrite Hr, !len_app in Hf. change (len lf) with 1%nat in Hf.
      unfold joinLines. rewrite len_app. lia.
    + exists f'. split; [done|]. cbn [path line r prevempty nonfirst eof fromLine header].
      f_equal.
      * f_equal. symmetry. apply (Nat.iter_succ_r (length ls) (λ n, intAdd n 1) (line mr)).
      * unfold joinLines. cbn [List.map]. by rewrite concat_cons, !str_app_assoc.
Qed.

(** The round of the loop at the "From " line of the next message. *)
Lemma blankLine_len (l : string) : blankLine l = true → (len l <= 1)%nat.
Proof.
  unfold blankLine, trimCR. intros H%bool_decide_eq_true.
  destruct (HasSuffix l (String CR "")).
  - apply (f_equal len) in H. rewrite len_strTake in H. cbn in H. lia.
  - subst. cbn. lia.
Qed.

Lemma headerFlags_other (flags : Flags) (l : string) :
  HasPrefix l "Status:" = false → HasPrefix l "X-Status:" = false →
  HasPrefix l "X-Keywords:" = false →
  headerFlags TrimSpace ToLower flags (trimCR l +:+ crlf) = flags.
Proof.
  intros H1 H2 H3. unfold headerFlags.
  rewrite !fixLine_prefix by done. by rewrite H1, H2, H3.
Qed.

Lemma nextLoop_from (f : nat) (mr : MboxReader) (flags : Flags) (size : Z)
    (out x rest : string) :
  countChar LF x = 0%nat →
  r mr = ("From " +:+ x +:+ lf +:+ rest)%string →
  prevempty mr = true →
  nextLoop TrimSpace ToLower (S f) mr flags size out
  = (mkMboxReader (path mr) (intAdd (line mr) 1) rest true (nonfirst mr) (eof mr)
                  (TrimSpace (fixLine ("From " +:+ x +:+ lf))) true,
     flags, size, out).
Proof.
  intros Hx Hr Hpe. destruct mr as [p n s pe nf e fl h].
  cbn [r prevempty] in Hr, Hpe. subst s pe.
  cbn [nextLoop r path line prevempty nonfirst eof fromLine header].
  rewrite <- (str_app_assoc "From " x). rewrite (ReadBytes_line ("From " +:+ x) rest)
    by (rewrite countChar_app, Hx; done).
  assert ((0 <? len (("From " +:+ x) +:+ lf))%nat = true) as ->.
  { apply Nat.ltb_lt. rewrite len_app. unfold lf, len. simpl. lia. }
  rewrite fixLine_lf. unfold setR, setLine, setHeader, setPrevempty, setFromLine.
  cbn [r path line prevempty nonfirst eof fromLine header].
  rewrite blank_fixed.
  assert (blankLine ("From " +:+ x) = false) as ->.
  { apply not_true_iff_false. intros H%blankLine_len. rewrite len_app in H.
    unfold len in H. simpl in H. lia. }
  cbn [r path line prevempty nonfirst eof fromLine header].
  rewrite (fixLine_prefix _ "From ") by done.
  rewrite (HasPrefix_self "From " x). cbn [andb].
  rewrite (headerFlags_other flags ("From " +:+ x)) by (by rewrite str_app_cons).
  rewrite <- (str_app_assoc "From " x lf), fixLine_lf. by destruct h.
Qed.

(** The round of the loop at the end of the file. *)
Lemma nextLoop_end (f : nat) (mr : MboxReader) (flags : Flags) (size : Z) (out : string) :
  r mr = ""%string →
  nextLoop TrimSpace ToLower (S f) mr flags size out
  = (mkMboxReader (path mr) (line mr) "" (prevempty mr) (nonfirst mr) true
                  (fromLine mr) (header mr),
     flags, size, out).
Proof.
  intros Hr. destruct mr as [p n s pe nf e fl h]. cbn [r] in Hr. subst s. done.
Qed.

Lemma iter_line (k : nat) (n : Z) :
  0 ≤ n → n + Z.of_nat k ≤ maxInt →
  Nat.iter k (λ n, intAdd n 1) n = n + Z.of_nat k.
Proof.
  induction k as [|k IH]; intros H0 Hk; [simpl; lia|].
  rewrite Nat.iter_succ, IH by lia. rewrite intAdd_small by lia. lia.
Qed.

Lemma size_lines (ls : list string) (size : Z) :
  wrapInt size = size →
  fold_left (λ z l, intAdd z (Z.of_nat (len (unquoteFrom (trimCR l) +:+ crlf)))) ls size
  = wrapInt (size + Z.of_nat (len (joinLines crlf (List.map (λ l, unquoteFrom (trimCR l)) ls)))).
Proof.
  revert size; induction ls as [|l ls IH]; intros size Hsize.
  - cbn. by rewrite Z.add_0_r.
  - cbn [fold_left List.map]. rewrite IH by apply wrapInt_idem.
    unfold joinLines. cbn [List.map]. rewrite concat_cons, !len_app.
    unfold intAdd. rewrite wrapInt_add. f_equal. lia.
Qed.

(** The flags of a message are those of the lines of its header, up to
    the first empty line. *)
Lemma flagsAfter_body (flags : Flags) (ls : list string) :
  flagsAfter TrimSpace ToLower false flags ls = flags.
Proof. revert flags; induction ls as [|l ls IH]; intros flags; [done|]. apply IH. Qed.

Lemma flagsAfter_header (hdr body : list string) (flags : Flags) :
  (∀ l, In l hdr → blankLine l = false) →
  match body with [] => True | b :: _ => blankLine b = true end →
  flagsAfter TrimSpace ToLower true flags (hdr ++ body)
  = fold_left (headerFlags TrimSpace ToLower)
              (List.map (λ l, trimCR l +:+ crlf)%string hdr) flags.
Proof.
  revert flags; induction hdr as [|l hdr IH]; intros flags Hhdr Hbody.
  - cbn [app List.map fold_left]. destruct body as [|b body]; [done|].
    cbn [flagsAfter]. rewrite Hbody. cbn [negb andb]. rewrite flagsAfter_body.
    unfold blankLine in Hbody. apply bool_decide_eq_true in Hbody. rewrite Hbody.
    done.
  - cbn [app List.map fold_left flagsAfter].
    rewrite (Hhdr l) by by left. cbn [negb andb]. apply IH; [|done].
    intros x Hx. apply Hhdr. by right.
Qed.

Lemma flagsAfter_headerLines (ls : list string) (flags : Flags) :
  flagsAfter TrimSpace ToLower true flags ls
  = fold_left (headerFlags TrimSpace ToLower)
              (List.map (λ l, trimCR l +:+ crlf)%string (headerLines ls)) flags.
Proof.
  revert flags; induction ls as [|l ls IH]; intros flags; [done|].
  cbn [flagsAfter headerLines]. destruct (blankLine l) eqn:Hb; cbn [negb andb].
  - rewrite flagsAfter_body. cbn [List.map fold_left].
    unfold blankLine in Hb. apply bool_decide_eq_true in Hb. by rewrite Hb.
  - cbn [List.map fold_left]. apply IH.
Qed.

(** A call of [Next] after the first. *)
Lemma Next_later (mr : MboxReader) :
  eof mr = false → nonfirst mr = true →
  Next TrimSpace ToLower timeParse mr
  = let '(mr', flags, size, out) :=
      nextLoop TrimSpace ToLower (S (len (r mr))) mr noFlags 0 "" in
    (mr', NextMessage (mkMessage (receivedTime timeParse (fromLine mr)) flags size) out
                      (Position mr')).
Proof. intros He Hn. unfold Next. by rewrite He, Hn. Qed.

(** A message that ends at the "From " line of the next. *)
Lemma Next_until_from (mr : MboxReader) (ls : list string) (x rest : string) :
  eof mr = false → nonfirst mr = true →
  0 ≤ line mr → line mr + Z.of_nat (length ls) + 1 ≤ maxInt →
  (∀ l, In l ls → countChar LF l = 0%nat ∧ HasPrefix l "From " = false) →
  countChar LF x = 0%nat →
  r mr = (joinLines lf ls +:+ "From " +:+ x +:+ lf +:+ rest)%string →
  prevemptyAfter (prevempty mr) ls = true →
  Z.of_nat (len (joinLines crlf (List.map (λ l, unquoteFrom (trimCR l)) ls))) ≤ maxInt →
  Next TrimSpace ToLower timeParse mr
  = (mkMboxReader (path mr) (line mr + Z.of_nat (length ls) + 1) rest true true false
                  (TrimSpace (fixLine ("From " +:+ x +:+ lf))) true,
     NextMessage
       (mkMessage (receivedTime timeParse (fromLine mr))
                  (flagsAfter TrimSpace ToLower (header mr) noFlags ls)
                  (Z.of_nat (len (joinLines crlf (List.map (λ l, unquoteFrom (trimCR l)) ls)))))
       (joinLines crlf (List.map (λ l, unquoteFrom (trimCR l)) ls))
       (path mr +:+ ":" +:+ pretty (line mr + Z.of_nat (length ls) + 1))).
Proof.
  intros He Hn H0 Hmax Hls Hx Hr Hpe Hsize.
  rewrite (Next_later mr He Hn).
  destruct (nextLoop_lines ls (S (len (r mr))) mr noFlags 0 ""
              ("From " +:+ x +:+ lf +:+ rest) Hls Hr) as (f' & Hf' & ->); [lia|].
  destruct f' as [|f']; [lia|].
  rewrite (nextLoop_from f' _ _ _ _ x rest Hx); [|done|done].
  cbn [path line nonfirst eof]. rewrite He, Hn.
  rewrite iter_line by lia. rewrite (intAdd_small (line mr + _)) by lia.
  rewrite size_lines by done. rewrite Z.add_0_l, str_app_nil.
  rewrite wrapInt_small by (unfold maxInt in *; lia).
  unfold Position. cbn [path line]. done.
Qed.

(** A message that ends with the file. *)
Lemma Next_until_end (mr : MboxReader) (ls : list string) :
  eof mr = false → nonfirst mr = true →
  0 ≤ line mr → line mr + Z.of_nat (length ls) ≤ maxInt →
  (∀ l, In l ls → countChar LF l = 0%nat ∧ HasPrefix l "From " = false) →
  r mr = joinLines lf ls →
  Z.of_nat (len (joinLines crlf (List.map (λ l, unquoteFrom (trimCR l)) ls))) ≤ maxInt →
  Next TrimSpace ToLower timeParse mr
  = (mkMboxReader (path mr) (line mr + Z.of_nat (length ls)) "" 
                  (prevemptyAfter (prevempty mr) ls) true true (fromLine mr)
                  (headerAfter (header mr) ls),
     NextMessage
       (mkMessage (receivedTime timeParse (fromLine mr))
                  (flagsAfter TrimSpace ToLower (header mr) noFlags ls)
                  (Z.of_nat (len (joinLines crlf (List.map (λ l, unquoteFrom (trimCR l)) ls)))))
       (joinLines crlf (List.map (λ l, unquoteFrom (trimCR l)) ls))
       (path mr +:+ ":" +:+ pretty (line mr + Z.of_nat (length ls)))).
Proof.
  intros He Hn H0 Hmax Hls Hr Hsize.
  rewrite (Next_later mr He Hn).
  destruct (nextLoop_lines ls (S (len (r mr))) mr noFlags 0 "" "" Hls) as (f' & Hf' & ->);
    [by rewrite str_app_empty_r | lia |].
  destruct f' as [|f']; [cbn in Hf'; lia|].
  rewrite nextLoop_end by done.
  cbn [path line nonfirst eof prevempty fromLine header]. rewrite Hn.
  rewrite iter_line by lia.
  rewrite size_lines by done. rewrite Z.add_0_l, str_app_nil.
  rewrite wrapInt_small by (unfold maxInt in *; lia).
  unfold Position. cbn [path line]. done.
Qed.

(** X19: a call of [Next] at the start of a message whose lines end in a
    newline and do not start with "From ", up to the "From " line of the
    next message after an empty line.  The message has these lines, each
    without the CR it may have had before its newline and without the
    first ">" of a quoted "From ", and each ended by CR LF; its size is
    the number of these bytes and its flags are those of the lines before
    the first empty one.  The reader is left after the "From " line, which
    it has kept, and the position is the name of the file and the number
    of lines read so far plus one. *)
Theorem Next_message (mr : MboxReader) (ls : list string) (x rest : string) :
  eof mr = false → nonfirst mr = true → header mr = true →
  0 ≤ line mr → line mr + Z.of_nat (length ls) + 1 ≤ maxInt →
  (∀ l, In l ls → countChar LF l = 0%nat ∧ HasPrefix l "From " = false) →
  countChar LF x = 0%nat →
  r mr = (joinLines lf ls +:+ "From " +:+ x +:+ lf +:+ rest)%string →
  prevemptyAfter (prevempty mr) ls = true →
  Z.of_nat (len (joinLines crlf (List.map (λ l, unquoteFrom (trimCR l)) ls))) ≤ maxInt →
  Next TrimSpace ToLower timeParse mr
  = (mkMboxReader (path mr) (line mr + Z.of_nat (length ls) + 1) rest true true false
                  (TrimSpace (fixLine ("From " +:+ x +:+ lf))) true,
     NextMessage
       (mkMessage (receivedTime timeParse (fromLine mr))
                  (fold_left (headerFlags TrimSpace ToLower)
                             (List.map (λ l, trimCR l +:+ crlf)%string (headerLines ls))
                             noFlags)
                  (Z.of_nat (len (joinLines crlf (List.map (λ l, unquoteFrom (trimCR l)) ls)))))
       (joinLines crlf (List.map (λ l, unquoteFrom (trimCR l)) ls))
       (path mr +:+ ":" +:+ pretty (line mr + Z.of_nat (length ls) + 1))).
Proof.
  intros He Hn Hh H0 Hmax Hls Hx Hr Hpe Hsize.
  rewrite (Next_until_from mr ls x rest) by done.
  by rewrite Hh, flagsAfter_headerLines.
Qed.

(** X20: a call of [Next] at the start of the last message, whose lines end
    in a newline and do not start with "From ", up to the end of the file.
    The message is as for any other; the reader has seen the end of the
    file, and the call after this one returns [io.EOF] and changes
    nothing. *)
Theorem Next_last (mr : MboxReader) (ls : list string) :
  eof mr = false → nonfirst mr = true → header mr = true →
  0 ≤ line mr → line mr + Z.of_nat (length ls) ≤ maxInt →
  (∀ l, In l ls → countChar LF l = 0%nat ∧ HasPrefix l "From " = false) →
  r mr = joinLines lf ls →
  Z.of_nat (len (joinLines crlf (List.map (λ l, unquoteFrom (trimCR l)) ls))) ≤ maxInt →
  ∃ mr',
    Next TrimSpace ToLower timeParse mr
    = (mr',
       NextMessage
         (mkMessage (receivedTime timeParse (fromLine mr))
                    (fold_left (headerFlags TrimSpace ToLower)
                               (List.map (λ l, trimCR l +:+ crlf)%string (headerLines ls))
                               noFlags)
                    (Z.of_nat (len (joinLines crlf (List.map (λ l, unquoteFrom (trimCR l)) ls)))))
         (joinLines crlf (List.map (λ l, unquoteFrom (trimCR l)) ls))
         (path mr +:+ ":" +:+ pretty (line mr + Z.of_nat (length ls))))
    ∧ eof mr' = true ∧ r mr' = ""%string
    ∧ Next TrimSpace ToLower timeParse mr' = (mr', NextEOF).
Proof.
  intros He Hn Hh H0 Hmax Hls Hr Hsize.
  eexists. split; [|split; [|split]].
  - rewrite (Next_until_end mr ls) by done. rewrite Hh, flagsAfter_headerLines. reflexivity.
  - done.
  - done.
  - done.
Qed.

(** X21: the first call of [Next] reads the first line of the file.  When
    it starts with "From ", the call goes on as a later call does, from
    the second line, in the header of a message, with the line kept;
    when not, it returns an error with the position of the second line;
    and a file without any newline has no message at all: the call
    returns [io.EOF]. *)
Theorem Next_first (mr : MboxReader) :
  eof mr = false → nonfirst mr = false → 0 ≤ line mr < maxInt →
  (∀ first rest, r mr = (first +:+ lf +:+ rest)%string → countChar LF first = 0%nat →
     if HasPrefix first "From " then
       Next TrimSpace ToLower timeParse mr
       = Next TrimSpace ToLower timeParse
           (mkMboxReader (path mr) (line mr + 1) rest (prevempty mr) true false
                         (TrimSpace (first +:+ lf)) true)
     else
       Next TrimSpace ToLower timeParse mr
       = (mkMboxReader (path mr) (line mr + 1) rest (prevempty mr) false false
                       (fromLine mr) true,
          NextError (path mr +:+ ":" +:+ pretty (line mr + 1))
                    ("first line does not start with " +:+ dquote +:+ "From " +:+ dquote)))
  ∧ (countChar LF (r mr) = 0%nat →
     Next TrimSpace ToLower timeParse mr
     = (mkMboxReader (path mr) (line mr) "" (prevempty mr) false false (fromLine mr) true,
        NextEOF)).
Proof.
  intros He Hn Hline. split.
  - intros first rest Hr Hfirst. destruct mr as [p n s pe nf e fl h].
    cbn [eof nonfirst r line path prevempty fromLine] in *. subst s e nf.
    assert (HasPrefix (first +:+ lf) "From " = HasPrefix first "From ") as Hp.
    { change (first +:+ lf)%string with (first +:+ String LF "")%string.
      by apply HasPrefix_app_l. }
    destruct (HasPrefix first "From ") eqn:Hfrom.
    + unfold Next at 1. unfold setHeader.
      cbn [eof nonfirst negb r path line prevempty fromLine header].
      rewrite (ReadBytes_line first rest Hfirst), Hp.
      unfold setR, setLine, setNonfirst, setFromLine.
      cbn [r path line prevempty nonfirst eof fromLine header negb].
      rewrite intAdd_small by lia.
      unfold Next. cbn [eof nonfirst negb r fromLine]. reflexivity.
    + unfold Next, setHeader.
      cbn [eof nonfirst negb r path line prevempty fromLine header].
      rewrite (ReadBytes_line first rest Hfirst), Hp.
      unfold setR, setLine, setNonfirst, setFromLine, Position.
      cbn [r path line prevempty nonfirst eof fromLine header negb].
      rewrite intAdd_small by lia. reflexivity.
  - intros Hr. destruct mr as [p n s pe nf e fl h].
    cbn [eof nonfirst r line path prevempty fromLine] in *. subst e nf.
    unfold Next, setHeader. cbn [eof nonfirst negb r path line prevempty fromLine header].
    by rewrite (ReadBytes_last s Hr).
Qed.

End mboxReader.


Lemma Next_message_witness :
  Next (λ s, s) (λ s, s) (λ _ _, None)
       (mkMboxReader "in.mbox" 2
          (joinLines lf ["Status: RO"; "Subject: hi"; ""; ">From here on"; ""]
           +:+ "From b@example.org Thu Jan  1 00:00:00 1970" +:+ lf +:+ "Subject: next")
          false true false "From a@example.org" true)
  = (mkMboxReader "in.mbox" 8 "Subject: next" true true false
       (fixLine ("From " +:+ "b@example.org Thu Jan  1 00:00:00 1970" +:+ lf)) true,
     NextMessage
       (mkMessage None (setSeen noFlags) 43)
       (joinLines crlf ["Status: RO"; "Subject: hi"; ""; "From here on"; ""])
       "in.mbox:8").
Proof.
  apply (Next_message (λ s, s) (λ s, s) (λ _ _, None)
           (mkMboxReader "in.mbox" 2
              (joinLines lf ["Status: RO"; "Subject: hi"; ""; ">From here on"; ""]
               +:+ "From b@example.org Thu Jan  1 00:00:00 1970" +:+ lf +:+ "Subject: next")
              false true false "From a@example.org" true)
           ["Status: RO"; "Subject: hi"; ""; ">From here on"; ""]
           "b@example.org Thu Jan  1 00:00:00 1970" "Subject: next"
           eq_refl eq_refl eq_refl).
  - simpl. lia.
  - by vm_compute.
  - intros l [<-|[<-|[<-|[<-|[<-|[]]]]]]; split; reflexivity.
  - reflexivity.
  - reflexivity.
  - reflexivity.
  - by vm_compute.
Defined.

Lemma Next_last_witness :
  ∃ mr',
    Next (λ s, s) (λ s, s) (λ _ _, None)
         (mkMboxReader "in.mbox" 8 (joinLines lf ["X-Status: AF"; ""; "bye"])
                       true true false "From b@example.org" true)
    = (mr',
       NextMessage
         (mkMessage None (setFlagged (setAnswered noFlags)) 21)
         (joinLines crlf ["X-Status: AF"; ""; "bye"])
         "in.mbox:11")
    ∧ eof mr' = true ∧ r mr' = ""%string
    ∧ Next (λ s, s) (λ s, s) (λ _ _, None) mr' = (mr', NextEOF).
Proof.
  apply (Next_last (λ s, s) (λ s, s) (λ _ _, None)
           (mkMboxReader "in.mbox" 8 (joinLines lf ["X-Status: AF"; ""; "bye"])
                         true true false "From b@example.org" true)
           ["X-Status: AF"; ""; "bye"] eq_refl eq_refl eq_refl).
  - simpl. lia.
  - by vm_compute.
  - intros l [<-|[<-|[<-|[]]]]; split; reflexivity.
  - reflexivity.
  - by vm_compute.
Defined.

Lemma Next_first_witness :
  Next (λ s, s) (λ s, s) (λ _ _, None)
       (NewMboxReader "in.mbox" ("From a@example.org" +:+ lf +:+ "Subject: hi" +:+ lf))
  = Next (λ s, s) (λ s, s) (λ _ _, None)
         (mkMboxReader "in.mbox" 2 ("Subject: hi" +:+ lf) false true false
                       ("From a@example.org" +:+ lf) true).
Proof.
  refine (proj1 (Next_first (λ s, s) (λ s, s) (λ _ _, None)
                   (NewMboxReader "in.mbox"
                      ("From a@example.org" +:+ lf +:+ "Subject: hi" +:+ lf))
                   eq_refl eq_refl _)
                "From a@example.org" ("Subject: hi" +:+ lf)%string eq_refl eq_refl).
  by vm_compute.
Defined.


(** ** The messages of a maildir *)

Section maildirReader.

Variable Join : string → string → string.
Variable Base : string → string.
Variable open : string → option string.

(** The second part of [Next] returns what is to be returned for the first
    of the entries. *)
Lemma nextEntry_result (mr : MaildirReader) (e : string) (es : list string) :
  entries mr = e :: es →
  nextEntry Join Base open mr
  = (setEntries mr es, fileResult Join Base open (dovecotKeywords mr) (dir mr) e).
Proof.
  intros He. unfold nextEntry, fileResult. rewrite He. cbn [nth skipn].
  destruct (open (Join (dir mr) e)) as [content|]; [|done].
  by destruct (copyMessage content).
Qed.

(** A call of [Next] returns what is to be returned for the first of the
    files that are left, and [io.EOF] when none is left. *)
Lemma MaildirNext_step (mr : MaildirReader) :
  dirOK mr →
  ∃ mr',
    dirOK mr' ∧ dovecotKeywords mr' = dovecotKeywords mr
    ∧ match pending mr with
      | [] => MaildirNext Join Base open mr = (mr', MaildirEOF) ∧ pending mr' = []
      | (d, n) :: rest =>
          MaildirNext Join Base open mr
          = (mr', fileResult Join Base open (dovecotKeywords mr) d n)
          ∧ pending mr' = rest
      end.
Proof.
  destruct mr as [[nn nu] [cn cu] w d es kws]. unfold dirOK, pending, MaildirNext.
  cbn [f newf curf dir entries dovecotKeywords currentFile Name unread].
  intros Hd.
  destruct w.
  - (* in the directory new *)
    assert ((if bool_decide (d = ""%string)
             then setDir (mkMaildirReader (mkDirFile nn nu) (mkDirFile cn cu) NewFile d es kws)
                         nn
             else mkMaildirReader (mkDirFile nn nu) (mkDirFile cn cu) NewFile d es kws)
            = mkMaildirReader (mkDirFile nn nu) (mkDirFile cn cu) NewFile nn es kws) as Hdir.
    { destruct (bool_decide (d = ""%string)) eqn:E; [done|].
      apply bool_decide_eq_false in E. destruct Hd as [H|H]; [done | by rewrite H]. }
    cbn [maildirNext currentFile f newf curf Name dir]. rewrite Hdir. clear Hdir Hd.
    cbn [entries currentFile f newf curf].
    destruct es as [|e es].
    + cbn [length Nat.eqb ReadDir unread Name app].
      unfold setCurrentFile, setEntries.
      cbn [f newf curf dir entries dovecotKeywords].
      destruct nu as [|u nu].
      * cbn [firstn skipn length Nat.eqb List.map app].
        unfold setF, setDir. cbn [f newf curf dir entries dovecotKeywords currentFile Name].
        rewrite bool_decide_eq_true_2 by done.
        cbn [entries length Nat.eqb currentFile f curf ReadDir unread Name].
        unfold setCurrentFile, setEntries. cbn [f newf curf dir entries dovecotKeywords].
        destruct cu as [|c cu].
        -- cbn [firstn skipn length Nat.eqb List.map].
           refine (ex_intro _ _ (conj _ (conj _ (conj eq_refl _)))); [by right | done | done].
        -- cbn [firstn skipn length Nat.eqb List.map].
           rewrite (nextEntry_result _ c (firstn 99 cu)) by done.
           refine (ex_intro _ _ (conj _ (conj _ (conj eq_refl _)))); [by right | done |].
           unfold setEntries. cbn [f entries curf unread Name].
           by rewrite firstn_skipn.
      * cbn [firstn skipn length Nat.eqb List.map app].
        rewrite (nextEntry_result _ u (firstn 99 nu)) by done.
        refine (ex_intro _ _ (conj _ (conj _ (conj eq_refl _)))); [by right | done |].
        unfold setEntries. cbn [f entries newf curf unread Name]. by rewrite firstn_skipn.
    + cbn [length Nat.eqb List.map app].
      rewrite (nextEntry_result _ e es) by done.
      refine (ex_intro _ _ (conj _ (conj _ (conj eq_refl _)))); [by right | done | done].
  - (* in the directory cur *)
    assert ((if bool_decide (d = ""%string)
             then setDir (mkMaildirReader (mkDirFile nn nu) (mkDirFile cn cu) CurFile d es kws)
                         cn
             else mkMaildirReader (mkDirFile nn nu) (mkDirFile cn cu) CurFile d es kws)
            = mkMaildirReader (mkDirFile nn nu) (mkDirFile cn cu) CurFile cn es kws) as Hdir.
    { destruct (bool_decide (d = ""%string)) eqn:E; [done|].
      apply bool_decide_eq_false in E. destruct Hd as [H|H]; [done | by rewrite H]. }
    cbn [maildirNext currentFile f newf curf Name dir]. rewrite Hdir. clear Hdir Hd.
    cbn [entries currentFile f newf curf].
    destruct es as [|e es].
    + cbn [length Nat.eqb ReadDir unread Name app].
      unfold setCurrentFile, setEntries.
      cbn [f newf curf dir entries dovecotKeywords].
      destruct cu as [|c cu].
      * cbn [firstn skipn length Nat.eqb List.map].
        refine (ex_intro _ _ (conj _ (conj _ (conj eq_refl _)))); [by right | done | done].
      * cbn [firstn skipn length Nat.eqb List.map].
        rewrite (nextEntry_result _ c (firstn 99 cu)) by done.
        refine (ex_intro _ _ (conj _ (conj _ (conj eq_refl _)))); [by right | done |].
        unfold setEntries. cbn [f entries curf unread Name]. by rewrite firstn_skipn.
    + cbn [length Nat.eqb List.map app].
      rewrite (nextEntry_result _ e es) by done.
      refine (ex_intro _ _ (conj _ (conj _ (conj eq_refl _)))); [by right | done | done].
Qed.

(** The calls of [Next], one after the other. *)
Lemma maildirNexts_pending (j : nat) (l : list (string * string)) (mr : MaildirReader) :
  dirOK mr → pending mr = l →
  maildirNexts Join Base open (length l + j) mr
  = List.map (λ x, fileResult Join Base open (dovecotKeywords mr) x.1 x.2) l
    ++ replicate j MaildirEOF.
Proof.
  revert mr; induction l as [|[d n] l IH]; intros mr Hd Hp.
  - cbn [length Nat.add List.map app]. revert mr Hd Hp.
    induction j as [|j IHj]; intros mr Hd Hp; [done|].
    destruct (MaildirNext_step mr Hd) as (mr' & Hd' & Hk & Hstep).
    rewrite Hp in Hstep. destruct Hstep as [Hn Hp'].
    cbn [maildirNexts replicate]. rewrite Hn. f_equal. by apply IHj.
  - destruct (MaildirNext_step mr Hd) as (mr' & Hd' & Hk & Hstep).
    rewrite Hp in Hstep. destruct Hstep as [Hn Hp'].
    cbn [length Nat.add maildirNexts List.map app]. rewrite Hn. f_equal.
    rewrite (IH mr' Hd' Hp'). by rewrite Hk.
Qed.

(** X22: the calls of [Next] on a new reader of a maildir return what is
    to be returned for the files of the directory [new], in the order in
    which the directory lists them, then for those of [cur], and from
    then on [io.EOF]: no file is left out or returned twice, however many
    there are, and a file that cannot be opened does not keep the reader
    from going on.  Each file gets the flags of its own name by the
    dovecot keywords of the maildir. *)
Theorem maildirNexts_all (newDir curDir : dirFile)
    (kf : option (list string * option string)) (j : nat) :
  maildirNexts Join Base open (length (unread newDir) + length (unread curDir) + j)
               (NewMaildirReader newDir curDir kf)
  = List.map (fileResult Join Base open
                (dovecotKeywords (NewMaildirReader newDir curDir kf)) (Name newDir))
             (unread newDir)
    ++ List.map (fileResult Join Base open
                   (dovecotKeywords (NewMaildirReader newDir curDir kf)) (Name curDir))
                (unread curDir)
    ++ replicate j MaildirEOF.
Proof.
  pose proof (maildirNexts_pending j (pending (NewMaildirReader newDir curDir kf))
                (NewMaildirReader newDir curDir kf) (or_introl eq_refl) eq_refl) as H.
  unfold pending in H. cbn [NewMaildirReader f newf curf entries app] in H.
  rewrite length_app, !length_map in H. rewrite H.
  rewrite List.map_app, !List.map_map, app_assoc. done.
Qed.

End maildirReader.
